(** * Position index, position codec and resolver of the Solidity AST
      language server ([src/lsp/ast.py])

    A shallow embedding of the indexing and resolution engine: the UTF-8 /
    UTF-16 position codec, the per-file spatial index, the recursive AST
    walk that fills it, the artifact loader and the two resolver queries.

    Conventions of the embedding.
    - Python [int] is [Z]; [len] is [Z.of_nat (length _)].
    - A raised exception is the [Raise] outcome of the [result] monad; a
      [try ... except] is [try_except].
    - File contents (the [content] argument of the codec) are Python [str]
      values modelled as their sequence of code points ([text]).
    - Keys and string values of the parsed JSON artifact are Rocq [string]s,
      read as sequences of code points below 256; strings with code points
      above that range are outside the model.  JSON numbers with a fraction
      or an exponent (Python [float]) are outside the model as well.
    - A Python [dict] whose iteration order is observable is an association
      list in insertion order; the two dictionaries of the index that are
      only probed by key are [gmap]s. *)

From Stdlib Require Import ZArith List String Ascii Lia.
From stdpp Require Import base tactics option list gmap strings sorting.

Local Open Scope Z_scope.

(** ** Exceptions *)

Inductive exn : Set :=
  | AttributeError
  | TypeError
  | ValueError
  | KeyError
  | IndexError
  | FileNotFoundError
  | PermissionError
  | IsADirectoryError
  | UnicodeEncodeError
  | UnicodeDecodeError.

Inductive result (A : Type) : Type :=
  | Ok (a : A)
  | Raise (e : exn).
Arguments Ok {A} a.
Arguments Raise {A} e.

Global Instance result_ret : MRet result := fun A a => Ok a.
Global Instance result_bind : MBind result := fun A B f m =>
  match m with
  | Ok a => f a
  | Raise e => Raise e
  end.

Global Instance exn_eq_dec : EqDecision exn.
Proof. solve_decision. Defined.

(** [try: body except handled: fallback] *)
Definition try_except {A} (body : result A) (handled : list exn) (fallback : A)
  : result A :=
  match body with
  | Ok a => Ok a
  | Raise e => if bool_decide (e ∈ handled) then Ok fallback else Raise e
  end.

Definition len {A} (l : list A) : Z := Z.of_nat (length l).

(** [l[i]] on a Python list, negative indices counting from the end. *)
Definition py_index {A} (l : list A) (i : Z) : result A :=
  let j := if i <? 0 then len l + i else i in
  if j <? 0 then Raise IndexError
  else match l !! Z.to_nat j with
       | Some x => Ok x
       | None => Raise IndexError
       end.

(** [l[:n]] on a Python sequence. *)
Definition py_slice_to {A} (l : list A) (n : Z) : list A :=
  if 0 <=? n then take (Z.to_nat n) l else take (Z.to_nat (len l + n)) l.

(** ** Text and its encodings *)

Module Codec.

(** A Python [str]: its code points. *)
Definition text := list Z.

Definition is_surrogate (c : Z) : bool := (0xD800 <=? c) && (c <=? 0xDFFF).

(** The code points a [str] decoded from UTF-8 can hold. *)
Definition is_scalar (c : Z) : bool :=
  (0 <=? c) && (c <? 0x110000) && negb (is_surrogate c).

Definition utf8_text (s : text) : Prop := forallb is_scalar s = true.

(** UTF-8 bytes of one code point: the payload bits are cut in groups of six
    ([/ 64], [mod 64]) below the length marker of the leading byte. *)
Definition utf8_encode_char (c : Z) : list Z :=
  if c <? 0x80 then [c]
  else if c <? 0x800 then [0xC0 + c / 64; 0x80 + c mod 64]
  else if c <? 0x10000 then
    [0xE0 + c / 4096; 0x80 + (c / 64) mod 64; 0x80 + c mod 64]
  else
    [0xF0 + c / 262144; 0x80 + (c / 4096) mod 64;
     0x80 + (c / 64) mod 64; 0x80 + c mod 64].

(** UTF-16 little-endian bytes of one code point: one unit, or a surrogate
    pair above the basic plane. *)
Definition utf16le_encode_char (c : Z) : list Z :=
  if c <? 0x10000 then [c mod 256; c / 256]
  else
    let v := c - 0x10000 in
    let hi := 0xD800 + v / 1024 in
    let lo := 0xDC00 + v mod 1024 in
    [hi mod 256; hi / 256; lo mod 256; lo / 256].

(** [s.encode("utf-8")]: strict, a lone surrogate raises. *)
Definition str_encode_utf8 (s : text) : result (list Z) :=
  if existsb is_surrogate s then Raise UnicodeEncodeError
  else Ok (flat_map utf8_encode_char s).

(** [s.encode("utf-16le")] *)
Definition str_encode_utf16le (s : text) : result (list Z) :=
  if existsb is_surrogate s then Raise UnicodeEncodeError
  else Ok (flat_map utf16le_encode_char s).

Definition is_continuation (b : Z) : bool := (0x80 <=? b) && (b <? 0xC0).

(** [bs.decode("utf-8", errors="ignore")]: the decoder of the interpreter.
    An invalid start byte is skipped; an invalid continuation byte ends the
    sequence before it (the bytes read so far are skipped); a sequence cut
    by the end of the data is skipped with everything after it. *)
Fixpoint bytes_decode_utf8_ignore (bs : list Z) : text :=
  match bs with
  | [] => []
  | b1 :: r1 =>
    if b1 <? 0x80 then b1 :: bytes_decode_utf8_ignore r1
    else if b1 <? 0xC2 then bytes_decode_utf8_ignore r1
    else if b1 <? 0xE0 then
      match r1 with
      | [] => []
      | b2 :: r2 =>
        if negb (is_continuation b2) then bytes_decode_utf8_ignore r1
        else ((b1 - 0xC0) * 64 + (b2 - 0x80)) :: bytes_decode_utf8_ignore r2
      end
    else if b1 <? 0xF0 then
      match r1 with
      | [] => []
      | b2 :: r2 =>
        if negb (is_continuation b2)
           || (if b2 <? 0xA0 then b1 =? 0xE0 else b1 =? 0xED)
        then bytes_decode_utf8_ignore r1
        else
          match r2 with
          | [] => []
          | b3 :: r3 =>
            if negb (is_continuation b3) then bytes_decode_utf8_ignore r2
            else ((b1 - 0xE0) * 4096 + (b2 - 0x80) * 64 + (b3 - 0x80))
                   :: bytes_decode_utf8_ignore r3
          end
      end
    else if b1 <? 0xF5 then
      match r1 with
      | [] => []
      | b2 :: r2 =>
        if negb (is_continuation b2)
           || (if b2 <? 0x90 then b1 =? 0xF0 else b1 =? 0xF4)
        then bytes_decode_utf8_ignore r1
        else
          match r2 with
          | [] => []
          | b3 :: r3 =>
            if negb (is_continuation b3) then bytes_decode_utf8_ignore r2
            else
              match r3 with
              | [] => []
              | b4 :: r4 =>
                if negb (is_continuation b4) then bytes_decode_utf8_ignore r3
                else ((b1 - 0xF0) * 262144 + (b2 - 0x80) * 4096
                      + (b3 - 0x80) * 64 + (b4 - 0x80))
                       :: bytes_decode_utf8_ignore r4
              end
          end
      end
    else bytes_decode_utf8_ignore r1
  end.

Definition newline : Z := 10.

(** [s.split("\n")]: never empty, one more piece than separators. *)
Fixpoint str_split_nl (s : text) : list text :=
  match s with
  | [] => [[]]
  | c :: s' =>
    if c =? newline then [] :: str_split_nl s'
    else match str_split_nl s' with
         | l :: ls => (c :: l) :: ls
         | [] => [[c]]
         end
  end.

(** The loop [for i in range(line): if i < len(lines): ... += ... + 1]. *)
Fixpoint line_start_loop (lines : list text) (range : list Z)
    (line_start_bytes : Z) : result Z :=
  match range with
  | [] => Ok line_start_bytes
  | i :: range' =>
    if i <? len lines then
      l ← py_index lines i;
      bs ← str_encode_utf8 l;
      line_start_loop lines range' (line_start_bytes + (len bs + 1))
    else line_start_loop lines range' line_start_bytes
  end.

(** The loop over the characters of the target line; [break] returns the
    bytes accumulated so far. *)
Fixpoint column_loop (target_line : text) (character_utf16 : Z)
    (utf16_count byte_offset_in_line : Z) : result Z :=
  match target_line with
  | [] => Ok byte_offset_in_line
  | char :: rest =>
    if character_utf16 <=? utf16_count then Ok byte_offset_in_line
    else
      u ← str_encode_utf16le [char];
      b ← str_encode_utf8 [char];
      column_loop rest character_utf16
        (utf16_count + len u / 2) (byte_offset_in_line + len b)
  end.

Definition lsp_position_to_byte_offset (content : text)
    (line character_utf16 : Z) : result Z :=
  let lines := str_split_nl content in
  if len lines <=? line then
    bs ← str_encode_utf8 content; Ok (len bs)
  else
    line_start_bytes ← line_start_loop lines (seqZ 0 line) 0;
    target_line ← py_index lines line;
    byte_offset_in_line ← column_loop target_line character_utf16 0 0;
    Ok (line_start_bytes + byte_offset_in_line).

(** The loop [for line_num, line in enumerate(lines)]; [None] when it runs
    to its end without returning. *)
Fixpoint line_loop (lines : list text) (line_num : Z)
    (byte_offset current_byte : Z) : result (option (Z * Z)) :=
  match lines with
  | [] => Ok None
  | line :: rest =>
    bs ← str_encode_utf8 line;
    let line_bytes := len bs in
    if byte_offset <=? current_byte + line_bytes then
      let byte_in_line := byte_offset - current_byte in
      bs' ← str_encode_utf8 line;
      let line_prefix := bytes_decode_utf8_ignore (py_slice_to bs' byte_in_line) in
      u ← str_encode_utf16le line_prefix;
      Ok (Some (line_num, len u / 2))
    else line_loop rest (line_num + 1) byte_offset (current_byte + (line_bytes + 1))
  end.

Definition byte_offset_to_lsp_position (content : text) (byte_offset : Z)
  : result (Z * Z) :=
  content_bytes ← str_encode_utf8 content;
  if len content_bytes <=? byte_offset then
    let lines := str_split_nl content in
    last_line ← (if bool_decide (lines = []) then Ok [] else py_index lines (-1));
    u ← str_encode_utf16le last_line;
    Ok (len lines - 1, len u / 2)
  else
    let lines := str_split_nl content in
    found ← line_loop lines 0 byte_offset 0;
    match found with
    | Some pos => Ok pos
    | None => Ok (len lines - 1, 0)
    end.


(** Lengths of the two encodings, and the buffer rebuilt from its lines;
    the vocabulary of the statements about the codec. *)
Definition utf8_len (s : text) : Z := len (flat_map utf8_encode_char s).

Definition utf16_units (s : text) : Z := len (flat_map utf16le_encode_char s) / 2.

Fixpoint join_nl (ls : list text) : text :=
  match ls with
  | [] => []
  | l :: ls' =>
    match ls' with
    | [] => l
    | _ :: _ => l ++ newline :: join_nl ls'
    end
  end.

(** Byte offset at which line [i] of [lines] starts. *)
Definition line_start (lines : list text) (i : nat) : Z :=
  foldr (fun l acc => utf8_len l + 1 + acc) 0 (take i lines).

(** [b] is the byte offset at which some character of [content] starts, or
    the end of the buffer. *)
Definition char_boundary (content : text) (b : Z) : Prop :=
  exists k : nat, (k <= length content)%nat /\ b = utf8_len (take k content).

(** The same on the bytes of the buffer: an offset inside the buffer is a
    boundary when the byte at it is not a continuation byte. *)
Definition is_char_boundary (bytes : list Z) (b : Z) : bool :=
  (0 <=? b)
  && ((b =? len bytes)
      || match bytes !! Z.to_nat b with
         | Some x => negb (is_continuation x)
         | None => false
         end).

End Codec.


(** ** Python values of the parsed artifact *)

Module Py.

#[local] Set Warnings "-register-all".

(** What [json.load] produces (numbers with a fraction or an exponent apart).
    The keys of a [JDict] are pairwise distinct, in insertion order. *)
Inductive json : Type :=
  | JNull
  | JBool (b : bool)
  | JInt (n : Z)
  | JStr (s : string)
  | JList (items : list json)
  | JDict (kvs : list (string * json)).

(** Truth value of a parsed value ([if x:]). *)
Definition truthy (x : json) : bool :=
  match x with
  | JNull => false
  | JBool b => b
  | JInt n => negb (n =? 0)
  | JStr s => negb (bool_decide (s = ""))
  | JList items => negb (bool_decide (length items = 0%nat))
  | JDict kvs => negb (bool_decide (length kvs = 0%nat))
  end.

Definition is_none (x : json) : bool :=
  match x with JNull => true | _ => false end.

(** [isinstance(x, int)]; [bool] is a subclass of [int]. *)
Definition isinstance_int (x : json) : bool :=
  match x with JInt _ | JBool _ => true | _ => false end.

Definition isinstance_dict (x : json) : bool :=
  match x with JDict _ => true | _ => false end.

Fixpoint assoc {V} (k : string) (kvs : list (string * V)) : option V :=
  match kvs with
  | [] => None
  | (k', v) :: kvs' => if bool_decide (k' = k) then Some v else assoc k kvs'
  end.

(** [k in d] on the items of a dict. *)
Definition contains {V} (k : string) (kvs : list (string * V)) : bool :=
  match assoc k kvs with Some _ => true | None => false end.

(** [d.get(k, default)]; only a dict has the method. *)
Definition get (d : json) (k : string) (default : json) : result json :=
  match d with
  | JDict kvs => Ok (match assoc k kvs with Some v => v | None => default end)
  | _ => Raise AttributeError
  end.

(** [for x in v]: the elements of a list, the keys of a dict, the characters
    of a string. *)
Definition iter (v : json) : result (list json) :=
  match v with
  | JList items => Ok items
  | JDict kvs => Ok (map (fun kv => JStr (fst kv)) kvs)
  | JStr s =>
    Ok (map (fun c => JStr (String c EmptyString)) (String.list_ascii_of_string s))
  | _ => Raise TypeError
  end.

(** [d.items()] *)
Definition items (v : json) : result (list (string * json)) :=
  match v with
  | JDict kvs => Ok kvs
  | _ => Raise AttributeError
  end.

(** [d[k] = v] on a dict kept in insertion order. *)
Fixpoint dict_set {K V} `{EqDecision K} (k : K) (v : V) (d : list (K * V))
  : list (K * V) :=
  match d with
  | [] => [(k, v)]
  | (k', v') :: d' =>
    if bool_decide (k' = k) then (k, v) :: d' else (k', v') :: dict_set k v d'
  end.

(** Hashable values, up to the equality of dict keys: [True] is [1]. *)
Inductive key : Set :=
  | KNone
  | KInt (n : Z)
  | KStr (s : string).

Global Instance key_eq_dec : EqDecision key.
Proof. solve_decision. Defined.

Global Instance key_countable : Countable key.
Proof.
  refine (inj_countable'
    (fun k => match k with
              | KNone => inl ()
              | KInt n => inr (inl n)
              | KStr s => inr (inr s)
              end)
    (fun x => match x with
              | inl _ => KNone
              | inr (inl n) => KInt n
              | inr (inr s) => KStr s
              end) _).
  intros []; reflexivity.
Defined.

(** The key under which a value is stored in a dict; lists and dicts are
    unhashable. *)
Definition hash_key (x : json) : result key :=
  match x with
  | JNull => Ok KNone
  | JBool b => Ok (KInt (if b then 1 else 0))
  | JInt n => Ok (KInt n)
  | JStr s => Ok (KStr s)
  | JList _ | JDict _ => Raise TypeError
  end.

(** *** Strings *)

Definition chars (s : string) : list ascii := String.list_ascii_of_string s.
Definition of_chars (cs : list ascii) : string := String.string_of_list_ascii cs.

Definition code (c : ascii) : Z := Z.of_N (N_of_ascii c).

Definition is_digit (c : ascii) : bool := (48 <=? code c) && (code c <=? 57).

Definition digit_value (c : ascii) : Z := code c - 48.

(** The white space [int()] strips: the ASCII white space of the C locale,
    and the two white-space characters of the upper half. *)
Definition is_int_space (c : ascii) : bool :=
  let n := code c in
  ((9 <=? n) && (n <=? 13)) || (n =? 32) || (n =? 0x85) || (n =? 0xA0).

(** [s.split(sep)] for a one-character separator. *)
Fixpoint split_chars (sep : ascii) (s : list ascii) : list (list ascii) :=
  match s with
  | [] => [[]]
  | c :: s' =>
    if bool_decide (c = sep) then [] :: split_chars sep s'
    else match split_chars sep s' with
         | p :: ps => (c :: p) :: ps
         | [] => [[c]]
         end
  end.

Definition str_split (s : string) (sep : ascii) : list string :=
  map of_chars (split_chars sep (chars s)).

Fixpoint starts_with (p s : list ascii) : bool :=
  match p, s with
  | [], _ => true
  | a :: p', b :: s' => bool_decide (a = b) && starts_with p' s'
  | _ :: _, [] => false
  end.

(** [s.endswith(suffix)] *)
Definition str_endswith (s suffix : string) : bool :=
  let cs := chars s in
  let suf := chars suffix in
  (length suf <=? length cs)%nat
  && bool_decide (drop (length cs - length suf) cs = suf).

Fixpoint replace_loop (old new : list ascii) (skip : nat) (s : list ascii)
  : list ascii :=
  match s with
  | [] => []
  | c :: s' =>
    match skip with
    | S k => replace_loop old new k s'
    | O =>
      if starts_with old s then new ++ replace_loop old new (length old - 1) s'
      else c :: replace_loop old new 0 s'
    end
  end.

(** [s.replace(old, new)] for a non-empty [old]: the occurrences are found
    from the left and do not overlap. *)
Definition str_replace (s old new : string) : string :=
  of_chars (replace_loop (chars old) (chars new) 0 (chars s)).

(** [s.lower()] on code points below 256. *)
Definition lower_char (c : ascii) : ascii :=
  let n := code c in
  if ((65 <=? n) && (n <=? 90))
     || ((0xC0 <=? n) && (n <=? 0xDE) && negb (n =? 0xD7))
  then ascii_of_N (Z.to_N (n + 32))
  else c.

Definition str_lower (s : string) : string := of_chars (map lower_char (chars s)).

(** The digits of a decimal literal, single underscores allowed between
    them; returns the value and what follows the literal. *)
Fixpoint int_digits (cs : list ascii) (acc : Z) (after_underscore : bool)
  : option (Z * list ascii) :=
  match cs with
  | [] => if after_underscore then None else Some (acc, [])
  | c :: cs' =>
    if is_digit c then int_digits cs' (acc * 10 + digit_value c) false
    else if bool_decide (c = "_"%char) then
      if after_underscore then None else int_digits cs' acc true
    else if after_underscore then None else Some (acc, cs)
  end.

Fixpoint strip_left (cs : list ascii) : list ascii :=
  match cs with
  | c :: cs' => if is_int_space c then strip_left cs' else cs
  | [] => []
  end.

(** [int(s)] on a string: white space, a sign, decimal digits, white space.
    (The interpreter's cap on the number of digits is not part of the
    model.) *)
Definition int_of_str (s : string) : result Z :=
  let cs := strip_left (chars s) in
  let '(sign, cs) :=
    match cs with
    | c :: cs' =>
      if bool_decide (c = "-"%char) then (-1, cs')
      else if bool_decide (c = "+"%char) then (1, cs')
      else (1, cs)
    | [] => (1, cs)
    end in
  match cs with
  | c :: _ =>
    if is_digit c then
      match int_digits cs 0 false with
      | Some (n, rest) =>
        match strip_left rest with
        | [] => Ok (sign * n)
        | _ :: _ => Raise ValueError
        end
      | None => Raise ValueError
      end
    else Raise ValueError
  | [] => Raise ValueError
  end.

Fixpoint take_digits (cs : list ascii) : list ascii :=
  match cs with
  | c :: cs' => if is_digit c then c :: take_digits cs' else []
  | [] => []
  end.

(** [re.search(r"\$(\d+)", s)]: group 1 of the leftmost match. *)
Fixpoint search_dollar_digits (cs : list ascii) : option (list ascii) :=
  match cs with
  | [] => None
  | c :: cs' =>
    if bool_decide (c = "$"%char)
       && match cs' with d :: _ => is_digit d | [] => false end
    then Some (take_digits cs')
    else search_dollar_digits cs'
  end.

Definition re_search_dollar_digits (s : string) : option string :=
  option_map of_chars (search_dollar_digits (chars s)).

(** A [for] loop over a list that threads a state and stops at the first
    exception. *)
Definition for_each {A S} (body : A -> S -> result S)
  : list A -> S -> result S :=
  fix go (l : list A) (s : S) : result S :=
    match l with
    | [] => Ok s
    | a :: l' => s' ← body a s; go l' s'
    end.

(** [list.sort(key=...)]: stable; an element goes in front of the first one
    whose key is not smaller. *)
Fixpoint sort_insert {A} (lt : A -> A -> bool) (x : A) (l : list A) : list A :=
  match l with
  | [] => [x]
  | y :: l' => if lt y x then y :: sort_insert lt x l' else x :: y :: l'
  end.

Definition sort_by_key {A K} (key : A -> K) (lt : K -> K -> bool) (l : list A)
  : list A :=
  foldr (sort_insert (fun a b => lt (key a) (key b))) [] l.

(** [a] may stand before [b] in a list sorted by [lt]. *)
Definition not_after {A} (lt : A -> A -> bool) (a b : A) : Prop := lt b a = false.

(** [<] on pairs of integers. *)
Definition pair_lt (a b : Z * Z) : bool :=
  (a.1 <? b.1) || ((a.1 =? b.1) && (a.2 <? b.2)).

End Py.

Import Py.

(** ** The spatial index *)

(** Spatial index entry for AST nodes.  [node_id] is the dict key of the
    node's [id]; [node_data] is the node itself. *)
Record AstNodeIndex : Type := mkAstNodeIndex {
  node_id : key;
  file_id : Z;
  start_byte : Z;
  end_byte : Z;
  node_type : json;
  node_data : json;
  depth : Z
}.

Record PositionIndex : Type := mkPositionIndex {
  file_nodes : gmap Z (list AstNodeIndex);
  node_by_id : gmap key AstNodeIndex;
  file_id_to_path : list (Z * string)
}.

Definition empty_index : PositionIndex :=
  {| file_nodes := ∅; node_by_id := ∅; file_id_to_path := [] |}.

Definition add_node (self : PositionIndex) (node_index : AstNodeIndex)
  : PositionIndex :=
  let file_id := node_index.(file_id) in
  let file_nodes :=
    match self.(file_nodes) !! file_id with
    | Some _ => self.(file_nodes)
    | None => <[file_id := []]> self.(file_nodes)
    end in
  let file_nodes :=
    <[file_id := default [] (file_nodes !! file_id) ++ [node_index]]> file_nodes in
  {| file_nodes := file_nodes;
     node_by_id := <[node_index.(node_id) := node_index]> self.(node_by_id);
     file_id_to_path := self.(file_id_to_path) |}.

Definition finalize_index (self : PositionIndex) : PositionIndex :=
  {| file_nodes :=
       sort_by_key (fun x => (x.(start_byte), - x.(depth))) pair_lt
         <$> self.(file_nodes);
     node_by_id := self.(node_by_id);
     file_id_to_path := self.(file_id_to_path) |}.

Definition contains_offset (byte_offset : Z) (node : AstNodeIndex) : bool :=
  (node.(start_byte) <=? byte_offset) && (byte_offset <? node.(end_byte)).

Definition find_nodes_at_position (self : PositionIndex)
    (file_id byte_offset : Z) : list AstNodeIndex :=
  match self.(file_nodes) !! file_id with
  | None => []
  | Some nodes =>
    let containing_nodes := List.filter (contains_offset byte_offset) nodes in
    sort_by_key (fun x => - x.(depth)) Z.ltb containing_nodes
  end.

Definition find_innermost_node (self : PositionIndex)
    (file_id byte_offset : Z) : option AstNodeIndex :=
  let nodes := find_nodes_at_position self file_id byte_offset in
  match nodes with
  | node :: _ => Some node
  | [] => None
  end.

(** An entry of file 6 that covers 20 bytes, for the examples. *)
Definition sample_entry (id start depth : Z) : AstNodeIndex :=
  {| node_id := KInt id; file_id := 6; start_byte := start;
     end_byte := start + 20; node_type := JStr "Block"; node_data := JDict [];
     depth := depth |}.

(** The order in which [finalize_index] leaves a bucket. *)
Definition start_then_depth (a b : AstNodeIndex) : Prop :=
  a.(start_byte) <= b.(start_byte) /\
  (a.(start_byte) = b.(start_byte) -> b.(depth) <= a.(depth)).

(** The order in which [find_nodes_at_position] returns the nodes. *)
Definition deeper_first (a b : AstNodeIndex) : Prop := b.(depth) <= a.(depth).

(** ** The indexer *)

(** Parse Solidity AST src format 'start:length:file_id'. *)
Definition parse_src (src : string) : result (option (Z * Z * Z)) :=
  try_except
    (let parts := str_split src ":"%char in
     if negb (len parts =? 3) then Ok None
     else
       p0 ← py_index parts 0; start ← int_of_str p0;
       p1 ← py_index parts 1; length ← int_of_str p1;
       p2 ← py_index parts 2; file_id ← int_of_str p2;
       Ok (Some (start, length, file_id)))
    [ValueError; IndexError] None.

Definition child_list_keys : list string :=
  ["nodes"; "body"; "statements"; "members"; "parameters"; "declarations";
   "symbolAliases"; "arguments"; "assignments"; "baseContracts"; "modifiers"].

Definition single_child_keys : list string :=
  ["expression"; "leftExpression"; "leftHandSide"; "rightExpression";
   "rightHandSide"; "value"; "typeName"; "baseExpression"; "parameters";
   "baseName"; "parameterTypes"; "returnParameterTypes"].

(** The first half of [_index_ast_nodes]: the entry of the node itself. *)
Definition index_current_node (kvs : list (string * json)) (depth : Z)
    (self : PositionIndex) : result PositionIndex :=
  if contains "src" kvs && contains "id" kvs then
    src_info ←
      match assoc "src" kvs with
      | Some (JStr src) => parse_src src
      | _ => Raise AttributeError
      end;
    match src_info with
    | Some (start, length, node_file_id) =>
      id ← hash_key (default JNull (assoc "id" kvs));
      Ok (add_node self
            {| node_id := id;
               file_id := node_file_id;
               start_byte := start;
               end_byte := start + length;
               node_type := default (JStr "Unknown") (assoc "nodeType" kvs);
               node_data := JDict kvs;
               depth := depth |})
    | None => Ok self
    end
  else Ok self.

(** One turn of the loop [for key, value in node.items()], the recursive
    call being [visit]. *)
Definition index_child (visit : json -> PositionIndex -> result PositionIndex)
    (key : string) (value : json) (self : PositionIndex)
  : result PositionIndex :=
  if bool_decide (key ∈ child_list_keys) then
    match value with
    | JList children => for_each visit children self
    | _ => Ok self
    end
  else if bool_decide (key ∈ single_child_keys) then
    match value with
    | JDict _ => visit value self
    | _ => Ok self
    end
  else
    match value with
    | JDict vkvs => if contains "nodeType" vkvs then visit value self else Ok self
    | _ => Ok self
    end.

(** Recursively index AST nodes. *)
Fixpoint _index_ast_nodes (node : json) (file_id depth : Z)
    (self : PositionIndex) {struct node} : result PositionIndex :=
  match node with
  | JDict kvs =>
    self ← index_current_node kvs depth self;
    for_each
      (fun kv self =>
         index_child (fun child self => _index_ast_nodes child file_id (depth + 1) self)
           kv.1 kv.2 self)
      kvs self
  | _ => Ok self
  end.

(** The vocabulary of the statements about the walk. *)

(** The node gets no entry of its own: it has no [id], no [src], or a [src]
    string that [parse_src] rejects. *)
Definition unindexable (kvs : list (string * json)) : Prop :=
  contains "id" kvs = false \/ contains "src" kvs = false \/
  exists src, assoc "src" kvs = Some (JStr src) /\ parse_src src = Ok None.

(** The three recursion rules: the turn of the loop for [(key, value)] calls
    the walk on [child]. *)
Definition recursed_child (key : string) (value child : json) : Prop :=
  if bool_decide (key ∈ child_list_keys) then
    exists children, value = JList children /\ child ∈ children
  else if bool_decide (key ∈ single_child_keys) then
    value = child /\ isinstance_dict child = true
  else
    value = child /\
    exists vkvs, child = JDict vkvs /\ contains "nodeType" vkvs = true.

(** [visited node depth c d]: the walk started on [node] at [depth] calls
    itself on [c] at depth [d]. *)
Inductive visited (node : json) (depth : Z) : json -> Z -> Prop :=
  | visited_here : visited node depth node depth
  | visited_below kvs key value child c d :
      node = JDict kvs ->
      (key, value) ∈ kvs ->
      recursed_child key value child ->
      visited child (depth + 1) c d ->
      visited node depth c d.

(** The entries indexed for a file. *)
Definition bucket (self : PositionIndex) (file_id : Z) : list AstNodeIndex :=
  default [] (self.(file_nodes) !! file_id).

(** Entries are only ever added. *)
Definition index_le (self self' : PositionIndex) : Prop :=
  forall f e, e ∈ bucket self f -> e ∈ bucket self' f.

Definition walk_le (node : json) : Prop :=
  forall fid depth s s',
    _index_ast_nodes node fid depth s = Ok s' -> index_le s s'.

(** ** The artifact model and the loader *)

Inductive Severity : Set := Severity_WARNING | Severity_ERROR.

Inductive ErrorType : Set := ErrorType_WARNING | ErrorType_ERROR.

Record SourceLocation : Type := mkSourceLocation {
  file : json;
  start : json;
  end_ : json
}.

Record Errors : Type := mkErrors {
  source_location : SourceLocation;
  error_type : ErrorType;
  error_code : json;
  severity : Severity;
  message : json
}.

Record SourceFile : Type := mkSourceFile {
  id : json;
  ast : json
}.

(** What the loader stores as [File.source_file]: a [SourceFile], or the
    unparsed [source_file] value of the record. *)
Inductive source_file_value : Type :=
  | Parsed (s : SourceFile)
  | Unparsed (s : json).

Record File : Type := mkFile {
  source_file : source_file_value;
  verison : json;
  build_id : json;
  profile : json
}.

Record BuildInfo : Type := mkBuildInfo {
  info_id : json;
  source_id_to_path : list (key * json);
  language : json
}.

Record Root : Type := mkRoot {
  sources : list (string * list (option File));
  errors : list Errors;
  build_infos : list BuildInfo;
  position_index : PositionIndex
}.

Definition empty_root : Root :=
  {| sources := []; errors := []; build_infos := [];
     position_index := empty_index |}.

(** One element of the sequence given to [dict(...)]: a sequence of length
    two. *)
Definition dict_item (item : json) : result (key * json) :=
  elems ← iter item;
  match elems with
  | [k; v] => k' ← hash_key k; Ok (k', v)
  | _ => Raise ValueError
  end.

(** [dict(x)]: a copy of a mapping, or the mapping of a sequence of pairs. *)
Definition dict_of (x : json) : result (list (key * json)) :=
  match x with
  | JDict kvs => Ok (map (fun kv => (KStr kv.1, kv.2)) kvs)
  | _ =>
    elems ← iter x;
    for_each (fun item d => kv ← dict_item item; Ok (dict_set kv.1 kv.2 d))
      elems []
  end.

(** Body of [for file in files]. *)
Definition load_file (file_ : json) (source : list (option File))
  : result (list (option File)) :=
  version ← get file_ "version" JNull;
  build_id ← get file_ "build_id" JNull;
  profile ← get file_ "profile" JNull;
  s ← get file_ "source_file" JNull;
  if truthy s then
    id ← get s "id" JNull;
    ast ← get s "ast" JNull;
    let s :=
      if isinstance_int id && truthy ast then Parsed (mkSourceFile id ast)
      else Unparsed s in
    let f :=
      if truthy version && truthy build_id && truthy profile
      then Some (mkFile s version build_id profile)
      else None in
    Ok (source ++ [f])
  else Ok source.

(** Body of [for filename, files in _sources.items()]. *)
Definition load_source (filename : string) (files : json)
    (sources : list (string * list (option File)))
  : result (list (string * list (option File))) :=
  files ← iter files;
  source ← for_each load_file files [];
  Ok (dict_set filename source sources).

Definition parse_kind {A} (warning error : A) (x : json) : result (option A) :=
  match x with
  | JNull => Ok None
  | JStr s =>
    if bool_decide (str_lower s = "warning") then Ok (Some warning)
    else if bool_decide (str_lower s = "error") then Ok (Some error)
    else Ok None
  | _ => Raise AttributeError
  end.

(** The block [if _sourceLocation: ...] of the loop over the errors. *)
Definition load_source_location (_sourceLocation : json)
  : result (option SourceLocation) :=
  if truthy _sourceLocation then
    _file ← get _sourceLocation "file" JNull;
    _start ← get _sourceLocation "start" JNull;
    _end ← get _sourceLocation "end" JNull;
    if negb (is_none _file) && negb (is_none _start) && negb (is_none _end)
    then Ok (Some (mkSourceLocation _file _start _end))
    else Ok None
  else Ok None.

(** Body of [for error in _errors]. *)
Definition load_error (error : json) (errors : list Errors)
  : result (list Errors) :=
  _sourceLocation ← get error "sourceLocation" JNull;
  _type ← get error "type" JNull;
  _errorCode ← get error "errorCode" JNull;
  _message ← get error "message" JNull;
  _severity ← get error "severity" JNull;
  sourceLocation ← load_source_location _sourceLocation;
  error_type ← parse_kind ErrorType_WARNING ErrorType_ERROR _type;
  let error_code := _errorCode in
  severity ← parse_kind Severity_WARNING Severity_ERROR _severity;
  let message := _message in
  match sourceLocation, error_type, severity with
  | Some sourceLocation, Some error_type, Some severity =>
    if truthy error_code && truthy message then
      Ok (errors ++ [mkErrors sourceLocation error_type error_code severity message])
    else Ok errors
  | _, _, _ => Ok errors
  end.

(** Body of [for info in _build_infos]. *)
Definition load_build_info (info : json) (build_infos : list BuildInfo)
  : result (list BuildInfo) :=
  _id ← get info "id" JNull;
  _source_map ← get info "source_id_to_path" JNull;
  _language ← get info "language" JNull;
  if truthy _id && truthy _source_map && truthy _language then
    source_map ← dict_of _source_map;
    Ok (build_infos ++ [mkBuildInfo _id source_map _language])
  else Ok build_infos.

(** [Root._initialize], on the parsed artifact [data]. *)
Definition _initialize (data : json) (self : Root) : result Root :=
  _sources ← get data "sources" JNull;
  _errors ← get data "errors" JNull;
  _build_infos ← get data "build_infos" JNull;
  sources ←
    (if truthy _sources then
       kvs ← items _sources;
       for_each (fun kv => load_source kv.1 kv.2) kvs self.(sources)
     else Ok self.(sources));
  errors ←
    (if truthy _errors then
       es ← iter _errors; for_each load_error es self.(errors)
     else Ok self.(errors));
  build_infos ←
    (if truthy _build_infos then
       infos ← iter _build_infos; for_each load_build_info infos self.(build_infos)
     else Ok self.(build_infos));
  Ok {| sources := sources; errors := errors; build_infos := build_infos;
        position_index := self.(position_index) |}.

(** ** The records the loader keeps

    The policy of the loader, record by record, as pure functions: what each
    record of the artifact contributes to its collection.  A subfield is
    present when it has a true value (not null, zero, false or empty). *)

(** The elements of an array of records; none when the value holds none. *)
Definition records (v : json) : list json :=
  match iter v with
  | Ok l => l
  | Raise _ => []
  end.

Definition field (kvs : list (string * json)) (k : string) : json :=
  default JNull (assoc k kvs).

Definition present (x : json) : option json :=
  if truthy x then Some x else None.

Definition location_of (x : json) : option SourceLocation :=
  match x with
  | JDict kvs =>
    if is_none (field kvs "file") || is_none (field kvs "start")
       || is_none (field kvs "end")
    then None
    else Some (mkSourceLocation (field kvs "file") (field kvs "start")
                 (field kvs "end"))
  | _ => None
  end.

Definition kind_of {A} (warning error : A) (x : json) : option A :=
  match x with
  | JStr s =>
    if bool_decide (str_lower s = "warning") then Some warning
    else if bool_decide (str_lower s = "error") then Some error
    else None
  | _ => None
  end.

(** The diagnostic of a record with all five subfields; none otherwise. *)
Definition diagnostic_of (error : json) : option Errors :=
  match error with
  | JDict kvs =>
    sourceLocation ← location_of (field kvs "sourceLocation");
    error_type ← kind_of ErrorType_WARNING ErrorType_ERROR (field kvs "type");
    error_code ← present (field kvs "errorCode");
    severity ← kind_of Severity_WARNING Severity_ERROR (field kvs "severity");
    message ← present (field kvs "message");
    Some (mkErrors sourceLocation error_type error_code severity message)
  | _ => None
  end.

(** The build info of a record with all three subfields; none otherwise. *)
Definition build_info_of (info : json) : option BuildInfo :=
  match info with
  | JDict kvs =>
    _id ← present (field kvs "id");
    _source_map ← present (field kvs "source_id_to_path");
    _language ← present (field kvs "language");
    match dict_of _source_map with
    | Ok source_map => Some (mkBuildInfo _id source_map _language)
    | Raise _ => None
    end
  | _ => None
  end.

(** The [source_file] of the record is absent, or has an integer [id] and
    an [ast]. *)
Definition source_file_shaped (file_ : json) : bool :=
  match file_ with
  | JDict kvs =>
    match present (field kvs "source_file") with
    | Some (JDict skvs) =>
      isinstance_int (field skvs "id") && truthy (field skvs "ast")
    | Some _ => false
    | None => true
    end
  | _ => false
  end.

(** What a compiled-file record leaves in the list of its file name:
    nothing without a [source_file]; the file when [version], [build_id] and
    [profile] are present too; otherwise a [None] placeholder. *)
Definition compiled_file_of (file_ : json) : option (option File) :=
  match file_ with
  | JDict kvs =>
    match present (field kvs "source_file") with
    | Some (JDict skvs) =>
      if truthy (field kvs "version") && truthy (field kvs "build_id")
         && truthy (field kvs "profile")
      then Some (Some (mkFile
                   (Parsed (mkSourceFile (field skvs "id") (field skvs "ast")))
                   (field kvs "version") (field kvs "build_id")
                   (field kvs "profile")))
      else Some None
    | _ => None
    end
  | _ => None
  end.

(** The compiled files of an artifact: for each file name in turn, the
    list of what its records leave. *)
Definition sources_of (sources_json : json)
    (sources : list (string * list (option File)))
  : list (string * list (option File)) :=
  match sources_json with
  | JDict kvs =>
    foldl (fun acc kv => dict_set kv.1 (omap compiled_file_of (records kv.2)) acc)
      sources kvs
  | _ => sources
  end.

(** Every compiled-file record of the artifact has a shaped
    [source_file]. *)
Definition sources_shaped (sources_json : json) : Prop :=
  match sources_json with
  | JDict kvs =>
    Forall (fun kv => Forall (fun file_ => source_file_shaped file_ = true)
                        (records kv.2)) kvs
  | _ => True
  end.

(** ** The resolver *)

(** What [open(path, "r", encoding="utf-8")] and [read()] give for each
    path: the decoded content, or the exception raised. *)
Definition file_system : Type := string -> result Codec.text.

(** The loop that resolves a uri to the first matching file id. *)
Fixpoint match_uri (file_uri : string) (table : list (Z * string))
  : option Z :=
  match table with
  | [] => None
  | (fid, path) :: table' =>
    if str_endswith file_uri path
       || str_endswith path (str_replace file_uri "file://" "")
    then Some fid
    else match_uri file_uri table'
  end.

(** [d[k]] on a dict kept as an association list. *)
Definition dict_lookup {K V} `{EqDecision K} (d : list (K * V)) (k : K)
  : result V :=
  match list_find (fun kv => kv.1 = k) d with
  | Some (_, kv) => Ok kv.2
  | None => Raise KeyError
  end.

(** Find the innermost AST node at the given LSP position. *)
Definition find_node_at_position (fs : file_system) (self : Root)
    (file_uri : string) (line character : Z) : result (option AstNodeIndex) :=
  match match_uri file_uri self.(position_index).(file_id_to_path) with
  | None => Ok None
  | Some file_id =>
    try_except
      (file_path ← dict_lookup self.(position_index).(file_id_to_path) file_id;
       content ← fs file_path;
       byte_offset ← Codec.lsp_position_to_byte_offset content line character;
       Ok (find_innermost_node self.(position_index) file_id byte_offset))
      [FileNotFoundError; KeyError] None
  end.

(** Convert AST node to LSP location (file_uri, line, character). *)
Definition _node_to_location (fs : file_system) (self : Root)
    (node : AstNodeIndex) : result (option (string * Z * Z)) :=
  match list_find (fun kv => kv.1 = node.(file_id))
          self.(position_index).(file_id_to_path) with
  | None => Ok None
  | Some (_, (_, file_path)) =>
    try_except
      (content ← fs file_path;
       pos ← Codec.byte_offset_to_lsp_position content node.(start_byte);
       Ok (Some ("file://" +:+ file_path, pos.1, pos.2)))
      [FileNotFoundError] None
  end.

(** Get the declaration location for a node (file_uri, line, character). *)
Definition get_declaration_location (fs : file_system) (self : Root)
    (node : AstNodeIndex) : result (option (string * Z * Z)) :=
  referenced_id ← get node.(node_data) "referencedDeclaration" JNull;
  referenced ←
    (if truthy referenced_id then
       k ← hash_key referenced_id;
       Ok (self.(position_index).(node_by_id) !! k)
     else Ok None);
  match referenced with
  | Some target_node => _node_to_location fs self target_node
  | None =>
    type_desc ← get node.(node_data) "typeDescriptions" (JDict []);
    type_id ← get type_desc "typeIdentifier" (JStr "");
    match type_id with
    | JStr type_id =>
      match re_search_dollar_digits type_id with
      | Some group =>
        target_id ← int_of_str group;
        match self.(position_index).(node_by_id) !! KInt target_id with
        | Some target_node => _node_to_location fs self target_node
        | None => Ok None
        end
      | None => Ok None
      end
    | _ => Raise TypeError
    end
  end.

(** ** Sample data for the examples *)

(** One source file, [/p/C.sol], under file id 6. *)
Definition sample_text : Codec.text :=
  [99; 111; 110; 116; 114; 97; 99; 116; 32; 67; 10; 123; 125; 10].

Definition sample_fs : file_system :=
  fun path => if bool_decide (path = "/p/C.sol") then Ok sample_text
              else Raise FileNotFoundError.

(** The same file, present but not readable. *)
Definition locked_fs : file_system :=
  fun path => if bool_decide (path = "/p/C.sol") then Raise PermissionError
              else Raise FileNotFoundError.

Definition sample_index (entries : list AstNodeIndex) : PositionIndex :=
  finalize_index
    (foldl add_node
       {| file_nodes := ∅; node_by_id := ∅;
          file_id_to_path := [(6, "/p/C.sol")] |}
       entries).

Definition sample_root (entries : list AstNodeIndex) : Root :=
  {| sources := []; errors := []; build_infos := [];
     position_index := sample_index entries |}.

(** A use-site node with the given payload. *)
Definition sample_use (payload : list (string * json)) : AstNodeIndex :=
  {| node_id := KInt 900; file_id := 6; start_byte := 11; end_byte := 12;
     node_type := JStr "Identifier"; node_data := JDict payload; depth := 4 |}.

(** An artifact with one complete record of each kind and one incomplete
    one: a compiled file without [version], a diagnostic without [message],
    a build info without [language]. *)
Definition sample_source_file : json :=
  JDict [("id", JInt 6); ("ast", JDict [("nodeType", JStr "SourceUnit")])].

Definition sample_file_record (with_version : bool) : json :=
  JDict ((if with_version then [("version", JStr "0.8.30")] else [])
         ++ [("build_id", JStr "b1"); ("profile", JStr "default");
             ("source_file", sample_source_file)]).

Definition sample_error_record (with_message : bool) : json :=
  JDict ([("sourceLocation",
           JDict [("file", JStr "C.sol"); ("start", JInt 0); ("end", JInt 9)]);
          ("type", JStr "Warning"); ("errorCode", JStr "2072");
          ("severity", JStr "warning")]
         ++ (if with_message then [("message", JStr "Unused variable.")] else [])).

Definition sample_build_info (with_language : bool) : json :=
  JDict ([("id", JStr "b1");
          ("source_id_to_path", JDict [("6", JStr "/p/C.sol")])]
         ++ (if with_language then [("language", JStr "Solidity")] else [])).

Definition sample_artifact : list (string * json) :=
  [("sources",
    JDict [("C.sol", JList [sample_file_record true; sample_file_record false])]);
   ("errors", JList [sample_error_record false; sample_error_record true]);
   ("build_infos", JList [sample_build_info true; sample_build_info false])].

Definition sample_loaded : Root :=
  {| sources :=
       [("C.sol",
         [Some {| source_file :=
                    Parsed {| id := JInt 6;
                              ast := JDict [("nodeType", JStr "SourceUnit")] |};
                  verison := JStr "0.8.30"; build_id := JStr "b1";
                  profile := JStr "default" |};
          None])];
     errors :=
       [{| source_location :=
             {| file := JStr "C.sol"; start := JInt 0; end_ := JInt 9 |};
           error_type := ErrorType_WARNING; error_code := JStr "2072";
           severity := Severity_WARNING; message := JStr "Unused variable." |}];
     build_infos :=
       [{| info_id := JStr "b1";
           source_id_to_path := [(KStr "6", JStr "/p/C.sol")];
           language := JStr "Solidity" |}];
     position_index := empty_index |}.

(** A source unit whose [src] is malformed, with one contract below it. *)
Definition sample_contract : list (string * json) :=
  [("id", JInt 7); ("src", JStr "10:5:6"); ("nodeType", JStr "ContractDefinition")].

Definition sample_unit : list (string * json) :=
  [("id", JInt 1); ("src", JStr "oops"); ("nodeType", JStr "SourceUnit");
   ("nodes", JList [JDict sample_contract])].

(** ** Invariants of the index *)

(** The two dictionaries of the index agree: an id of [node_by_id] leads to
    an entry with that id which is in the bucket of its file, and an entry of
    a bucket belongs to the file of the bucket and has its id registered. *)
Definition index_consistent (self : PositionIndex) : Prop :=
  (forall k e, self.(node_by_id) !! k = Some e ->
     e.(node_id) = k /\ e ∈ bucket self e.(file_id)) /\
  (forall f e, e ∈ bucket self f ->
     e.(file_id) = f /\ is_Some (self.(node_by_id) !! e.(node_id))).

(** [e] is the entry that [_index_ast_nodes] builds for the node [kvs]
    met at [depth]. *)
Definition entry_describes (kvs : list (string * json)) (depth : Z)
    (e : AstNodeIndex) : Prop :=
  exists src start length node_file_id id,
    assoc "src" kvs = Some (JStr src) /\
    parse_src src = Ok (Some (start, length, node_file_id)) /\
    assoc "id" kvs = Some id /\
    hash_key id = Ok e.(node_id) /\
    e = {| node_id := e.(node_id); file_id := node_file_id;
           start_byte := start; end_byte := start + length;
           node_type := default (JStr "Unknown") (assoc "nodeType" kvs);
           node_data := JDict kvs; depth := depth |}.

(** [e] is the entry of a node that the walk started on [node] at [depth]
    reaches. *)
Definition added_by (node : json) (depth : Z) (e : AstNodeIndex) : Prop :=
  exists kvs d, visited node depth (JDict kvs) d /\ entry_describes kvs d e.

(** The walk does nothing but add entries of nodes it reaches. *)
Definition walk_traced (node : json) : Prop :=
  forall fid depth s s',
    _index_ast_nodes node fid depth s = Ok s' ->
    exists entries,
      s' = foldl add_node s entries /\ Forall (added_by node depth) entries.

(** Number of occurrences of a character in a string. *)
Definition count_char (c : ascii) (s : string) : nat :=
  length (List.filter (fun x => bool_decide (x = c)) (chars s)).

(** The test of the loop that resolves a uri: the uri ends with the path, or
    the path ends with the uri stripped of ["file://"]. *)
Definition uri_matches (file_uri path : string) : bool :=
  str_endswith file_uri path
  || str_endswith path (str_replace file_uri "file://" "").


(** No dollar sign of the text is followed by a digit. *)
Definition no_marker (cs : list ascii) : Prop :=
  forall p1 d p2, cs = p1 ++ "$"%char :: d :: p2 -> is_digit d = false.

(** The text does not start with a digit. *)
Definition no_digit_ahead (cs : list ascii) : Prop :=
  forall d cs', cs = d :: cs' -> is_digit d = false.

(** ** Building the index *)

(** The number that the [id] of a source file stands for, [True] being 1.
    The walk hands it down and never reads it. *)
Definition int_value (x : json) : Z :=
  match x with
  | JInt n => n
  | JBool b => if b then 1 else 0
  | _ => 0
  end.

(** Body of [for file in files] in [_build_position_index]: a placeholder
    and a false [source_file] are skipped; a [source_file] that was kept
    unparsed has no attribute [ast]. *)
Definition index_file (file_ : option File) (self : PositionIndex)
  : result PositionIndex :=
  match file_ with
  | None => Ok self
  | Some f =>
    match f.(source_file) with
    | Parsed s => _index_ast_nodes s.(ast) (int_value s.(id)) 0 self
    | Unparsed s => if truthy s then Raise AttributeError else Ok self
    end
  end.

(** The loop of [_build_position_index] over the sources, and the call of
    [finalize_index] that ends it. *)
Definition index_sources (sources : list (string * list (option File)))
    (self : PositionIndex) : result PositionIndex :=
  self ← for_each (fun kv self => for_each index_file kv.2 self) sources self;
  Ok (finalize_index self).

(** The compiled files that a table of sources keeps. *)
Definition kept_file (sources : list (string * list (option File)))
    (f : File) : Prop :=
  exists filename files, (filename, files) ∈ sources /\ Some f ∈ files.

(** What the loader leaves in a slot of a list of files. *)
Definition loaded_file (o : option File) : Prop :=
  match o with
  | None => True
  | Some f =>
    match f.(source_file) with
    | Parsed s => isinstance_int s.(id) = true /\ truthy s.(ast) = true
    | Unparsed s => truthy s = true
    end
  end.

Definition sources_loaded (sources : list (string * list (option File))) : Prop :=
  forall filename files, (filename, files) ∈ sources -> Forall loaded_file files.

(** [int(k)] on a key of a source map. *)
Definition int_of_key (k : key) : result Z :=
  match k with
  | KStr s => int_of_str s
  | KInt n => Ok n
  | KNone => Raise TypeError
  end.

(** Body of [for file_id_str, file_path in ...items()] in
    [_build_position_index], on the path table under construction: a key
    that [int] rejects is skipped. *)
Definition path_table_entry (kv : key * json) (table : list (Z * json))
  : result (list (Z * json)) :=
  try_except
    (file_id ← int_of_key kv.1;
     Ok (dict_set file_id kv.2 table))
    [ValueError] table.

(** The loop of [_build_position_index] over the build infos. *)
Definition path_table (build_infos : list BuildInfo) (table : list (Z * json))
  : result (list (Z * json)) :=
  for_each
    (fun build_info table =>
       for_each path_table_entry build_info.(source_id_to_path) table)
    build_infos table.

(** The pair names the file id: its key is read by [int] as that number. *)
Definition names_file (file_id : Z) (kv : key * json) : bool :=
  match int_of_key kv.1 with
  | Ok n => n =? file_id
  | Raise _ => false
  end.

(** A value with a method [lower], or [None]. *)
Definition str_or_none (x : json) : bool :=
  match x with
  | JNull | JStr _ => true
  | _ => false
  end.

(** ** A source file with nested nodes, for the examples

    A source unit with one contract that holds a function and a variable;
    the variable starts where the contract starts. *)
Definition sample_variable : list (string * json) :=
  [("id", JInt 8); ("src", JStr "10:3:6");
   ("nodeType", JStr "VariableDeclaration")].

Definition sample_function : list (string * json) :=
  [("id", JInt 9); ("src", JStr "2:3:6");
   ("nodeType", JStr "FunctionDefinition")].

Definition sample_contract_tree : list (string * json) :=
  [("id", JInt 7); ("src", JStr "10:5:6");
   ("nodeType", JStr "ContractDefinition");
   ("nodes", JList [JDict sample_variable; JDict sample_function])].

Definition sample_source_unit : list (string * json) :=
  [("id", JInt 1); ("src", JStr "0:40:6"); ("nodeType", JStr "SourceUnit");
   ("nodes", JList [JDict sample_contract_tree])].

(** The sources of a Root that keeps this file and one placeholder. *)
Definition sample_sources : list (string * list (option File)) :=
  [("C.sol",
    [Some {| source_file :=
               Parsed {| id := JInt 6; ast := JDict sample_source_unit |};
             verison := JStr "0.8.30"; build_id := JStr "b1";
             profile := JStr "default" |};
     None])].

(** The entries of its four nodes, in the order of the walk. *)
Definition sample_unit_entry : AstNodeIndex :=
  {| node_id := KInt 1; file_id := 6; start_byte := 0; end_byte := 40;
     node_type := JStr "SourceUnit"; node_data := JDict sample_source_unit;
     depth := 0 |}.

Definition sample_contract_entry : AstNodeIndex :=
  {| node_id := KInt 7; file_id := 6; start_byte := 10; end_byte := 15;
     node_type := JStr "ContractDefinition";
     node_data := JDict sample_contract_tree; depth := 1 |}.

Definition sample_variable_entry : AstNodeIndex :=
  {| node_id := KInt 8; file_id := 6; start_byte := 10; end_byte := 13;
     node_type := JStr "VariableDeclaration";
     node_data := JDict sample_variable; depth := 2 |}.

Definition sample_function_entry : AstNodeIndex :=
  {| node_id := KInt 9; file_id := 6; start_byte := 2; end_byte := 5;
     node_type := JStr "FunctionDefinition";
     node_data := JDict sample_function; depth := 2 |}.

(** The index built from these sources. *)
Definition sample_built : PositionIndex :=
  finalize_index
    (foldl add_node empty_index
       [sample_unit_entry; sample_contract_entry; sample_variable_entry;
        sample_function_entry]).


(** * The position codec *)

Section codec_facts.
Import Codec.

Lemma len_app {A} (l1 l2 : list A) : len (l1 ++ l2) = len l1 + len l2.
Proof. unfold len. rewrite length_app. lia. Qed.

Lemma len_nonneg {A} (l : list A) : 0 <= len l.
Proof. unfold len. lia. Qed.

Lemma len_cons {A} (x : A) (l : list A) : len (x :: l) = 1 + len l.
Proof. unfold len. simpl length. lia. Qed.

Lemma len_nil {A} : len (@nil A) = 0.
Proof. reflexivity. Qed.

Lemma is_scalar_spec c :
  is_scalar c = true <-> (0 <= c < 0x110000 /\ ~ (0xD800 <= c <= 0xDFFF)).
Proof.
  unfold is_scalar, is_surrogate.
  rewrite !andb_true_iff, negb_true_iff, andb_false_iff.
  rewrite !Z.leb_le, Z.ltb_lt, !Z.leb_gt. lia.
Qed.

Lemma utf8_text_nil : utf8_text [].
Proof. reflexivity. Qed.

Lemma utf8_text_cons c s :
  utf8_text (c :: s) <-> is_scalar c = true /\ utf8_text s.
Proof. unfold utf8_text. simpl. apply andb_true_iff. Qed.

Lemma utf8_text_app s1 s2 :
  utf8_text (s1 ++ s2) <-> utf8_text s1 /\ utf8_text s2.
Proof. unfold utf8_text. rewrite forallb_app. apply andb_true_iff. Qed.

Lemma utf8_text_take k s : utf8_text s -> utf8_text (take k s).
Proof.
  intros H. rewrite <- (take_drop k s) in H. apply utf8_text_app in H. tauto.
Qed.

Lemma utf8_text_no_surrogate s :
  utf8_text s -> existsb is_surrogate s = false.
Proof.
  induction s as [|c s IH]; [reflexivity|].
  rewrite utf8_text_cons. intros [Hc Hs]. simpl.
  rewrite (IH Hs), orb_false_r.
  unfold is_scalar in Hc. apply andb_true_iff in Hc as [_ Hc].
  now apply negb_true_iff.
Qed.

Lemma str_encode_utf8_ok s :
  utf8_text s -> str_encode_utf8 s = Ok (flat_map utf8_encode_char s).
Proof.
  intros H. unfold str_encode_utf8. now rewrite utf8_text_no_surrogate.
Qed.

Lemma str_encode_utf16le_ok s :
  utf8_text s -> str_encode_utf16le s = Ok (flat_map utf16le_encode_char s).
Proof.
  intros H. unfold str_encode_utf16le. now rewrite utf8_text_no_surrogate.
Qed.

Lemma utf8_len_nil : utf8_len [] = 0.
Proof. reflexivity. Qed.

Lemma utf8_len_app s1 s2 : utf8_len (s1 ++ s2) = utf8_len s1 + utf8_len s2.
Proof. unfold utf8_len. rewrite flat_map_app. apply len_app. Qed.

Lemma utf8_len_cons c s : utf8_len (c :: s) = utf8_len [c] + utf8_len s.
Proof. apply (utf8_len_app [c] s). Qed.

Lemma utf8_len_char c : 1 <= utf8_len [c] <= 4.
Proof.
  unfold utf8_len. simpl. rewrite app_nil_r. unfold utf8_encode_char.
  repeat case_match; unfold len; simpl; lia.
Qed.

Lemma utf8_len_newline : utf8_len [newline] = 1.
Proof. reflexivity. Qed.

Lemma utf8_len_nonneg s : 0 <= utf8_len s.
Proof. apply len_nonneg. Qed.

Lemma utf16_char_len c :
  len (utf16le_encode_char c) = 2 * (if c <? 0x10000 then 1 else 2).
Proof. unfold utf16le_encode_char. case_match; reflexivity. Qed.

Lemma utf16_len_even s :
  len (flat_map utf16le_encode_char s) = 2 * utf16_units s.
Proof.
  unfold utf16_units.
  assert (exists n, len (flat_map utf16le_encode_char s) = 2 * n) as [n Hn].
  { induction s as [|c s [n Hn]]; [exists 0; reflexivity|].
    simpl. rewrite len_app, Hn, utf16_char_len. eexists. symmetry.
    apply Z.mul_add_distr_l. }
  rewrite Hn. rewrite (Z.mul_comm 2 n), Z.div_mul by lia. lia.
Qed.

Lemma utf16_units_nil : utf16_units [] = 0.
Proof. reflexivity. Qed.

Lemma utf16_units_char c : utf16_units [c] = if c <? 0x10000 then 1 else 2.
Proof.
  unfold utf16_units. simpl. rewrite app_nil_r, utf16_char_len.
  rewrite Z.mul_comm, Z.div_mul by lia. reflexivity.
Qed.

Lemma utf16_units_app s1 s2 :
  utf16_units (s1 ++ s2) = utf16_units s1 + utf16_units s2.
Proof.
  pose proof (utf16_len_even (s1 ++ s2)) as H.
  rewrite flat_map_app, len_app, !utf16_len_even in H. lia.
Qed.

Lemma utf16_units_cons c s :
  utf16_units (c :: s) = utf16_units [c] + utf16_units s.
Proof. apply (utf16_units_app [c] s). Qed.

Lemma utf16_units_char_pos c : 1 <= utf16_units [c] <= 2.
Proof. rewrite utf16_units_char. case_match; lia. Qed.

Lemma utf16_units_nonneg s : 0 <= utf16_units s.
Proof.
  induction s as [|c s IH]; [rewrite utf16_units_nil; lia|].
  rewrite utf16_units_cons. pose proof (utf16_units_char_pos c). lia.
Qed.

(** Case analysis on the length of the encoding of a code point. *)
Ltac by_encoded_length :=
  unfold utf8_encode_char;
  repeat match goal with
  | |- context [if ?a <? ?b then _ else _] => destruct (Z.ltb_spec a b)
  end.

(** Arithmetic on the six-bit groups of a code point. *)
Ltac groups_lia := Z.div_mod_to_equations; lia.

(** Decoding undoes encoding, one character at a time. *)
Lemma decode_encode_char c rest :
  is_scalar c = true ->
  bytes_decode_utf8_ignore (utf8_encode_char c ++ rest)
  = c :: bytes_decode_utf8_ignore rest.
Proof.
  intros Hc. apply is_scalar_spec in Hc. by_encoded_length;
  cbn [bytes_decode_utf8_ignore app]; unfold is_continuation;
  repeat match goal with
  | |- context [?a <? ?b] =>
      destruct (Z.ltb_spec a b); try (exfalso; groups_lia)
  | |- context [?a <=? ?b] =>
      destruct (Z.leb_spec a b); try (exfalso; groups_lia)
  | |- context [?a =? ?b] =>
      destruct (Z.eqb_spec a b); try (exfalso; groups_lia)
  | |- _ => progress cbn [negb orb andb]
  end;
  try reflexivity;
  f_equal; groups_lia.
Qed.

Lemma decode_encode s :
  utf8_text s -> bytes_decode_utf8_ignore (flat_map utf8_encode_char s) = s.
Proof.
  induction s as [|c s IH]; [reflexivity|].
  rewrite utf8_text_cons. intros [Hc Hs]. simpl flat_map.
  rewrite decode_encode_char by assumption. now rewrite IH.
Qed.

(** Cutting the encoding of a line at the byte length of a prefix leaves the
    encoding of that prefix. *)
Lemma slice_encode_prefix k s :
  py_slice_to (flat_map utf8_encode_char s) (utf8_len (take k s))
  = flat_map utf8_encode_char (take k s).
Proof.
  unfold py_slice_to. pose proof (utf8_len_nonneg (take k s)) as Hn.
  destruct (Z.leb_spec 0 (utf8_len (take k s))); [|lia].
  assert (flat_map utf8_encode_char s
          = flat_map utf8_encode_char (take k s)
            ++ flat_map utf8_encode_char (drop k s)) as ->.
  { rewrite <- flat_map_app. now rewrite take_drop. }
  unfold utf8_len, len. rewrite Nat2Z.id. now rewrite take_app_length.
Qed.

(** [split] and the buffer: gluing the lines back with newlines gives the
    buffer, whatever the lines hold. *)
Lemma str_split_nl_nonempty s : str_split_nl s <> [].
Proof.
  destruct s as [|c s]; [discriminate|]. simpl.
  destruct (c =? newline); [discriminate|].
  destruct (str_split_nl s); discriminate.
Qed.

Lemma join_nl_cons l l' ls :
  join_nl (l :: l' :: ls) = l ++ newline :: join_nl (l' :: ls).
Proof. reflexivity. Qed.

Lemma join_split s : join_nl (str_split_nl s) = s.
Proof.
  induction s as [|c s IH]; [reflexivity|]. cbn [str_split_nl].
  pose proof (str_split_nl_nonempty s) as Hne.
  destruct (str_split_nl s) as [|l ls]; [congruence|].
  destruct (Z.eqb_spec c newline) as [->|Hc].
  - rewrite join_nl_cons, IH. reflexivity.
  - destruct ls as [|l' ls].
    + cbn [join_nl] in *. now rewrite IH.
    + rewrite join_nl_cons in *. rewrite <- IH. reflexivity.
Qed.

Lemma utf8_text_join ls :
  utf8_text (join_nl ls) -> Forall utf8_text ls.
Proof.
  induction ls as [|l ls IH]; [constructor|].
  destruct ls as [|l' ls].
  - simpl. intros H. repeat constructor. exact H.
  - rewrite join_nl_cons. intros H. apply utf8_text_app in H as [Hl H].
    apply utf8_text_cons in H as [_ H]. constructor; auto.
Qed.

Lemma utf8_text_split s : utf8_text s -> Forall utf8_text (str_split_nl s).
Proof. intros H. apply utf8_text_join. now rewrite join_split. Qed.

Lemma line_start_0 lines : line_start lines 0 = 0.
Proof. reflexivity. Qed.

Lemma line_start_S l lines i :
  line_start (l :: lines) (S i) = utf8_len l + 1 + line_start lines i.
Proof. reflexivity. Qed.

Lemma line_start_nonneg lines i : 0 <= line_start lines i.
Proof.
  revert i. induction lines as [|l ls IH]; intros [|i];
    try (unfold line_start; simpl; lia).
  rewrite line_start_S. pose proof (IH i). pose proof (utf8_len_nonneg l). lia.
Qed.

Lemma line_start_snoc lines i l :
  lines !! i = Some l ->
  line_start lines (S i) = line_start lines i + (utf8_len l + 1).
Proof.
  revert i. induction lines as [|l0 ls IH]; intros [|i] H; try discriminate.
  - simpl in H. injection H as ->. rewrite line_start_S, !line_start_0. lia.
  - simpl in H. rewrite !line_start_S, (IH i H). lia.
Qed.

(** The bytes of the buffer are the bytes of its lines and one byte for each
    newline between them. *)
Lemma utf8_len_join ls l :
  last ls = Some l ->
  utf8_len (join_nl ls) = line_start ls (length ls - 1) + utf8_len l.
Proof.
  induction ls as [|l0 ls IH]; [discriminate|].
  destruct ls as [|l1 ls].
  - simpl. intros [= ->]. rewrite line_start_0. lia.
  - intros H. rewrite join_nl_cons, utf8_len_app, utf8_len_cons.
    rewrite utf8_len_newline.
    change (last (l0 :: l1 :: ls)) with (last (l1 :: ls)) in H.
    rewrite (IH H).
    replace (length (l0 :: l1 :: ls) - 1)%nat with (S (length (l1 :: ls) - 1))
      by (simpl; lia).
    rewrite line_start_S. lia.
Qed.

Lemma bind_Ok {A B} (a : A) (f : A -> result B) : (Ok a ≫= f) = f a.
Proof. reflexivity. Qed.

Lemma py_index_nat {A} (l : list A) (i : nat) (x : A) :
  l !! i = Some x -> py_index l (Z.of_nat i) = Ok x.
Proof.
  intros H. unfold py_index.
  destruct (Z.ltb_spec (Z.of_nat i) 0); [lia|].
  destruct (Z.ltb_spec (Z.of_nat i) 0); [lia|].
  now rewrite Nat2Z.id, H.
Qed.

Lemma py_index_last {A} (l : list A) (x : A) :
  last l = Some x -> py_index l (-1) = Ok x.
Proof.
  intros H. rewrite last_lookup in H.
  assert (length l <> 0%nat) by (destruct l; [discriminate | simpl; lia]).
  unfold py_index. change (-1 <? 0) with true. cbv iota zeta. unfold len.
  destruct (Z.ltb_spec (Z.of_nat (length l) + -1) 0); [lia|].
  replace (Z.to_nat (Z.of_nat (length l) + -1)) with (pred (length l)) by lia.
  now rewrite H.
Qed.

Lemma line_start_loop_ok lines k j acc :
  Forall utf8_text lines -> (j + k <= length lines)%nat ->
  line_start_loop lines (seqZ (Z.of_nat j) (Z.of_nat k)) acc
  = Ok (acc + (line_start lines (j + k) - line_start lines j)).
Proof.
  intros Hv. revert j acc. induction k as [|k IH]; intros j acc Hjk.
  - simpl. f_equal. rewrite Nat.add_0_r. lia.
  - rewrite seqZ_cons by lia. cbn [line_start_loop].
    destruct (Z.ltb_spec (Z.of_nat j) (len lines)); [|unfold len in *; lia].
    destruct (lookup_lt_is_Some_2 lines j) as [l Hl]; [lia|].
    rewrite (py_index_nat _ _ _ Hl), bind_Ok.
    rewrite str_encode_utf8_ok, bind_Ok
      by (eapply Forall_lookup_1; eassumption).
    replace (Z.succ (Z.of_nat j)) with (Z.of_nat (S j)) by lia.
    replace (Z.pred (Z.of_nat (S k))) with (Z.of_nat k) by lia.
    rewrite IH by lia. f_equal.
    rewrite (line_start_snoc _ _ _ Hl).
    replace (S j + k)%nat with (j + S k)%nat by lia.
    fold (utf8_len l). lia.
Qed.

Lemma column_loop_char c rest col u0 b0 :
  is_scalar c = true -> u0 < col ->
  column_loop (c :: rest) col u0 b0
  = column_loop rest col (u0 + utf16_units [c]) (b0 + utf8_len [c]).
Proof.
  intros Hc Hlt. cbn [column_loop].
  destruct (Z.leb_spec col u0); [lia|].
  assert (utf8_text [c]) as Hv by (apply utf8_text_cons; split; auto using utf8_text_nil).
  rewrite str_encode_utf16le_ok, bind_Ok by assumption.
  rewrite str_encode_utf8_ok, bind_Ok by assumption. reflexivity.
Qed.

(** The scan stops exactly after the prefix whose UTF-16 length is the
    requested column. *)
Lemma column_loop_prefix l k u0 b0 :
  utf8_text l ->
  column_loop l (u0 + utf16_units (take k l)) u0 b0
  = Ok (b0 + utf8_len (take k l)).
Proof.
  revert k u0 b0. induction l as [|c l IH]; intros k u0 b0 Hv.
  - rewrite take_nil. simpl. f_equal. rewrite utf8_len_nil. lia.
  - apply utf8_text_cons in Hv as [Hc Hv]. destruct k as [|k].
    + cbn [take column_loop]. rewrite utf16_units_nil, utf8_len_nil.
      destruct (Z.leb_spec (u0 + 0) u0); [|lia]. f_equal. lia.
    + cbn [take]. rewrite utf16_units_cons, utf8_len_cons.
      pose proof (utf16_units_char_pos c).
      pose proof (utf16_units_nonneg (take k l)).
      rewrite column_loop_char by (auto; lia).
      rewrite Z.add_assoc, IH by assumption. f_equal. lia.
Qed.

(** A column at or past the end of the line scans the whole line. *)
Lemma column_loop_saturate l col u0 b0 :
  utf8_text l -> u0 + utf16_units l <= col ->
  column_loop l col u0 b0 = Ok (b0 + utf8_len l).
Proof.
  revert u0 b0. induction l as [|c l IH]; intros u0 b0 Hv Hcol.
  - simpl. f_equal. rewrite utf8_len_nil. lia.
  - apply utf8_text_cons in Hv as [Hc Hv].
    rewrite utf16_units_cons in Hcol. rewrite utf8_len_cons.
    pose proof (utf16_units_char_pos c).
    pose proof (utf16_units_nonneg l).
    rewrite column_loop_char by (auto; lia).
    rewrite IH by (auto; lia). f_equal. lia.
Qed.

Lemma lsp_position_to_byte_offset_line content i l col :
  utf8_text content -> str_split_nl content !! i = Some l ->
  lsp_position_to_byte_offset content (Z.of_nat i) col
  = byte_offset_in_line ← column_loop l col 0 0;
    Ok (line_start (str_split_nl content) i + byte_offset_in_line).
Proof.
  intros Hv Hl. unfold lsp_position_to_byte_offset.
  pose proof (lookup_lt_Some _ _ _ Hl) as Hlt.
  destruct (Z.leb_spec (len (str_split_nl content)) (Z.of_nat i));
    [unfold len in *; lia|].
  pose proof (line_start_loop_ok (str_split_nl content) i 0 0
                (utf8_text_split _ Hv)) as Hloop.
  change (Z.of_nat 0) with 0 in Hloop. rewrite Hloop by lia.
  rewrite bind_Ok, (py_index_nat _ _ _ Hl), bind_Ok.
  rewrite line_start_0. simpl (0 + i)%nat.
  replace (0 + (line_start (str_split_nl content) i - 0))
    with (line_start (str_split_nl content) i) by lia.
  reflexivity.
Qed.

Lemma utf8_len_take_le k s : utf8_len (take k s) <= utf8_len s.
Proof.
  rewrite <- (take_drop k s) at 2. rewrite utf8_len_app.
  pose proof (utf8_len_nonneg (drop k s)). lia.
Qed.

(** The line scan of the reverse direction stops at the line that holds the
    offset, and measures the prefix of that line before the offset. *)
Lemma line_loop_found ls i l k n b cb :
  Forall utf8_text ls -> ls !! i = Some l ->
  b = cb + line_start ls i + utf8_len (take k l) ->
  line_loop ls n b cb = Ok (Some (n + Z.of_nat i, utf16_units (take k l))).
Proof.
  intros Hv. revert i n cb.
  induction Hv as [|l0 rest Hl0 Hrest IH]; intros i n cb Hl Hb;
    [discriminate|].
  cbn [line_loop]. rewrite str_encode_utf8_ok, !bind_Ok by assumption.
  fold (utf8_len l0). destruct i as [|i].
  - simpl in Hl. injection Hl as ->. rewrite line_start_0 in Hb.
    pose proof (utf8_len_take_le k l).
    destruct (Z.leb_spec b (cb + utf8_len l)); [|lia].
    replace (b - cb) with (utf8_len (take k l)) by lia.
    rewrite slice_encode_prefix.
    rewrite decode_encode by (now apply utf8_text_take).
    rewrite str_encode_utf16le_ok, bind_Ok by (now apply utf8_text_take).
    fold (utf16_units (take k l)). do 3 f_equal. lia.
  - simpl in Hl. rewrite line_start_S in Hb.
    pose proof (line_start_nonneg rest i).
    pose proof (utf8_len_nonneg (take k l)).
    destruct (Z.leb_spec b (cb + utf8_len l0)); [lia|].
    rewrite (IH i (n + 1) (cb + (utf8_len l0 + 1)) Hl) by lia.
    do 3 f_equal. lia.
Qed.

(** Every character boundary of the buffer is a character boundary of one of
    its lines, counted from the start of that line. *)
Lemma boundary_in_line ls k :
  ls <> [] ->
  exists i l k', ls !! i = Some l /\
    utf8_len (take k (join_nl ls)) = line_start ls i + utf8_len (take k' l).
Proof.
  revert k. induction ls as [|l ls IH]; intros k Hne; [congruence|].
  destruct ls as [|l' ls].
  - exists 0%nat, l, k. split; [reflexivity|]. rewrite line_start_0. simpl. lia.
  - rewrite join_nl_cons. destruct (Nat.le_gt_cases k (length l)) as [Hk|Hk].
    + exists 0%nat, l, k. split; [reflexivity|].
      rewrite take_app_le by assumption. rewrite line_start_0. lia.
    + destruct (IH (k - length l - 1)%nat) as (i & li & k' & Hli & Hlen);
        [discriminate|].
      exists (S i), li, k'. split; [exact Hli|].
      rewrite take_app_ge by lia.
      replace (k - length l)%nat with (S (k - length l - 1)) by lia.
      cbn [take]. rewrite utf8_len_app, utf8_len_cons, utf8_len_newline, Hlen.
      rewrite line_start_S. lia.
Qed.

(** The bytes of one character: a leading byte, then continuation bytes. *)
Lemma utf8_encode_char_shape c :
  is_scalar c = true ->
  exists lead conts,
    utf8_encode_char c = lead :: conts /\
    is_continuation lead = false /\
    Forall (fun x => is_continuation x = true) conts.
Proof.
  intros Hc. apply is_scalar_spec in Hc. by_encoded_length;
  eexists _, _; (split; [reflexivity|]); unfold is_continuation;
  (split; [|repeat constructor]);
  rewrite ?andb_true_iff, ?andb_false_iff, ?Z.leb_le, ?Z.ltb_lt, ?Z.leb_gt,
    ?Z.ltb_ge;
  groups_lia.
Qed.

Lemma is_char_boundary_cons_inside lead conts rest b :
  Forall (fun x => is_continuation x = true) conts ->
  0 < b < len (lead :: conts) ->
  is_char_boundary ((lead :: conts) ++ rest) b = false.
Proof.
  intros Hconts Hb. unfold is_char_boundary.
  rewrite len_cons in Hb. rewrite len_app, len_cons.
  pose proof (len_nonneg rest).
  destruct (Z.eqb_spec b (1 + len conts + len rest)); [lia|].
  cbn [orb]. replace (Z.to_nat b) with (S (Z.to_nat (b - 1))) by lia.
  cbn [app]. rewrite lookup_cons. rewrite lookup_app_l by (unfold len in Hb; lia).
  destruct (lookup_lt_is_Some_2 conts (Z.to_nat (b - 1))) as [x Hx];
    [unfold len in Hb; lia|].
  rewrite Hx. rewrite (proj1 (Forall_lookup _ _) Hconts _ _ Hx).
  now rewrite andb_false_r.
Qed.

Lemma is_char_boundary_shift pre rest b :
  len pre <= b ->
  is_char_boundary (pre ++ rest) b = is_char_boundary rest (b - len pre).
Proof.
  intros Hb. unfold is_char_boundary. pose proof (len_nonneg pre).
  rewrite len_app.
  replace (0 <=? b) with true by (symmetry; apply Z.leb_le; lia).
  replace (0 <=? b - len pre) with true by (symmetry; apply Z.leb_le; lia).
  replace (b - len pre =? len rest) with (b =? len pre + len rest)
    by (destruct (Z.eqb_spec b (len pre + len rest)),
          (Z.eqb_spec (b - len pre) (len rest)); try reflexivity; lia).
  rewrite lookup_app_r by (unfold len in *; lia).
  replace (Z.to_nat b - length pre)%nat with (Z.to_nat (b - len pre))
    by (unfold len in *; lia).
  reflexivity.
Qed.

(** On the encoding of a text, the offsets that are the byte length of a
    prefix are the offsets that do not point at a continuation byte. *)
Lemma char_boundary_bytes content b :
  utf8_text content ->
  char_boundary content b <->
  is_char_boundary (flat_map utf8_encode_char content) b = true.
Proof.
  revert b. induction content as [|c content IH]; intros b Hv.
  - unfold char_boundary, is_char_boundary. cbn [flat_map]. split.
    + intros (k & _ & ->). rewrite take_nil. reflexivity.
    + intros H. exists 0%nat. split; [simpl; lia|].
      apply andb_true_iff in H as [_ H]. apply orb_true_iff in H as [H|H].
      * apply Z.eqb_eq in H. exact H.
      * rewrite lookup_nil in H. discriminate.
  - apply utf8_text_cons in Hv as [Hc Hv].
    destruct (utf8_encode_char_shape c Hc) as (lead & conts & Henc & Hlead & Hconts).
    assert (utf8_len [c] = len (lead :: conts)) as Hlen
      by (unfold utf8_len; simpl; now rewrite app_nil_r, Henc).
    cbn [flat_map]. rewrite Henc. split.
    + intros (k & Hk & ->). destruct k as [|k].
      * cbn [take]. rewrite utf8_len_nil. unfold is_char_boundary.
        change (Z.to_nat 0) with 0%nat. cbn [app].
        change ((lead :: conts ++ flat_map utf8_encode_char content) !! 0%nat)
          with (Some lead).
        cbv iota. rewrite Hlead. cbn [negb]. now rewrite orb_true_r.
      * cbn [take]. rewrite utf8_len_cons, Hlen.
        pose proof (utf8_len_nonneg (take k content)).
        rewrite is_char_boundary_shift by lia.
        apply IH; [exact Hv|]. exists k. split; [simpl in Hk; lia | lia].
    + intros H. destruct (Z.le_gt_cases b 0) as [Hb0|Hb0].
      * exists 0%nat. split; [lia|]. rewrite take_0, utf8_len_nil.
        unfold is_char_boundary in H. apply andb_true_iff in H as [H _].
        apply Z.leb_le in H. lia.
      * destruct (Z.le_gt_cases (len (lead :: conts)) b) as [Hge|Hlt].
        -- rewrite is_char_boundary_shift in H by lia.
           apply IH in H as (k & Hk & Hbk); [|exact Hv].
           exists (S k). split; [simpl; lia|].
           cbn [take]. rewrite utf8_len_cons, Hlen. lia.
        -- rewrite is_char_boundary_cons_inside in H by (auto; lia).
           discriminate.
Qed.

End codec_facts.

(** C1. Round trip of the position codec: for every UTF-8 text buffer and
    every byte offset [b] on a character boundary of it,
    [byte_offset_to_lsp_position] returns a (line, UTF-16 column) position
    from which [lsp_position_to_byte_offset] returns [b] again; the buffer may
    hold characters of any UTF-8 length, also those that take a surrogate
    pair in UTF-16. *)
Theorem codec_round_trip (content : Codec.text) (b : Z) :
  Codec.utf8_text content ->
  Codec.char_boundary content b ->
  exists line col : Z,
    Codec.byte_offset_to_lsp_position content b = Ok (line, col) /\
    Codec.lsp_position_to_byte_offset content line col = Ok b.
Proof.
  intros Hv (k & Hk & ->).
  pose proof (str_split_nl_nonempty content) as Hne.
  pose proof (join_split content) as Hjoin.
  pose proof (utf8_text_split content Hv) as Hlines.
  unfold Codec.byte_offset_to_lsp_position.
  rewrite str_encode_utf8_ok, bind_Ok by assumption.
  fold (Codec.utf8_len content).
  destruct (Z.leb_spec (Codec.utf8_len content)
              (Codec.utf8_len (take k content))) as [Hge|Hlt].
  - pose proof (utf8_len_take_le k content) as Hle.
    rewrite bool_decide_eq_false_2 by assumption.
    destruct (last (Codec.str_split_nl content)) as [l|] eqn:Hlast;
      [|apply last_None in Hlast; congruence].
    rewrite (py_index_last _ _ Hlast), bind_Ok.
    assert (Codec.utf8_text l) as Hl.
    { rewrite last_lookup in Hlast. eapply Forall_lookup_1; eassumption. }
    rewrite str_encode_utf16le_ok, bind_Ok by assumption.
    fold (Codec.utf16_units l).
    eexists _, _. split; [reflexivity|].
    assert (length (Codec.str_split_nl content) <> 0%nat) as Hlen
      by (destruct (Codec.str_split_nl content); [congruence | simpl; lia]).
    replace (len (Codec.str_split_nl content) - 1)
      with (Z.of_nat (length (Codec.str_split_nl content) - 1))
      by (unfold len; lia).
    rewrite (lsp_position_to_byte_offset_line content _ l) by
      (auto; rewrite last_lookup in Hlast;
       now replace (length (Codec.str_split_nl content) - 1)%nat
         with (pred (length (Codec.str_split_nl content))) by lia).
    rewrite column_loop_saturate, bind_Ok by (auto; lia).
    f_equal. pose proof (utf8_len_join _ _ Hlast) as Htot.
    rewrite Hjoin in Htot. lia.
  - destruct (boundary_in_line (Codec.str_split_nl content) k Hne)
      as (i & l & k' & Hl & Hb).
    rewrite Hjoin in Hb.
    rewrite (line_loop_found _ i l k' 0 _ 0 Hlines Hl), bind_Ok by lia.
    eexists _, _. split; [reflexivity|].
    assert (Codec.utf8_text l) as Hvl by (eapply Forall_lookup_1; eassumption).
    rewrite (lsp_position_to_byte_offset_line content i l) by auto.
    pose proof (column_loop_prefix l k' 0 0 Hvl) as Hcol.
    rewrite !Z.add_0_l in *. rewrite Hcol, bind_Ok. f_equal. lia.
Qed.

Lemma codec_round_trip_witness :
  exists line col : Z,
    Codec.byte_offset_to_lsp_position
      [72; 101; 108; 108; 111; 10; 87; 111; 114; 108; 100; 10; 0x1F642; 0xE9] 16
    = Ok (line, col) /\
    Codec.lsp_position_to_byte_offset
      [72; 101; 108; 108; 111; 10; 87; 111; 114; 108; 100; 10; 0x1F642; 0xE9]
      line col = Ok 16.
Proof.
  apply (codec_round_trip
           [72; 101; 108; 108; 111; 10; 87; 111; 114; 108; 100; 10; 0x1F642; 0xE9]
           16).
  - reflexivity.
  - exists 13%nat. split; [simpl; lia | reflexivity].
Defined.

(** C8. A column at or past the UTF-16 length of a line of the buffer
    saturates at the end of that line: [lsp_position_to_byte_offset] returns
    (does not raise) the byte offset of the line's start plus the full UTF-8
    length of the line, which lies before the start of any following line. *)
Theorem lsp_position_column_saturates
    (content : Codec.text) (line col : Z) (l : Codec.text) :
  Codec.utf8_text content ->
  0 <= line < len (Codec.str_split_nl content) ->
  Codec.str_split_nl content !! Z.to_nat line = Some l ->
  Codec.utf16_units l <= col ->
  Codec.lsp_position_to_byte_offset content line col
  = Ok (Codec.line_start (Codec.str_split_nl content) (Z.to_nat line)
        + Codec.utf8_len l) /\
  Codec.line_start (Codec.str_split_nl content) (Z.to_nat line)
    + Codec.utf8_len l
  < Codec.line_start (Codec.str_split_nl content) (S (Z.to_nat line)).
Proof.
  intros Hv Hline Hl Hcol. split.
  - rewrite <- (Z2Nat.id line) at 1 by lia.
    rewrite (lsp_position_to_byte_offset_line content _ l) by auto.
    assert (Codec.utf8_text l) as Hvl
      by (eapply Forall_lookup_1; [apply utf8_text_split|]; eassumption).
    rewrite column_loop_saturate, bind_Ok by (auto; lia). reflexivity.
  - rewrite (line_start_snoc _ _ _ Hl). lia.
Qed.

Lemma lsp_position_column_saturates_witness :
  Codec.lsp_position_to_byte_offset
    [72; 105; 10; 0x1F642; 0xE9; 10; 33] 1 7
  = Ok (Codec.line_start (Codec.str_split_nl [72; 105; 10; 0x1F642; 0xE9; 10; 33])
          (Z.to_nat 1)
        + Codec.utf8_len [0x1F642; 0xE9]) /\
  Codec.line_start (Codec.str_split_nl [72; 105; 10; 0x1F642; 0xE9; 10; 33])
      (Z.to_nat 1)
    + Codec.utf8_len [0x1F642; 0xE9]
  < Codec.line_start (Codec.str_split_nl [72; 105; 10; 0x1F642; 0xE9; 10; 33])
      (S (Z.to_nat 1)).
Proof.
  apply (lsp_position_column_saturates
           [72; 105; 10; 0x1F642; 0xE9; 10; 33] 1 7 [0x1F642; 0xE9]).
  - reflexivity.
  - vm_compute. split; [discriminate | reflexivity].
  - reflexivity.
  - vm_compute. discriminate.
Defined.

(** * The spatial index *)

Section sort_facts.
Context {A : Type} (lt : A -> A -> bool).

Lemma sort_insert_perm x l : sort_insert lt x l ≡ₚ x :: l.
Proof.
  induction l as [|y l IH]; [reflexivity|]. simpl.
  destruct (lt y x); [|reflexivity].
  rewrite IH. apply Permutation_swap.
Qed.

Lemma sort_foldr_perm l : foldr (sort_insert lt) [] l ≡ₚ l.
Proof.
  induction l as [|x l IH]; [reflexivity|]. simpl.
  rewrite sort_insert_perm. now rewrite IH.
Qed.

Hypothesis lt_asym : forall a b, lt a b = true -> lt b a = false.
Hypothesis not_after_trans :
  forall a b c, (not_after lt) a b -> (not_after lt) b c -> (not_after lt) a c.

Lemma sort_insert_sorted x l :
  StronglySorted (not_after lt) l -> StronglySorted (not_after lt) (sort_insert lt x l).
Proof.
  induction 1 as [|y l Hl IH Hy]; simpl.
  - repeat constructor.
  - destruct (lt y x) eqn:Hyx.
    + constructor; [exact IH|].
      rewrite sort_insert_perm. constructor; [|exact Hy].
      apply lt_asym, Hyx.
    + constructor; [constructor; assumption|].
      constructor; [exact Hyx|].
      eapply Forall_impl; [exact Hy|]. intros z Hz.
      eapply not_after_trans; [exact Hyx | exact Hz].
Qed.

Lemma sort_foldr_sorted l : StronglySorted (not_after lt) (foldr (sort_insert lt) [] l).
Proof.
  induction l as [|x l IH]; simpl; [constructor|].
  now apply sort_insert_sorted.
Qed.

(** Stability: elements that the order does not tell apart keep their
    relative order. *)
Lemma sort_insert_filter (P : A -> bool) x l :
  (forall y, P x = true -> P y = true -> lt y x = false) ->
  List.filter P (sort_insert lt x l) = List.filter P (x :: l).
Proof.
  intros HP. induction l as [|y l IH]; [reflexivity|]. simpl.
  destruct (lt y x) eqn:Hyx; [|reflexivity].
  simpl. rewrite IH. simpl.
  destruct (P x) eqn:Hx, (P y) eqn:Hy; try reflexivity.
  rewrite HP in Hyx by auto. discriminate.
Qed.

Lemma sort_foldr_stable (P : A -> bool) l :
  (forall x y, P x = true -> P y = true -> lt y x = false) ->
  List.filter P (foldr (sort_insert lt) [] l) = List.filter P l.
Proof.
  intros HP. induction l as [|x l IH]; [reflexivity|]. simpl foldr.
  rewrite sort_insert_filter by (intros; now apply HP).
  simpl. now rewrite IH.
Qed.

End sort_facts.

Lemma StronglySorted_weaken {A} (R R' : A -> A -> Prop) l :
  (forall a b, R a b -> R' a b) -> StronglySorted R l -> StronglySorted R' l.
Proof.
  intros HR. induction 1 as [|x l Hl IH Hx]; constructor; [exact IH|].
  eapply Forall_impl; [exact Hx|]. intros y. apply HR.
Qed.

Lemma sort_by_key_perm {A K} (key : A -> K) (lt : K -> K -> bool) l :
  sort_by_key key lt l ≡ₚ l.
Proof. apply sort_foldr_perm. Qed.

Lemma pair_lt_asym a b : pair_lt a b = true -> pair_lt b a = false.
Proof.
  unfold pair_lt. destruct a as [a1 a2], b as [b1 b2]. simpl.
  destruct (Z.ltb_spec a1 b1), (Z.ltb_spec b1 a1), (Z.eqb_spec a1 b1),
    (Z.eqb_spec b1 a1), (Z.ltb_spec a2 b2), (Z.ltb_spec b2 a2);
    simpl; intros; try reflexivity; try discriminate; lia.
Qed.

Lemma pair_lt_false a b :
  pair_lt b a = false <-> a.1 < b.1 \/ (a.1 = b.1 /\ a.2 <= b.2).
Proof.
  unfold pair_lt. destruct a as [a1 a2], b as [b1 b2]. simpl.
  destruct (Z.ltb_spec b1 a1), (Z.eqb_spec b1 a1), (Z.ltb_spec b2 a2);
    simpl; split; intros; try reflexivity; try discriminate; lia.
Qed.

Lemma finalize_sort_sorted l :
  StronglySorted start_then_depth
    (sort_by_key (fun x => (x.(start_byte), - x.(depth))) pair_lt l).
Proof.
  unfold sort_by_key.
  eapply StronglySorted_weaken; cycle 1.
  - apply (sort_foldr_sorted
             (fun a b => pair_lt (a.(start_byte), - a.(depth))
                                 (b.(start_byte), - b.(depth)))).
    + intros a b. apply pair_lt_asym.
    + unfold Py.not_after. intros a b c. rewrite !pair_lt_false. simpl. lia.
  - unfold Py.not_after, start_then_depth. intros a b.
    rewrite pair_lt_false. simpl. lia.
Qed.

Lemma depth_sort_sorted l :
  StronglySorted deeper_first (sort_by_key (fun x => - x.(depth)) Z.ltb l).
Proof.
  unfold sort_by_key.
  eapply StronglySorted_weaken; cycle 1.
  - apply (sort_foldr_sorted (fun a b => - a.(depth) <? - b.(depth))).
    + intros a b. rewrite Z.ltb_lt, Z.ltb_ge. lia.
    + unfold Py.not_after. intros a b c. rewrite !Z.ltb_ge. lia.
  - unfold Py.not_after, deeper_first. intros a b. rewrite Z.ltb_ge. lia.
Qed.

Lemma add_node_bucket self e :
  file_nodes (add_node self e) !! file_id e
  = Some (default [] (file_nodes self !! file_id e) ++ [e]).
Proof.
  unfold add_node. cbn [file_nodes]. rewrite lookup_insert_eq.
  destruct (file_nodes self !! file_id e) as [l|] eqn:E.
  - now rewrite E.
  - now rewrite lookup_insert_eq.
Qed.

Lemma add_node_bucket_ne self e fid :
  fid <> file_id e ->
  file_nodes (add_node self e) !! fid = file_nodes self !! fid.
Proof.
  intros Hne. unfold add_node. cbn [file_nodes].
  rewrite lookup_insert_ne by congruence.
  destruct (file_nodes self !! file_id e); [reflexivity|].
  now rewrite lookup_insert_ne by congruence.
Qed.

Lemma add_node_by_id self e :
  node_by_id (add_node self e) !! node_id e = Some e.
Proof. unfold add_node. cbn [node_by_id]. apply lookup_insert_eq. Qed.

Lemma finalize_bucket self fid :
  file_nodes (finalize_index self) !! fid
  = sort_by_key (fun x => (x.(start_byte), - x.(depth))) pair_lt
      <$> file_nodes self !! fid.
Proof. unfold finalize_index. cbn [file_nodes]. apply lookup_fmap. Qed.

Lemma contains_offset_spec off e :
  contains_offset off e = true <-> start_byte e <= off < end_byte e.
Proof.
  unfold contains_offset. rewrite andb_true_iff, Z.leb_le, Z.ltb_lt. tauto.
Qed.

Lemma find_nodes_at_position_bucket self fid off :
  find_nodes_at_position self fid off
  = sort_by_key (fun x => - x.(depth)) Z.ltb
      (List.filter (contains_offset off) (default [] (file_nodes self !! fid))).
Proof.
  unfold find_nodes_at_position. destruct (file_nodes self !! fid); reflexivity.
Qed.

(** C2. [find_nodes_at_position] returns exactly the entries indexed for the
    file whose half-open range [start_byte, end_byte) holds the offset (each
    as often as it is indexed), deepest first; [find_innermost_node] returns
    the first of them, or none when there is none.  For an index that holds
    A (range 0-100, depth 0) and B (range 10-20, depth 1) in one file, the
    innermost node at offset 15 is B, at offset 50 it is A, at offset 150
    there is none. *)
Theorem find_nodes_at_position_spec (self : PositionIndex) (fid off : Z) :
  (find_nodes_at_position self fid off
     ≡ₚ List.filter (contains_offset off) (default [] (file_nodes self !! fid))) /\
  (forall e, e ∈ find_nodes_at_position self fid off <->
             e ∈ default [] (file_nodes self !! fid) /\
             start_byte e <= off < end_byte e) /\
  StronglySorted deeper_first (find_nodes_at_position self fid off) /\
  find_innermost_node self fid off = head (find_nodes_at_position self fid off) /\
  (forall ida idb ta tb da db,
     let A := mkAstNodeIndex ida fid 0 100 ta da 0 in
     let B := mkAstNodeIndex idb fid 10 20 tb db 1 in
     let index := finalize_index (add_node (add_node empty_index A) B) in
     find_innermost_node index fid 15 = Some B /\
     find_innermost_node index fid 50 = Some A /\
     find_innermost_node index fid 150 = None).
Proof.
  split; [|split; [|split; [|split]]].
  - rewrite find_nodes_at_position_bucket. apply sort_by_key_perm.
  - intros e. rewrite find_nodes_at_position_bucket, sort_by_key_perm.
    rewrite list_elem_of_In, filter_In, contains_offset_spec.
    rewrite <- list_elem_of_In. tauto.
  - rewrite find_nodes_at_position_bucket. apply depth_sort_sorted.
  - unfold find_innermost_node.
    destruct (find_nodes_at_position self fid off); reflexivity.
  - intros ida idb ta tb da db A B index.
    assert (file_nodes index !! fid = Some [A; B]) as Hbucket.
    { pose proof (add_node_bucket empty_index A) as HA.
      pose proof (add_node_bucket (add_node empty_index A) B) as HB.
      change (file_id A) with fid in HA. change (file_id B) with fid in HB.
      subst index. rewrite finalize_bucket, HB, HA. reflexivity. }
    unfold find_innermost_node.
    rewrite !find_nodes_at_position_bucket, Hbucket.
    repeat split; reflexivity.
Qed.

(** C6. After [finalize_index] every file's entry sequence holds the entries
    it held before, sorted: [start_byte] does not decrease along the
    sequence, and among entries with equal [start_byte] the depth does not
    increase. *)
Theorem finalize_index_sorted (self : PositionIndex) (fid : Z)
    (entries : list AstNodeIndex) :
  file_nodes (finalize_index self) !! fid = Some entries ->
  StronglySorted start_then_depth entries /\
  (exists before, file_nodes self !! fid = Some before /\ entries ≡ₚ before).
Proof.
  rewrite finalize_bucket. intros H.
  destruct (file_nodes self !! fid) as [before|]; [|discriminate].
  injection H as <-. split.
  - apply finalize_sort_sorted.
  - exists before. split; [reflexivity | apply sort_by_key_perm].
Qed.

Lemma finalize_index_sorted_witness :
  StronglySorted start_then_depth
    [sample_entry 1 0 0; sample_entry 4 7 3; sample_entry 3 7 2;
     sample_entry 2 40 1] /\
  (exists before,
     file_nodes
       (add_node (add_node (add_node (add_node empty_index
          (sample_entry 2 40 1)) (sample_entry 3 7 2)) (sample_entry 4 7 3))
          (sample_entry 1 0 0)) !! 6 = Some before /\
     [sample_entry 1 0 0; sample_entry 4 7 3; sample_entry 3 7 2;
      sample_entry 2 40 1] ≡ₚ before).
Proof.
  apply (finalize_index_sorted
           (add_node (add_node (add_node (add_node empty_index
              (sample_entry 2 40 1)) (sample_entry 3 7 2)) (sample_entry 4 7 3))
              (sample_entry 1 0 0))
           6).
  vm_compute. reflexivity.
Defined.

(** C9. Two [add_node] calls with entries of the same [node_id] and the same
    file leave both entries in the bucket of the file, so that
    [find_nodes_at_position] returns both for an offset inside both ranges,
    while [node_by_id] holds only the entry added last under that id. *)
Theorem add_node_same_id (self : PositionIndex) (e1 e2 : AstNodeIndex) (off : Z) :
  node_id e1 = node_id e2 ->
  file_id e1 = file_id e2 ->
  start_byte e1 <= off < end_byte e1 ->
  start_byte e2 <= off < end_byte e2 ->
  let self' := add_node (add_node self e1) e2 in
  file_nodes self' !! file_id e1
    = Some (default [] (file_nodes self !! file_id e1) ++ [e1; e2]) /\
  find_nodes_at_position self' (file_id e1) off
    ≡ₚ find_nodes_at_position self (file_id e1) off ++ [e1; e2] /\
  node_by_id self' !! node_id e1 = Some e2.
Proof.
  intros Hid Hfile H1 H2 self'.
  assert (file_nodes self' !! file_id e1
          = Some (default [] (file_nodes self !! file_id e1) ++ [e1; e2])) as Hb.
  { subst self'. rewrite Hfile, add_node_bucket, <- Hfile, add_node_bucket.
    simpl. now rewrite <- app_assoc. }
  split; [exact Hb|]. split.
  - rewrite !find_nodes_at_position_bucket, !sort_by_key_perm, Hb.
    simpl default. rewrite List.filter_app. simpl.
    apply contains_offset_spec in H1, H2. now rewrite H1, H2.
  - subst self'. rewrite Hid. apply add_node_by_id.
Qed.

Lemma add_node_same_id_witness :
  file_nodes (add_node (add_node empty_index (sample_entry 5 0 1))
                (sample_entry 5 10 3)) !! file_id (sample_entry 5 0 1)
    = Some (default [] (file_nodes empty_index !! file_id (sample_entry 5 0 1))
            ++ [sample_entry 5 0 1; sample_entry 5 10 3]) /\
  find_nodes_at_position
    (add_node (add_node empty_index (sample_entry 5 0 1)) (sample_entry 5 10 3))
    (file_id (sample_entry 5 0 1)) 12
    ≡ₚ find_nodes_at_position empty_index (file_id (sample_entry 5 0 1)) 12
       ++ [sample_entry 5 0 1; sample_entry 5 10 3] /\
  node_by_id
    (add_node (add_node empty_index (sample_entry 5 0 1)) (sample_entry 5 10 3))
    !! node_id (sample_entry 5 0 1) = Some (sample_entry 5 10 3).
Proof.
  apply (add_node_same_id empty_index (sample_entry 5 0 1) (sample_entry 5 10 3) 12);
    simpl; first [reflexivity | lia].
Defined.

(** * The indexer *)

Lemma bind_Raise {A B} (e : exn) (f : A -> result B) : (Raise e ≫= f) = Raise e.
Proof. reflexivity. Qed.

Lemma bind_Ok_inv {A B} (m : result A) (f : A -> result B) (b : B) :
  m ≫= f = Ok b -> exists a, m = Ok a /\ f a = Ok b.
Proof. destruct m as [a|e]; [eauto | discriminate]. Qed.

Example int_of_str_examples :
  int_of_str "9212" = Ok 9212 /\ int_of_str "-3" = Ok (-3) /\
  int_of_str "+5" = Ok 5 /\ int_of_str " 12 " = Ok 12 /\
  int_of_str "1_000" = Ok 1000 /\ int_of_str "007" = Ok 7 /\
  int_of_str "" = Raise ValueError /\ int_of_str "bad" = Raise ValueError /\
  int_of_str "1__0" = Raise ValueError /\ int_of_str "_1" = Raise ValueError /\
  int_of_str "1_" = Raise ValueError /\ int_of_str "- 1" = Raise ValueError /\
  int_of_str "12.5" = Raise ValueError /\ int_of_str "0x10" = Raise ValueError.
Proof. repeat split; vm_compute; reflexivity. Qed.

(** [int()] on a string raises nothing but [ValueError]. *)
Lemma int_of_str_raises s e : int_of_str s = Raise e -> e = ValueError.
Proof.
  unfold int_of_str.
  repeat (case_match; try discriminate); congruence.
Qed.

Lemma parse_src_unfold src :
  parse_src src =
  match str_split src ":"%char with
  | [p0; p1; p2] =>
    match int_of_str p0, int_of_str p1, int_of_str p2 with
    | Ok start, Ok length, Ok file_id => Ok (Some (start, length, file_id))
    | _, _, _ => Ok None
    end
  | _ => Ok None
  end.
Proof.
  unfold parse_src.
  destruct (str_split src ":") as [|p0 [|p1 [|p2 [|p3 ps]]]]; try reflexivity.
  - change (negb (len [p0; p1; p2] =? 3)) with false. cbv iota.
    change (py_index [p0; p1; p2] 0) with (Ok p0).
    change (py_index [p0; p1; p2] 1) with (Ok p1).
    change (py_index [p0; p1; p2] 2) with (Ok p2).
    rewrite !bind_Ok.
    destruct (int_of_str p0) as [a|e0] eqn:E0;
      [rewrite bind_Ok | apply int_of_str_raises in E0 as ->; reflexivity].
    change (py_index [p0; p1; p2] 1) with (Ok p1). rewrite bind_Ok.
    destruct (int_of_str p1) as [b|e1] eqn:E1;
      [rewrite bind_Ok | apply int_of_str_raises in E1 as ->; reflexivity].
    change (py_index [p0; p1; p2] 2) with (Ok p2). rewrite bind_Ok.
    destruct (int_of_str p2) as [c|e2] eqn:E2;
      [rewrite bind_Ok | apply int_of_str_raises in E2 as ->; reflexivity].
    reflexivity.
  - unfold len. simpl length.
    destruct (Z.eqb_spec (Z.of_nat (S (S (S (S (length ps)))))) 3); [lia|].
    reflexivity.
Qed.

(** C7. [parse_src "9212:3:6"] is start 9212, length 3, file id 6, and the
    entry that [_index_ast_nodes] builds from a node with that [src] ends at
    byte 9215; [parse_src "bad"] is none.  In general [parse_src] never
    raises, and yields a triple exactly when the string splits at its colons
    into three pieces that [int] accepts, the triple being their values. *)
Theorem parse_src_spec :
  parse_src "9212:3:6" = Ok (Some (9212, 3, 6)) /\
  parse_src "bad" = Ok None /\
  (forall (n : Z) (depth fid : Z),
     _index_ast_nodes (JDict [("id", JInt n); ("src", JStr "9212:3:6")])
       fid depth empty_index
     = Ok (add_node empty_index
             {| node_id := KInt n; file_id := 6;
                start_byte := 9212; end_byte := 9215;
                node_type := JStr "Unknown";
                node_data := JDict [("id", JInt n); ("src", JStr "9212:3:6")];
                depth := depth |})) /\
  (forall src, exists r, parse_src src = Ok r) /\
  (forall src start length file_id,
     parse_src src = Ok (Some (start, length, file_id)) <->
     exists p0 p1 p2,
       str_split src ":"%char = [p0; p1; p2] /\
       int_of_str p0 = Ok start /\ int_of_str p1 = Ok length /\
       int_of_str p2 = Ok file_id).
Proof.
  split; [vm_compute; reflexivity|].
  split; [vm_compute; reflexivity|].
  split; [intros; reflexivity|].
  split.
  - intros src. rewrite parse_src_unfold.
    repeat case_match; eauto.
  - intros src start length file_id. rewrite parse_src_unfold. split.
    + intros H.
      destruct (str_split src ":") as [|p0 [|p1 [|p2 [|p3 ps]]]];
        try discriminate.
      destruct (int_of_str p0) eqn:E0, (int_of_str p1) eqn:E1,
        (int_of_str p2) eqn:E2; try discriminate.
      injection H as -> -> ->. exists p0, p1, p2. auto.
    + intros (p0 & p1 & p2 & -> & -> & -> & ->). reflexivity.
Qed.

(** Induction on parsed values that reaches the elements of lists and the
    values of dicts. *)
Lemma json_deep_ind (P : json -> Prop) :
  P JNull -> (forall b, P (JBool b)) -> (forall n, P (JInt n)) ->
  (forall s, P (JStr s)) ->
  (forall items, Forall P items -> P (JList items)) ->
  (forall kvs, Forall (fun kv => P kv.2) kvs -> P (JDict kvs)) ->
  forall j, P j.
Proof.
  intros Hnull Hbool Hint Hstr Hlist Hdict.
  fix IH 1. intros [ | b | n | s | items | kvs].
  - exact Hnull.
  - apply Hbool.
  - apply Hint.
  - apply Hstr.
  - apply Hlist. induction items as [|x items IHitems]; constructor;
      [apply IH | exact IHitems].
  - apply Hdict. induction kvs as [|[k v] kvs IHkvs]; constructor;
      [apply IH | exact IHkvs].
Qed.

Section walk_facts.

Lemma index_le_refl self : index_le self self.
Proof. intros f e H. exact H. Qed.

Lemma index_le_trans s1 s2 s3 : index_le s1 s2 -> index_le s2 s3 -> index_le s1 s3.
Proof. intros H12 H23 f e H. apply H23, H12, H. Qed.

Lemma add_node_bucket' self e :
  bucket (add_node self e) (file_id e) = bucket self (file_id e) ++ [e].
Proof.
  unfold bucket, add_node. cbn [file_nodes]. rewrite lookup_insert_eq.
  destruct (file_nodes self !! file_id e) as [l|] eqn:E.
  - now rewrite E.
  - now rewrite lookup_insert_eq.
Qed.

Lemma add_node_bucket_other self e f :
  f <> file_id e -> bucket (add_node self e) f = bucket self f.
Proof.
  intros Hne. unfold bucket, add_node. cbn [file_nodes].
  rewrite lookup_insert_ne by congruence.
  destruct (file_nodes self !! file_id e); [reflexivity|].
  now rewrite lookup_insert_ne by congruence.
Qed.

Lemma add_node_le self e : index_le self (add_node self e).
Proof.
  intros f x H. destruct (decide (f = file_id e)) as [->|Hne].
  - rewrite add_node_bucket'. apply elem_of_app. now left.
  - now rewrite add_node_bucket_other.
Qed.

Lemma add_node_elem self e : e ∈ bucket (add_node self e) (file_id e).
Proof. rewrite add_node_bucket'. apply elem_of_app. right. constructor. Qed.

Lemma index_current_node_le kvs depth self self' :
  index_current_node kvs depth self = Ok self' -> index_le self self'.
Proof.
  unfold index_current_node. intros H.
  repeat (case_match; try discriminate);
    try (injection H as <-; apply index_le_refl).
  all: apply bind_Ok_inv in H as (src_info & Hsrc & H).
  all: destruct src_info as [[[st ln] nf]|];
    [|injection H as <-; apply index_le_refl].
  all: apply bind_Ok_inv in H as (k & Hk & H); injection H as <-;
    apply add_node_le.
Qed.

Lemma for_each_app {A S} (body : A -> S -> result S) l1 l2 s :
  for_each body (l1 ++ l2) s = (s' ← for_each body l1 s; for_each body l2 s').
Proof.
  revert s. induction l1 as [|a l1 IH]; intros s; [reflexivity|].
  cbn [app for_each]. destruct (body a s) as [s1|e]; [|reflexivity].
  rewrite !bind_Ok. apply IH.
Qed.

Lemma for_each_cons {A S} (body : A -> S -> result S) a l s :
  for_each body (a :: l) s = (s' ← body a s; for_each body l s').
Proof. reflexivity. Qed.

Lemma for_each_le {A} (body : A -> PositionIndex -> result PositionIndex) l :
  Forall (fun a => forall s s', body a s = Ok s' -> index_le s s') l ->
  forall s s', for_each body l s = Ok s' -> index_le s s'.
Proof.
  induction 1 as [|a l Ha Hl IH]; intros s s' H.
  - injection H as <-. apply index_le_refl.
  - rewrite for_each_cons in H. apply bind_Ok_inv in H as (s1 & H1 & H).
    eapply index_le_trans; [apply (Ha _ _ H1) | apply (IH _ _ H)].
Qed.

(** What a turn of the loop over the elements gives survives the rest of
    the loop. *)
Lemma for_each_elem {A} (body : A -> PositionIndex -> result PositionIndex)
    l a s s' :
  Forall (fun a => forall s s', body a s = Ok s' -> index_le s s') l ->
  a ∈ l -> for_each body l s = Ok s' ->
  exists s1 s2, body a s1 = Ok s2 /\ index_le s2 s'.
Proof.
  intros Hmono Ha H. apply list_elem_of_split in Ha as (l1 & l2 & ->).
  rewrite for_each_app in H. apply bind_Ok_inv in H as (s1 & H1 & H).
  rewrite for_each_cons in H. apply bind_Ok_inv in H as (s2 & H2 & H).
  exists s1, s2. split; [exact H2|].
  apply Forall_app in Hmono as [_ Hmono]. apply Forall_cons in Hmono as [_ Hmono].
  eapply for_each_le; eassumption.
Qed.

Lemma index_child_le visit key value :
  (forall s s', visit value s = Ok s' -> index_le s s') ->
  (forall children, value = JList children ->
     Forall (fun c => forall s s', visit c s = Ok s' -> index_le s s') children) ->
  forall s s', index_child visit key value s = Ok s' -> index_le s s'.
Proof.
  intros Hv Hl s s' H. unfold index_child in H.
  repeat case_match; try (injection H as <-; apply index_le_refl);
    try (now apply Hv).
  eapply for_each_le; [|exact H]. now apply Hl.
Qed.

Lemma _index_ast_nodes_unfold kvs fid depth self :
  _index_ast_nodes (JDict kvs) fid depth self =
  (self ← index_current_node kvs depth self;
   for_each
     (fun kv self =>
        index_child (fun child self => _index_ast_nodes child fid (depth + 1) self)
          kv.1 kv.2 self)
     kvs self).
Proof. reflexivity. Qed.

Lemma walk_le_deep node :
  walk_le node /\ (forall children, node = JList children -> Forall walk_le children).
Proof.
  induction node as [ | b | n | s | items IH | kvs IH ] using json_deep_ind;
    try (split; [intros fid depth s0 s' H; injection H as <-; apply index_le_refl
                |intros children Hc; discriminate]).
  - split.
    + intros fid depth s0 s' H. injection H as <-. apply index_le_refl.
    + intros children [= <-]. eapply Forall_impl; [exact IH|].
      intros c [Hc _]. exact Hc.
  - split; [|intros children Hc; discriminate].
    intros fid depth s0 s' H. rewrite _index_ast_nodes_unfold in H.
    apply bind_Ok_inv in H as (s1 & H1 & H).
    eapply index_le_trans; [eapply index_current_node_le; exact H1|].
    eapply for_each_le; [|exact H].
    eapply Forall_impl; [exact IH|]. intros [k v] [Hv Hl]. cbn [fst snd].
    apply index_child_le.
    + intros sa sb. apply Hv.
    + intros children Hc. eapply Forall_impl; [apply (Hl _ Hc)|].
      intros c Hcw sa sb. apply Hcw.
Qed.

Lemma _index_ast_nodes_le node : walk_le node.
Proof. apply walk_le_deep. Qed.

Lemma children_le kvs fid depth s s' :
  for_each
    (fun kv self =>
       index_child (fun child self => _index_ast_nodes child fid (depth + 1) self)
         kv.1 kv.2 self) kvs s = Ok s' ->
  index_le s s'.
Proof.
  apply for_each_le. apply Forall_forall. intros [k v] _. cbn [fst snd].
  apply index_child_le.
  - intros sa sb. apply _index_ast_nodes_le.
  - intros children _. apply Forall_forall. intros c _ sa sb.
    apply _index_ast_nodes_le.
Qed.

Lemma assoc_contains {V} k (kvs : list (string * V)) v :
  assoc k kvs = Some v -> contains k kvs = true.
Proof. unfold contains. now intros ->. Qed.

Lemma index_current_node_indexable kvs depth self id src start length f :
  assoc "id" kvs = Some id -> assoc "src" kvs = Some (JStr src) ->
  parse_src src = Ok (Some (start, length, f)) ->
  index_current_node kvs depth self =
  (k ← hash_key id;
   Ok (add_node self
         {| node_id := k; file_id := f; start_byte := start;
            end_byte := start + length;
            node_type := default (JStr "Unknown") (assoc "nodeType" kvs);
            node_data := JDict kvs; depth := depth |})).
Proof.
  intros Hid Hsrc Hparse. unfold index_current_node.
  rewrite (assoc_contains _ _ _ Hid), (assoc_contains _ _ _ Hsrc).
  cbn [andb]. rewrite Hsrc, Hparse, bind_Ok, Hid. reflexivity.
Qed.

Lemma index_current_node_unindexable kvs depth self :
  unindexable kvs -> index_current_node kvs depth self = Ok self.
Proof.
  unfold index_current_node. intros [H | [H | (src & Hsrc & Hparse)]].
  - rewrite H, andb_false_r. reflexivity.
  - rewrite H. reflexivity.
  - destruct (contains "src" kvs && contains "id" kvs); [|reflexivity].
    rewrite Hsrc, Hparse. reflexivity.
Qed.

(** Every indexable node that the walk reaches has its entry in the index,
    at the depth at which it was reached. *)
Lemma visited_indexed node depth c d :
  visited node depth c d ->
  forall ckvs id src start length f fid s s',
    c = JDict ckvs ->
    assoc "id" ckvs = Some id -> assoc "src" ckvs = Some (JStr src) ->
    parse_src src = Ok (Some (start, length, f)) ->
    _index_ast_nodes node fid depth s = Ok s' ->
    exists k, hash_key id = Ok k /\
      {| node_id := k; file_id := f; start_byte := start;
         end_byte := start + length;
         node_type := default (JStr "Unknown") (assoc "nodeType" ckvs);
         node_data := JDict ckvs; depth := d |} ∈ bucket s' f.
Proof.
  induction 1 as [node depth | node depth kvs key value child c d Hnode Hkv Hrec Hvis IH];
    intros ckvs id src start length f fid s s' Hc Hid Hsrc Hparse Hrun.
  - subst node. rewrite _index_ast_nodes_unfold in Hrun.
    apply bind_Ok_inv in Hrun as (s1 & H1 & Hrun).
    rewrite (index_current_node_indexable _ _ _ _ _ _ _ _ Hid Hsrc Hparse) in H1.
    apply bind_Ok_inv in H1 as (k & Hk & H1). injection H1 as <-.
    exists k. split; [exact Hk|].
    eapply children_le; [exact Hrun|].
    apply (add_node_elem s
             {| node_id := k; file_id := f; start_byte := start;
                end_byte := start + length;
                node_type := default (JStr "Unknown") (assoc "nodeType" ckvs);
                node_data := JDict ckvs; depth := depth |}).
  - subst node. rewrite _index_ast_nodes_unfold in Hrun.
    apply bind_Ok_inv in Hrun as (s1 & H1 & Hrun).
    apply list_elem_of_split in Hkv as (l1 & l2 & ->).
    rewrite for_each_app in Hrun. apply bind_Ok_inv in Hrun as (s2 & H2 & Hrun).
    rewrite for_each_cons in Hrun. apply bind_Ok_inv in Hrun as (s3 & H3 & Hrun).
    cbn [fst snd] in H3. apply children_le in Hrun.
    assert (exists sa sb,
              _index_ast_nodes child fid (depth + 1) sa = Ok sb /\ index_le sb s3)
      as (sa & sb & Hchild & Hle).
    { unfold recursed_child in Hrec. unfold index_child in H3.
      destruct (bool_decide (key ∈ child_list_keys)).
      - destruct Hrec as (children & -> & Hin).
        eapply (for_each_elem
                  (fun child self => _index_ast_nodes child fid (depth + 1) self));
          [|exact Hin|exact H3].
        apply Forall_forall. intros x _ sa sb. apply _index_ast_nodes_le.
      - destruct (bool_decide (key ∈ single_child_keys)).
        + destruct Hrec as [-> Hdict]. destruct child; try discriminate.
          exists s2, s3. split; [exact H3 | apply index_le_refl].
        + destruct Hrec as (-> & vkvs & -> & Hnt). rewrite Hnt in H3.
          exists s2, s3. split; [exact H3 | apply index_le_refl]. }
    destruct (IH ckvs id src start length f fid sa sb Hc Hid Hsrc Hparse Hchild)
      as (k & Hk & Hin).
    exists k. split; [exact Hk|]. apply Hrun, Hle, Hin.
Qed.

End walk_facts.

(** C10. A visited node without [id], without [src], or with a [src] string
    that [parse_src] rejects gets no entry of its own, and the walk goes on
    into its children by the three recursion rules: every node that the walk
    reaches below it and that has an [id] and a well-formed [src] is in the
    index when the walk returns, at the depth at which it was reached. *)
Theorem unindexable_node_children_indexed
    (kvs : list (string * json)) (fid depth : Z) (self : PositionIndex) :
  unindexable kvs ->
  index_current_node kvs depth self = Ok self /\
  _index_ast_nodes (JDict kvs) fid depth self
  = for_each
      (fun kv self =>
         index_child (fun child self => _index_ast_nodes child fid (depth + 1) self)
           kv.1 kv.2 self)
      kvs self /\
  (forall self' ckvs d id src start length f,
     _index_ast_nodes (JDict kvs) fid depth self = Ok self' ->
     visited (JDict kvs) depth (JDict ckvs) d ->
     assoc "id" ckvs = Some id -> assoc "src" ckvs = Some (JStr src) ->
     parse_src src = Ok (Some (start, length, f)) ->
     exists k, hash_key id = Ok k /\
       {| node_id := k; file_id := f; start_byte := start;
          end_byte := start + length;
          node_type := default (JStr "Unknown") (assoc "nodeType" ckvs);
          node_data := JDict ckvs; depth := d |} ∈ bucket self' f).
Proof.
  intros Hun. pose proof (index_current_node_unindexable kvs depth self Hun) as H1.
  split; [exact H1|]. split.
  - rewrite _index_ast_nodes_unfold, H1. reflexivity.
  - intros self' ckvs d id src start length f Hrun Hvis Hid Hsrc Hparse.
    eapply visited_indexed; eauto.
Qed.

Lemma unindexable_node_children_indexed_witness :
  exists k, hash_key (JInt 7) = Ok k /\
    {| node_id := k; file_id := 6; start_byte := 10; end_byte := 10 + 5;
       node_type := default (JStr "Unknown") (assoc "nodeType" sample_contract);
       node_data := JDict sample_contract; depth := 0 + 1 |}
    ∈ bucket (add_node empty_index
                {| node_id := KInt 7; file_id := 6; start_byte := 10;
                   end_byte := 15; node_type := JStr "ContractDefinition";
                   node_data := JDict sample_contract; depth := 1 |}) 6.
Proof.
  refine (proj2 (proj2 (unindexable_node_children_indexed sample_unit 6 0
                          empty_index _)) _ sample_contract (0 + 1) (JInt 7)
            "10:5:6" 10 5 6 _ _ _ _ _).
  - right; right. exists "oops". split; vm_compute; reflexivity.
  - vm_compute. reflexivity.
  - eapply visited_below;
      [reflexivity | | | apply visited_here].
    + apply list_elem_of_In. do 3 right. left. reflexivity.
    + exists [JDict sample_contract]. split; [reflexivity | constructor].
  - reflexivity.
  - reflexivity.
  - vm_compute. reflexivity.
Defined.

(** * The resolver *)

Example resolve_examples :
  get_declaration_location sample_fs (sample_root [sample_entry 42 0 1])
    (sample_use [("referencedDeclaration", JInt 42)])
  = _node_to_location sample_fs (sample_root [sample_entry 42 0 1])
      (sample_entry 42 0 1) /\
  get_declaration_location sample_fs (sample_root [sample_entry 77 11 1])
    (sample_use
       [("typeDescriptions",
         JDict [("typeIdentifier", JStr "t_struct$_Foo_$77_storage")])])
  = _node_to_location sample_fs (sample_root [sample_entry 77 11 1])
      (sample_entry 77 11 1) /\
  _node_to_location sample_fs (sample_root [sample_entry 77 11 1])
    (sample_entry 77 11 1) = Ok (Some ("file:///p/C.sol", 1, 0)) /\
  get_declaration_location sample_fs (sample_root [sample_entry 77 11 1])
    (sample_use [("name", JStr "x")]) = Ok None.
Proof. repeat split; vm_compute; reflexivity. Qed.

(** The first stage, for a reference that is not zero. *)
Lemma get_declaration_location_referenced fs self node payload n target :
  node_data node = JDict payload ->
  assoc "referencedDeclaration" payload = Some (JInt n) ->
  n <> 0 ->
  node_by_id (position_index self) !! KInt n = Some target ->
  get_declaration_location fs self node = _node_to_location fs self target.
Proof.
  intros Hdata Hget Hn Hreg. unfold get_declaration_location.
  rewrite Hdata. cbn [get]. rewrite Hget.
  unfold mbind, result_bind. cbv beta iota. cbn [truthy hash_key].
  destruct (Z.eqb_spec n 0) as [|_]; [contradiction|]. cbn [negb].
  rewrite Hreg. reflexivity.
Qed.

(** The second stage, when the first one finds nothing: the first [$<digits>]
    marker of the type identifier decides. *)
Lemma get_declaration_location_type_identifier fs self node payload desc type_id :
  node_data node = JDict payload ->
  assoc "referencedDeclaration" payload = None ->
  assoc "typeDescriptions" payload = Some (JDict desc) ->
  assoc "typeIdentifier" desc = Some (JStr type_id) ->
  get_declaration_location fs self node =
  match re_search_dollar_digits type_id with
  | Some group =>
    target_id ← int_of_str group;
    match node_by_id (position_index self) !! KInt target_id with
    | Some target => _node_to_location fs self target
    | None => Ok None
    end
  | None => Ok None
  end.
Proof.
  intros Hdata Href Hdesc Hid. unfold get_declaration_location.
  rewrite Hdata. cbn [get]. rewrite Href, Hdesc.
  unfold mbind, result_bind. cbv beta iota. cbn [truthy get].
  rewrite Hid. reflexivity.
Qed.

(** C3. The first stage of [get_declaration_location] tests the truth value
    of [referencedDeclaration] before it looks the id up, so a reference to
    the registered id 0 is not followed: the node resolves to none, although
    the entry of id 0 has a location; the second stage has no such test and
    resolves the marker [$0] to that entry. *)
Theorem get_declaration_location_zero_reference :
  node_by_id (position_index (sample_root [sample_entry 0 11 1])) !! KInt 0
    = Some (sample_entry 0 11 1) /\
  _node_to_location sample_fs (sample_root [sample_entry 0 11 1])
    (sample_entry 0 11 1) = Ok (Some ("file:///p/C.sol", 1, 0)) /\
  get_declaration_location sample_fs (sample_root [sample_entry 0 11 1])
    (sample_use [("referencedDeclaration", JInt 0)]) = Ok None /\
  get_declaration_location sample_fs (sample_root [sample_entry 0 11 1])
    (sample_use
       [("typeDescriptions",
         JDict [("typeIdentifier", JStr "t_contract$_C_$0")])])
  = Ok (Some ("file:///p/C.sol", 1, 0)).
Proof. repeat split; vm_compute; reflexivity. Qed.

Lemma column_loop_total l col u0 b0 :
  Codec.utf8_text l -> exists off, Codec.column_loop l col u0 b0 = Ok off.
Proof.
  revert u0 b0. induction l as [|c l IH]; intros u0 b0 Hv; [simpl; eauto|].
  apply utf8_text_cons in Hv as [Hc Hv].
  destruct (Z.le_gt_cases col u0).
  - cbn [Codec.column_loop]. destruct (Z.leb_spec col u0); [eauto | lia].
  - rewrite column_loop_char by (auto; lia). now apply IH.
Qed.

(** On a decoded file and a line that is not negative the forward
    conversion returns an offset. *)
Lemma lsp_position_to_byte_offset_total content line col :
  Codec.utf8_text content -> 0 <= line ->
  exists off, Codec.lsp_position_to_byte_offset content line col = Ok off.
Proof.
  intros Hv Hline.
  destruct (Z.le_gt_cases (len (Codec.str_split_nl content)) line) as [Hge|Hlt].
  - unfold Codec.lsp_position_to_byte_offset.
    destruct (Z.leb_spec (len (Codec.str_split_nl content)) line); [|lia].
    rewrite str_encode_utf8_ok by assumption. rewrite bind_Ok. eauto.
  - destruct (lookup_lt_is_Some_2 (Codec.str_split_nl content) (Z.to_nat line))
      as [l Hl]; [unfold len in Hlt; lia|].
    rewrite <- (Z2Nat.id line) by lia.
    rewrite (lsp_position_to_byte_offset_line content _ l) by auto.
    destruct (column_loop_total l col 0 0) as [off Hoff].
    { eapply Forall_lookup_1; [apply utf8_text_split|]; eassumption. }
    rewrite Hoff, bind_Ok. eauto.
Qed.

Lemma match_uri_lookup uri table fid :
  match_uri uri table = Some fid ->
  exists path, dict_lookup table fid = Ok path.
Proof.
  intros H. unfold dict_lookup.
  assert (exists path, (fid, path) ∈ table) as [path Hin].
  { induction table as [|[f p] table IH]; [discriminate|]. simpl in H.
    destruct (_ || _).
    - injection H as ->. exists p. constructor.
    - destruct (IH H) as [path Hin]. exists path. now constructor. }
  destruct (list_find_elem_of (fun kv : Z * string => kv.1 = fid) table (fid, path))
    as [[i kv] Hfind]; [exact Hin | reflexivity |].
  rewrite Hfind. eauto.
Qed.

(** C5, as amended. [find_node_at_position] returns none when the uri
    matches no entry of the file-id table and when the matched file is
    missing; when the file reads as UTF-8 text and the line is not negative
    it returns, without raising, the innermost indexed node at the offset of
    the position (none if no node holds it); an exception of the read other
    than the two that the method catches is raised to the caller. *)
Theorem find_node_at_position_outcomes
    (fs : file_system) (self : Root) (uri : string) (line col : Z) :
  (match_uri uri (file_id_to_path (position_index self)) = None ->
   find_node_at_position fs self uri line col = Ok None) /\
  (forall fid,
     match_uri uri (file_id_to_path (position_index self)) = Some fid ->
     exists path,
       dict_lookup (file_id_to_path (position_index self)) fid = Ok path /\
       (fs path = Raise FileNotFoundError ->
        find_node_at_position fs self uri line col = Ok None) /\
       (forall content,
          fs path = Ok content -> Codec.utf8_text content -> 0 <= line ->
          exists off,
            Codec.lsp_position_to_byte_offset content line col = Ok off /\
            find_node_at_position fs self uri line col
            = Ok (find_innermost_node (position_index self) fid off)) /\
       (forall e,
          fs path = Raise e -> e <> FileNotFoundError -> e <> KeyError ->
          find_node_at_position fs self uri line col = Raise e)).
Proof.
  split.
  - intros H. unfold find_node_at_position. now rewrite H.
  - intros fid H. destruct (match_uri_lookup _ _ _ H) as [path Hpath].
    exists path. split; [exact Hpath|].
    unfold find_node_at_position. rewrite H, Hpath, bind_Ok.
    split; [|split].
    + intros ->. reflexivity.
    + intros content -> Hv Hline.
      destruct (lsp_position_to_byte_offset_total content line col Hv Hline)
        as [off Hoff].
      exists off. split; [exact Hoff|]. rewrite bind_Ok, Hoff. reflexivity.
    + intros e -> H1 H2. cbn [mbind result_bind try_except].
      rewrite bool_decide_eq_false_2; [reflexivity|].
      rewrite !elem_of_cons, elem_of_nil. intuition congruence.
Qed.

Lemma find_node_at_position_outcomes_witness :
  find_node_at_position sample_fs (sample_root [sample_entry 1 0 0])
    "file:///q/D.sol" 0 3 = Ok None.
Proof.
  apply (proj1 (find_node_at_position_outcomes sample_fs
                  (sample_root [sample_entry 1 0 0]) "file:///q/D.sol" 0 3)).
  reflexivity.
Defined.

(** C5, as stated, fails: a file that exists but cannot be read makes
    [find_node_at_position] raise. *)
Lemma find_node_at_position_unreadable :
  find_node_at_position locked_fs (sample_root [sample_entry 1 0 0])
    "file:///p/C.sol" 0 3 = Raise PermissionError /\
  ~ (exists r, find_node_at_position locked_fs (sample_root [sample_entry 1 0 0])
                 "file:///p/C.sol" 0 3 = Ok r).
Proof.
  assert (find_node_at_position locked_fs (sample_root [sample_entry 1 0 0])
            "file:///p/C.sol" 0 3 = Raise PermissionError) as H
    by (vm_compute; reflexivity).
  split; [exact H|]. intros [r Hr]. rewrite H in Hr. discriminate.
Qed.

(** A line before the first one that negative indexing reaches raises too. *)
Example find_node_at_position_negative_line :
  find_node_at_position sample_fs (sample_root [sample_entry 1 0 0])
    "file:///p/C.sol" (-4) 0 = Raise IndexError /\
  find_node_at_position sample_fs (sample_root [sample_entry 1 0 0])
    "file:///p/C.sol" 0 3 = Ok (Some (sample_entry 1 0 0)).
Proof. split; vm_compute; reflexivity. Qed.

(** * The loader *)

Section loader_facts.

Lemma get_dict kvs k : get (JDict kvs) k JNull = Ok (field kvs k).
Proof. reflexivity. Qed.

Lemma get_Ok_inv d k v : get d k JNull = Ok v -> exists kvs, d = JDict kvs /\ v = field kvs k.
Proof. destruct d; try discriminate. intros [= <-]. eauto. Qed.

Lemma present_truthy x : present x = if truthy x then Some x else None.
Proof. reflexivity. Qed.

Lemma load_source_location_spec v o :
  load_source_location v = Ok o -> o = location_of v.
Proof.
  unfold load_source_location. destruct (truthy v) eqn:Hv.
  - destruct v; try discriminate. rewrite !get_dict, !bind_Ok. cbv beta.
    unfold location_of.
    destruct (is_none (field kvs "file")), (is_none (field kvs "start")),
      (is_none (field kvs "end")); cbn [negb andb orb]; congruence.
  - intros [= <-]. destruct v; try reflexivity; try discriminate.
    destruct kvs; [reflexivity | discriminate].
Qed.

Lemma parse_kind_spec {A} (w e : A) x o :
  parse_kind w e x = Ok o -> o = kind_of w e x.
Proof.
  unfold parse_kind, kind_of. destruct x; try discriminate; try congruence.
  repeat case_match; congruence.
Qed.

(** A diagnostic record is kept exactly when it has all its subfields. *)
Lemma load_error_spec error acc acc' :
  load_error error acc = Ok acc' ->
  acc' = acc ++ option_list (diagnostic_of error).
Proof.
  unfold load_error. destruct error; try discriminate.
  rewrite !get_dict, !bind_Ok. cbv beta. intros H.
  apply bind_Ok_inv in H as (sl & Hsl & H).
  apply bind_Ok_inv in H as (ty & Hty & H).
  apply bind_Ok_inv in H as (sev & Hsev & H).
  apply load_source_location_spec in Hsl. apply parse_kind_spec in Hty, Hsev.
  unfold diagnostic_of. rewrite <- Hsl, <- Hty, <- Hsev, !present_truthy.
  destruct sl, ty, sev; cbn [mbind option_bind option_list];
    try (injection H as <-; now rewrite ?app_nil_r).
  - destruct (truthy (field kvs "errorCode")), (truthy (field kvs "message"));
      cbn [andb mbind option_bind option_list] in *;
      injection H as <-; now rewrite ?app_nil_r.
  - destruct (truthy (field kvs "errorCode")); cbn;
      injection H as <-; now rewrite ?app_nil_r.
Qed.

(** A build-info record is kept exactly when it has all its subfields. *)
Lemma load_build_info_spec info acc acc' :
  load_build_info info acc = Ok acc' ->
  acc' = acc ++ option_list (build_info_of info).
Proof.
  unfold load_build_info. destruct info; try discriminate.
  rewrite !get_dict, !bind_Ok. cbv beta. unfold build_info_of.
  rewrite !present_truthy.
  destruct (truthy (field kvs "id")), (truthy (field kvs "source_id_to_path")),
    (truthy (field kvs "language")); cbn [andb mbind option_bind option_list];
    try (intros [= <-]; now rewrite app_nil_r).
  destruct (dict_of (field kvs "source_id_to_path")); [|discriminate].
  rewrite bind_Ok. intros [= <-]. reflexivity.
Qed.

(** A compiled-file record with a shaped [source_file]. *)
Lemma load_file_spec file_ acc acc' :
  source_file_shaped file_ = true ->
  load_file file_ acc = Ok acc' ->
  acc' = acc ++ option_list (compiled_file_of file_).
Proof.
  unfold load_file, source_file_shaped, compiled_file_of.
  destruct file_; try discriminate.
  rewrite !get_dict, !bind_Ok. cbv beta. rewrite !present_truthy.
  destruct (truthy (field kvs "source_file")) eqn:Hs;
    [|intros _ [= <-]; now rewrite app_nil_r].
  destruct (field kvs "source_file") as [ | | | | |skvs]; try discriminate.
  intros Hshape. rewrite !get_dict, !bind_Ok. cbv beta. rewrite Hshape.
  destruct (truthy (field kvs "version") && truthy (field kvs "build_id")
            && truthy (field kvs "profile"));
    intros [= <-]; reflexivity.
Qed.

Lemma omap_cons_option_list {A B} (f : A -> option B) a l :
  omap f (a :: l) = option_list (f a) ++ omap f l.
Proof. cbn. destruct (f a); reflexivity. Qed.

(** A loop that appends what each record contributes. *)
Lemma for_each_omap {A B} (body : A -> list B -> result (list B))
    (f : A -> option B) (l : list A) :
  Forall (fun a => forall acc acc', body a acc = Ok acc' ->
                                    acc' = acc ++ option_list (f a)) l ->
  forall acc acc', for_each body l acc = Ok acc' -> acc' = acc ++ omap f l.
Proof.
  induction 1 as [|a l Ha Hl IH]; intros acc acc' H.
  - injection H as <-. now rewrite app_nil_r.
  - rewrite for_each_cons in H. apply bind_Ok_inv in H as (acc1 & H1 & H).
    rewrite (IH _ _ H), (Ha _ _ H1), omap_cons_option_list.
    now rewrite app_assoc.
Qed.

Lemma records_truthy v l :
  (if truthy v then iter v else Ok []) = Ok l -> l = records v.
Proof.
  unfold records. destruct (truthy v) eqn:Hv.
  - intros ->. reflexivity.
  - intros [= <-]. destruct v as [ | | |s|items|kvs]; try reflexivity.
    + simpl in Hv. apply negb_false_iff, bool_decide_eq_true in Hv as ->.
      reflexivity.
    + destruct items; [reflexivity | discriminate].
    + destruct kvs; [reflexivity | discriminate].
Qed.

Lemma for_each_foldl {A S} (body : A -> S -> result S) (g : S -> A -> S) l :
  Forall (fun a => forall s s', body a s = Ok s' -> s' = g s a) l ->
  forall s s', for_each body l s = Ok s' -> s' = foldl g s l.
Proof.
  induction 1 as [|a l Ha Hl IH]; intros s s' H.
  - now injection H as <-.
  - rewrite for_each_cons in H. apply bind_Ok_inv in H as (s1 & H1 & H).
    cbn [foldl]. rewrite <- (Ha _ _ H1). now apply IH.
Qed.

Lemma load_errors_spec v acc acc' :
  (if truthy v then es ← iter v; for_each load_error es acc else Ok acc) = Ok acc' ->
  acc' = acc ++ omap diagnostic_of (records v).
Proof.
  intros H.
  assert (exists l, (if truthy v then iter v else Ok []) = Ok l /\
                    for_each load_error l acc = Ok acc') as (l & Hl & Hrun).
  { destruct (truthy v); [|exists []; auto].
    apply bind_Ok_inv in H as (l & Hl & H). eauto. }
  apply records_truthy in Hl as ->.
  eapply for_each_omap; [|exact Hrun].
  apply Forall_forall. intros e _ a a'. apply load_error_spec.
Qed.

Lemma load_build_infos_spec v acc acc' :
  (if truthy v then infos ← iter v; for_each load_build_info infos acc
   else Ok acc) = Ok acc' ->
  acc' = acc ++ omap build_info_of (records v).
Proof.
  intros H.
  assert (exists l, (if truthy v then iter v else Ok []) = Ok l /\
                    for_each load_build_info l acc = Ok acc') as (l & Hl & Hrun).
  { destruct (truthy v); [|exists []; auto].
    apply bind_Ok_inv in H as (l & Hl & H). eauto. }
  apply records_truthy in Hl as ->.
  eapply for_each_omap; [|exact Hrun].
  apply Forall_forall. intros e _ a a'. apply load_build_info_spec.
Qed.

Lemma load_source_spec filename files acc acc' :
  Forall (fun file_ => source_file_shaped file_ = true) (records files) ->
  load_source filename files acc = Ok acc' ->
  acc' = dict_set filename (omap compiled_file_of (records files)) acc.
Proof.
  intros Hshape H. unfold load_source in H.
  apply bind_Ok_inv in H as (l & Hl & H).
  apply bind_Ok_inv in H as (source & Hsource & H). injection H as <-.
  unfold records in *. rewrite Hl in *.
  apply (for_each_omap load_file compiled_file_of) in Hsource as ->;
    [reflexivity|].
  eapply Forall_impl; [exact Hshape|]. intros f Hf a a'. now apply load_file_spec.
Qed.

Lemma load_sources_spec v acc acc' :
  sources_shaped v ->
  (if truthy v then
     kvs ← items v; for_each (fun kv => load_source kv.1 kv.2) kvs acc
   else Ok acc) = Ok acc' ->
  acc' = sources_of v acc.
Proof.
  intros Hshape H. destruct (truthy v) eqn:Hv.
  - apply bind_Ok_inv in H as (kvs & Hkvs & H).
    destruct v; try discriminate. injection Hkvs as ->.
    cbn [sources_of sources_shaped] in *.
    eapply (for_each_foldl (fun kv => load_source kv.1 kv.2)); [|exact H].
    eapply Forall_impl; [exact Hshape|].
    intros [k files] Hf s s'. cbn [fst snd] in *. now apply load_source_spec.
  - injection H as <-. destruct v as [ | | | | |kvs]; try reflexivity.
    destruct kvs; [reflexivity | discriminate].
Qed.

End loader_facts.

(** What a load that returns has kept.  The diagnostics of the Root are
    those of the records with all five subfields true (a location with
    file, start and end, a type and a severity that read warning or error, a
    code, a message), and its build infos those of the records with id,
    source map and language true.  For compiled files, when every record of
    the artifact has a [source_file] that is absent or holds an integer
    [id] and an [ast], the lists are those of [sources_of]. *)
Lemma loader_keeps_complete_records
    (artifact : list (string * json)) (self self' : Root) :
  _initialize (JDict artifact) self = Ok self' ->
  errors self'
  = errors self ++ omap diagnostic_of (records (field artifact "errors")) /\
  build_infos self'
  = build_infos self
    ++ omap build_info_of (records (field artifact "build_infos")) /\
  (sources_shaped (field artifact "sources") ->
   sources self' = sources_of (field artifact "sources") (sources self)) /\
  position_index self' = position_index self.
Proof.
  unfold _initialize. rewrite !get_dict, !bind_Ok. cbv beta. intros H.
  apply bind_Ok_inv in H as (srcs & Hsrcs & H).
  apply bind_Ok_inv in H as (errs & Herrs & H).
  apply bind_Ok_inv in H as (infos & Hinfos & H).
  injection H as <-. cbn [errors build_infos sources position_index].
  split; [now apply load_errors_spec|].
  split; [now apply load_build_infos_spec|].
  split; [|reflexivity].
  intros Hshape. now apply load_sources_spec.
Qed.

Lemma loader_keeps_complete_records_witness :
  errors sample_loaded
  = errors empty_root
    ++ omap diagnostic_of (records (field sample_artifact "errors")) /\
  build_infos sample_loaded
  = build_infos empty_root
    ++ omap build_info_of (records (field sample_artifact "build_infos")) /\
  (sources_shaped (field sample_artifact "sources") ->
   sources sample_loaded
   = sources_of (field sample_artifact "sources") (sources empty_root)) /\
  position_index sample_loaded = position_index empty_root.
Proof.
  apply (loader_keeps_complete_records sample_artifact empty_root sample_loaded).
  vm_compute. reflexivity.
Defined.

(** C4. The loader departs from the claim on a compiled-file record that
    lacks a required subfield.  In an artifact with one such record of each
    kind (a compiled file without [version], a diagnostic without
    [message], a build info without [language]) the diagnostic and the
    build info are excluded, but the compiled file is not: it leaves a
    [None] in the list of its file name, so the Root is not the one loaded
    from the artifact without the three records. *)
Theorem loader_keeps_placeholder :
  get (sample_file_record false) "version" JNull = Ok JNull /\
  get (sample_error_record false) "message" JNull = Ok JNull /\
  get (sample_build_info false) "language" JNull = Ok JNull /\
  _initialize
    (JDict [("sources", JDict [("C.sol", JList [sample_file_record false])]);
            ("errors", JList [sample_error_record false]);
            ("build_infos", JList [sample_build_info false])])
    empty_root
  = Ok {| sources := [("C.sol", [None])]; errors := []; build_infos := [];
          position_index := empty_index |} /\
  _initialize
    (JDict [("sources", JDict [("C.sol", JList [])]);
            ("errors", JList []); ("build_infos", JList [])])
    empty_root
  = Ok {| sources := [("C.sol", [])]; errors := []; build_infos := [];
          position_index := empty_index |} /\
  _initialize
    (JDict [("sources", JDict [("C.sol", JList [sample_file_record false])]);
            ("errors", JList [sample_error_record false]);
            ("build_infos", JList [sample_build_info false])])
    empty_root
  <> _initialize
       (JDict [("sources", JDict [("C.sol", JList [])]);
               ("errors", JList []); ("build_infos", JList [])])
       empty_root.
Proof.
  assert (_initialize
            (JDict [("sources", JDict [("C.sol", JList [sample_file_record false])]);
                    ("errors", JList [sample_error_record false]);
                    ("build_infos", JList [sample_build_info false])])
            empty_root
          = Ok {| sources := [("C.sol", [None])]; errors := [];
                  build_infos := []; position_index := empty_index |}) as H1
    by (vm_compute; reflexivity).
  assert (_initialize
            (JDict [("sources", JDict [("C.sol", JList [])]);
                    ("errors", JList []); ("build_infos", JList [])])
            empty_root
          = Ok {| sources := [("C.sol", [])]; errors := []; build_infos := [];
                  position_index := empty_index |}) as H2
    by (vm_compute; reflexivity).
  split; [reflexivity|]. split; [reflexivity|]. split; [reflexivity|].
  split; [exact H1|]. split; [exact H2|].
  rewrite H1, H2. discriminate.
Qed.

(** A record whose [source_file] has no integer [id] is kept as well, with
    the unparsed value in place of a [SourceFile]. *)
Example loader_keeps_unparsed_source_file :
  _initialize
    (JDict [("sources",
             JDict [("C.sol",
                     JList [JDict [("version", JStr "0.8.30");
                                   ("build_id", JStr "b1");
                                   ("profile", JStr "default");
                                   ("source_file",
                                    JDict [("id", JStr "6");
                                           ("ast", sample_source_file)])]])])])
    empty_root
  = Ok {| sources :=
            [("C.sol",
              [Some {| source_file :=
                         Unparsed (JDict [("id", JStr "6");
                                          ("ast", sample_source_file)]);
                       verison := JStr "0.8.30"; build_id := JStr "b1";
                       profile := JStr "default" |}])];
          errors := []; build_infos := []; position_index := empty_index |}.
Proof. vm_compute. reflexivity. Qed.

(** * Further properties of the position codec *)

Section codec_more.
Import Codec.

Lemma utf8_len_zero s : utf8_len s = 0 -> s = [].
Proof.
  destruct s as [|c s]; [reflexivity|]. rewrite utf8_len_cons.
  pose proof (utf8_len_char c). pose proof (utf8_len_nonneg s). lia.
Qed.

Lemma utf16_units_take_le k s : utf16_units (take k s) <= utf16_units s.
Proof.
  rewrite <- (take_drop k s) at 2. rewrite utf16_units_app.
  pose proof (utf16_units_nonneg (drop k s)). lia.
Qed.

Lemma utf16_units_take_mono j k s :
  (j <= k)%nat -> utf16_units (take j s) <= utf16_units (take k s).
Proof.
  intros Hjk. replace (take j s) with (take j (take k s))
    by (rewrite take_take; f_equal; lia).
  apply utf16_units_take_le.
Qed.

Lemma utf8_len_take_mono j k s :
  (j <= k)%nat -> utf8_len (take j s) <= utf8_len (take k s).
Proof.
  intros Hjk. replace (take j s) with (take j (take k s))
    by (rewrite take_take; f_equal; lia).
  apply utf8_len_take_le.
Qed.

(** The scan of the target line stops after the shortest prefix whose
    UTF-16 length reaches the column. *)
Lemma column_loop_stop l k col u0 b0 :
  utf8_text l -> (k <= length l)%nat ->
  (forall j, (j < k)%nat -> u0 + utf16_units (take j l) < col) ->
  ((k < length l)%nat -> col <= u0 + utf16_units (take k l)) ->
  column_loop l col u0 b0 = Ok (b0 + utf8_len (take k l)).
Proof.
  revert k u0 b0. induction l as [|c l IH]; intros k u0 b0 Hv Hk Hlt Hge.
  - rewrite take_nil, utf8_len_nil. simpl. f_equal. lia.
  - apply utf8_text_cons in Hv as [Hc Hv]. destruct k as [|k].
    + cbn [take column_loop]. rewrite utf8_len_nil.
      specialize (Hge ltac:(simpl; lia)). cbn [take] in Hge.
      rewrite utf16_units_nil in Hge.
      destruct (Z.leb_spec col u0); [f_equal; lia | lia].
    + pose proof (Hlt 0%nat ltac:(lia)) as H0. cbn [take] in H0.
      rewrite utf16_units_nil in H0.
      rewrite column_loop_char by (auto; lia).
      cbn [take]. rewrite (utf8_len_cons c (take k l)).
      rewrite (IH k (u0 + utf16_units [c]) (b0 + utf8_len [c]) Hv);
        [f_equal; lia | simpl in Hk; lia | |].
      * intros j Hj. specialize (Hlt (S j) ltac:(lia)). cbn [take] in Hlt.
        rewrite (utf16_units_cons c (take j l)) in Hlt. lia.
      * intros Hk'. specialize (Hge ltac:(simpl; lia)). cbn [take] in Hge.
        rewrite (utf16_units_cons c (take k l)) in Hge. lia.
Qed.

Lemma column_loop_least l col u0 b0 :
  utf8_text l ->
  exists k, (k <= length l)%nat /\
    column_loop l col u0 b0 = Ok (b0 + utf8_len (take k l)).
Proof.
  revert u0 b0. induction l as [|c l IH]; intros u0 b0 Hv.
  - exists 0%nat. split; [reflexivity|]. simpl. f_equal.
    rewrite utf8_len_nil. lia.
  - apply utf8_text_cons in Hv as [Hc Hv].
    destruct (Z.le_gt_cases col u0).
    + exists 0%nat. split; [simpl; lia|]. cbn [take column_loop].
      rewrite utf8_len_nil. destruct (Z.leb_spec col u0); [f_equal; lia | lia].
    + destruct (IH (u0 + utf16_units [c]) (b0 + utf8_len [c]) Hv) as (k & Hk & Hrun).
      exists (S k). split; [simpl; lia|].
      rewrite column_loop_char by (auto; lia). rewrite Hrun.
      cbn [take]. rewrite (utf8_len_cons c (take k l)). f_equal. lia.
Qed.

Lemma line_start_mono lines i j :
  (i <= j)%nat -> line_start lines i <= line_start lines j.
Proof.
  revert i j. induction lines as [|l ls IH]; intros i j Hij.
  - unfold line_start. rewrite !take_nil. lia.
  - destruct i as [|i]; [rewrite line_start_0; apply line_start_nonneg|].
    destruct j as [|j]; [lia|]. rewrite !line_start_S.
    specialize (IH i j ltac:(lia)). lia.
Qed.

(** A character boundary of a line is a character boundary of the buffer. *)
Lemma line_boundary_in_buffer ls i l k :
  ls !! i = Some l ->
  exists n, (n <= length (join_nl ls))%nat /\
    utf8_len (take n (join_nl ls)) = line_start ls i + utf8_len (take k l).
Proof.
  revert i. induction ls as [|l0 ls IH]; intros i Hl; [discriminate|].
  destruct ls as [|l1 ls].
  - destruct i; [|discriminate]. injection Hl as ->. cbn [join_nl].
    exists (min k (length l)). split; [lia|].
    rewrite line_start_0.
    destruct (Nat.le_gt_cases k (length l)).
    + now rewrite Nat.min_l by lia.
    + rewrite Nat.min_r by lia. now rewrite !take_ge by lia.
  - rewrite join_nl_cons. destruct i as [|i].
    + injection Hl as ->. exists (min k (length l)).
      split; [rewrite length_app; lia|]. rewrite line_start_0.
      rewrite take_app_le by lia.
      destruct (Nat.le_gt_cases k (length l)).
      * now rewrite Nat.min_l by lia.
      * rewrite Nat.min_r by lia. now rewrite !take_ge by lia.
    + destruct (IH i Hl) as (n & Hn & Hlen).
      exists (length l0 + S n)%nat. split.
      * rewrite length_app. simpl length. simpl in Hn. lia.
      * rewrite take_app_ge by lia.
        replace (length l0 + S n - length l0)%nat with (S n) by lia.
        cbn [take]. rewrite utf8_len_app, utf8_len_cons, utf8_len_newline, Hlen.
        rewrite line_start_S. lia.
Qed.

Lemma line_boundary_is_boundary content i l k :
  str_split_nl content !! i = Some l ->
  char_boundary content
    (line_start (str_split_nl content) i + utf8_len (take k l)).
Proof.
  intros Hl. destruct (line_boundary_in_buffer _ i l k Hl) as (n & Hn & Hlen).
  rewrite join_split in *. exists n. split; [exact Hn | now rewrite Hlen].
Qed.

(** The reverse conversion at a character boundary, given by its line and
    the prefix of the line before it. *)
Lemma byte_offset_to_lsp_position_at content i l k :
  utf8_text content -> str_split_nl content !! i = Some l ->
  byte_offset_to_lsp_position content
    (line_start (str_split_nl content) i + utf8_len (take k l))
  = Ok (Z.of_nat i, utf16_units (take k l)).
Proof.
  intros Hv Hl.
  pose proof (str_split_nl_nonempty content) as Hne.
  pose proof (join_split content) as Hjoin.
  pose proof (utf8_text_split content Hv) as Hlines.
  unfold byte_offset_to_lsp_position.
  rewrite str_encode_utf8_ok, bind_Ok by assumption.
  fold (utf8_len content).
  destruct (Z.leb_spec (utf8_len content)
              (line_start (str_split_nl content) i + utf8_len (take k l)))
    as [Hge|Hlt].
  - rewrite bool_decide_eq_false_2 by assumption.
    destruct (last (str_split_nl content)) as [ll|] eqn:Hlast;
      [|apply last_None in Hlast; congruence].
    rewrite (py_index_last _ _ Hlast), bind_Ok.
    pose proof (utf8_len_join _ _ Hlast) as Htot. rewrite Hjoin in Htot.
    pose proof (lookup_lt_Some _ _ _ Hl) as Hi.
    pose proof (utf8_len_take_le k l) as Hle.
    assert (i = (length (str_split_nl content) - 1)%nat) as Hilast.
    { destruct (decide (i = (length (str_split_nl content) - 1)%nat));
        [assumption|exfalso].
      pose proof (line_start_snoc _ _ _ Hl) as Hs.
      assert (S i <= length (str_split_nl content) - 1)%nat as Hsi
        by (unfold text in *; lia).
      pose proof (line_start_mono (str_split_nl content) _ _ Hsi).
      pose proof (utf8_len_nonneg ll). lia. }
    assert (ll = l) as ->.
    { rewrite last_lookup in Hlast. unfold text in *.
      rewrite <- Nat.sub_1_r, <- Hilast, Hl in Hlast. now injection Hlast. }
    assert (take k l = l) as Hfull.
    { rewrite <- (take_drop k l) at 2.
      rewrite (utf8_len_zero (drop k l)); [now rewrite app_nil_r|].
      pose proof (utf8_len_app (take k l) (drop k l)) as Happ.
      rewrite take_drop in Happ. pose proof (utf8_len_nonneg (drop k l)).
      rewrite <- Hilast in Htot. lia. }
    rewrite Hfull.
    rewrite str_encode_utf16le_ok, bind_Ok
      by (eapply Forall_lookup_1; eassumption).
    fold (utf16_units l). do 2 f_equal. unfold len, text in *. lia.
  - rewrite (line_loop_found _ i l k 0 _ 0 Hlines Hl), bind_Ok by lia.
    do 2 f_equal.
Qed.

End codec_more.

(** X1. Position to offset and back: for a line of the buffer and a column
    that is the UTF-16 length of a prefix of that line,
    [lsp_position_to_byte_offset] followed by [byte_offset_to_lsp_position]
    returns the position. *)
Theorem position_round_trip (content : Codec.text) (i k : nat) (l : Codec.text) :
  Codec.utf8_text content ->
  Codec.str_split_nl content !! i = Some l ->
  exists b,
    Codec.lsp_position_to_byte_offset content (Z.of_nat i)
      (Codec.utf16_units (take k l)) = Ok b /\
    Codec.byte_offset_to_lsp_position content b
    = Ok (Z.of_nat i, Codec.utf16_units (take k l)).
Proof.
  intros Hv Hl. eexists. split.
  - rewrite (lsp_position_to_byte_offset_line content i l) by auto.
    assert (Codec.utf8_text l) as Hvl
      by (eapply Forall_lookup_1; [apply utf8_text_split|]; eassumption).
    pose proof (column_loop_prefix l k 0 0 Hvl) as Hcol.
    rewrite !Z.add_0_l in Hcol. rewrite Hcol, bind_Ok. reflexivity.
  - now apply byte_offset_to_lsp_position_at.
Qed.

Lemma position_round_trip_witness :
  exists b,
    Codec.lsp_position_to_byte_offset [72; 105; 10; 0x1F642; 0xE9; 10; 33]
      (Z.of_nat 1) (Codec.utf16_units (take 1 [0x1F642; 0xE9])) = Ok b /\
    Codec.byte_offset_to_lsp_position [72; 105; 10; 0x1F642; 0xE9; 10; 33] b
    = Ok (Z.of_nat 1, Codec.utf16_units (take 1 [0x1F642; 0xE9])).
Proof.
  apply (position_round_trip [72; 105; 10; 0x1F642; 0xE9; 10; 33] 1 1
           [0x1F642; 0xE9]); reflexivity.
Defined.

(** X2. Whatever the column, also one inside a surrogate pair or a negative
    one, the offset that [lsp_position_to_byte_offset] returns for a line
    that is not negative is a character boundary of the buffer, between 0
    and the byte length of the buffer. *)
Theorem lsp_position_to_byte_offset_boundary
    (content : Codec.text) (line col : Z) :
  Codec.utf8_text content -> 0 <= line ->
  exists b,
    Codec.lsp_position_to_byte_offset content line col = Ok b /\
    Codec.char_boundary content b /\
    0 <= b <= Codec.utf8_len content.
Proof.
  intros Hv Hline.
  assert (exists b, Codec.lsp_position_to_byte_offset content line col = Ok b /\
                    Codec.char_boundary content b) as (b & Hb & Hbound).
  { destruct (Z.le_gt_cases (len (Codec.str_split_nl content)) line) as [Hge|Hlt].
    - unfold Codec.lsp_position_to_byte_offset.
      destruct (Z.leb_spec (len (Codec.str_split_nl content)) line); [|lia].
      rewrite str_encode_utf8_ok, bind_Ok by assumption.
      eexists. split; [reflexivity|].
      exists (length content). split; [lia|]. now rewrite take_ge by lia.
    - destruct (lookup_lt_is_Some_2 (Codec.str_split_nl content) (Z.to_nat line))
        as [l Hl]; [unfold len in Hlt; lia|].
      rewrite <- (Z2Nat.id line) by lia.
      rewrite (lsp_position_to_byte_offset_line content _ l) by auto.
      assert (Codec.utf8_text l) as Hvl
        by (eapply Forall_lookup_1; [apply utf8_text_split|]; eassumption).
      destruct (column_loop_least l col 0 0 Hvl) as (k & Hk & Hrun).
      rewrite Hrun, bind_Ok, Z.add_0_l.
      eexists. split; [reflexivity|]. now apply line_boundary_is_boundary. }
  exists b. split; [exact Hb|]. split; [exact Hbound|].
  destruct Hbound as (n & Hn & ->).
  split; [apply utf8_len_nonneg | apply utf8_len_take_le].
Qed.

Lemma lsp_position_to_byte_offset_boundary_witness :
  exists b,
    Codec.lsp_position_to_byte_offset [72; 105; 10; 0x1F642; 0xE9; 10; 33] 1 1
    = Ok b /\
    Codec.char_boundary [72; 105; 10; 0x1F642; 0xE9; 10; 33] b /\
    0 <= b <= Codec.utf8_len [72; 105; 10; 0x1F642; 0xE9; 10; 33].
Proof.
  apply (lsp_position_to_byte_offset_boundary
           [72; 105; 10; 0x1F642; 0xE9; 10; 33] 1 1); [reflexivity | lia].
Defined.

(** X3. The column is rounded up to a character: the offset returned for a
    line of the buffer is the start of the line plus the bytes of the
    shortest prefix of the line whose UTF-16 length reaches the column (the
    whole line if none does); a column inside a surrogate pair gives the end
    of that character, a column that is zero or negative the start of the
    line. *)
Theorem lsp_position_column_rounds_up
    (content : Codec.text) (i k : nat) (l : Codec.text) (col : Z) :
  Codec.utf8_text content ->
  Codec.str_split_nl content !! i = Some l ->
  (k <= length l)%nat ->
  ((0 < k)%nat -> Codec.utf16_units (take (k - 1) l) < col) ->
  ((k < length l)%nat -> col <= Codec.utf16_units (take k l)) ->
  Codec.lsp_position_to_byte_offset content (Z.of_nat i) col
  = Ok (Codec.line_start (Codec.str_split_nl content) i
        + Codec.utf8_len (take k l)).
Proof.
  intros Hv Hl Hk Hlt Hge.
  rewrite (lsp_position_to_byte_offset_line content i l) by auto.
  assert (Codec.utf8_text l) as Hvl
    by (eapply Forall_lookup_1; [apply utf8_text_split|]; eassumption).
  rewrite (column_loop_stop l k col 0 0 Hvl Hk), bind_Ok.
  - f_equal; lia.
  - intros j Hj. specialize (Hlt ltac:(lia)).
    pose proof (utf16_units_take_mono j (k - 1) l ltac:(lia)). lia.
  - intros Hk'. specialize (Hge Hk'). lia.
Qed.

Lemma lsp_position_column_rounds_up_witness :
  Codec.lsp_position_to_byte_offset [72; 105; 10; 0x1F642; 0xE9; 10; 33]
    (Z.of_nat 1) 1
  = Ok (Codec.line_start
          (Codec.str_split_nl [72; 105; 10; 0x1F642; 0xE9; 10; 33]) 1
        + Codec.utf8_len (take 1 [0x1F642; 0xE9])).
Proof.
  apply (lsp_position_column_rounds_up [72; 105; 10; 0x1F642; 0xE9; 10; 33]
           1 1 [0x1F642; 0xE9] 1).
  - reflexivity.
  - reflexivity.
  - simpl. lia.
  - intros _. vm_compute. reflexivity.
  - intros _. vm_compute. discriminate.
Defined.

Section codec_truncation.
Import Codec.

Ltac by_length :=
  unfold utf8_encode_char;
  repeat match goal with
  | |- context [if ?a <? ?b then _ else _] => destruct (Z.ltb_spec a b)
  end.

Ltac bytes_lia := Z.div_mod_to_equations; lia.

(** The decoder drops a character that the end of the data cuts. *)
Lemma decode_truncated_char c n :
  is_scalar c = true -> (n < length (utf8_encode_char c))%nat ->
  bytes_decode_utf8_ignore (take n (utf8_encode_char c)) = [].
Proof.
  intros Hc. apply is_scalar_spec in Hc. by_length; intros Hn;
    simpl in Hn; destruct n as [|[|[|[|n]]]]; try lia;
    cbn [take bytes_decode_utf8_ignore]; try reflexivity;
    unfold is_continuation;
    repeat match goal with
    | |- context [?a <? ?b] =>
        destruct (Z.ltb_spec a b); try (exfalso; bytes_lia)
    | |- context [?a <=? ?b] =>
        destruct (Z.leb_spec a b); try (exfalso; bytes_lia)
    | |- context [?a =? ?b] =>
        destruct (Z.eqb_spec a b); try (exfalso; bytes_lia)
    | |- _ => progress cbn [negb orb andb]
    end;
    reflexivity.
Qed.

Lemma decode_encode_app s rest :
  utf8_text s ->
  bytes_decode_utf8_ignore (flat_map utf8_encode_char s ++ rest)
  = s ++ bytes_decode_utf8_ignore rest.
Proof.
  induction s as [|c s IH]; [reflexivity|].
  rewrite utf8_text_cons. intros [Hc Hs]. cbn [flat_map].
  rewrite <- app_assoc, decode_encode_char by assumption.
  now rewrite IH.
Qed.

(** Cutting the encoding of a line inside a character leaves the characters
    before it. *)
Lemma decode_slice_inside l k c j :
  utf8_text l -> l !! k = Some c -> 0 <= j < utf8_len [c] ->
  bytes_decode_utf8_ignore
    (py_slice_to (flat_map utf8_encode_char l) (utf8_len (take k l) + j))
  = take k l.
Proof.
  intros Hv Hk Hj.
  assert (l = take k l ++ c :: drop (S k) l) as Hsplit
    by (now rewrite <- (take_drop_middle l k c Hk) at 1).
  assert (is_scalar c = true) as Hc.
  { rewrite Hsplit in Hv. apply utf8_text_app in Hv as [_ Hv].
    now apply utf8_text_cons in Hv as [Hc _]. }
  unfold py_slice_to. pose proof (utf8_len_nonneg (take k l)).
  destruct (Z.leb_spec 0 (utf8_len (take k l) + j)); [|lia].
  assert (flat_map utf8_encode_char l
          = flat_map utf8_encode_char (take k l)
            ++ utf8_encode_char c ++ flat_map utf8_encode_char (drop (S k) l))
    as ->.
  { transitivity (flat_map utf8_encode_char (take k l ++ c :: drop (S k) l));
      [now rewrite take_drop_middle | now rewrite flat_map_app]. }
  rewrite take_app_ge by (unfold utf8_len, len in *; lia).
  replace (Z.to_nat (utf8_len (take k l) + j)
           - length (flat_map utf8_encode_char (take k l)))%nat
    with (Z.to_nat j) by (unfold utf8_len, len in *; lia).
  rewrite take_app_le
    by (unfold utf8_len, len in Hj; simpl in Hj; rewrite app_nil_r in Hj; lia).
  rewrite decode_encode_app by (now apply utf8_text_take).
  rewrite decode_truncated_char; [now rewrite app_nil_r | exact Hc |].
  unfold utf8_len, len in Hj. simpl in Hj. rewrite app_nil_r in Hj. lia.
Qed.

(** The line scan of the reverse direction, for any offset of a line. *)
Lemma line_loop_at ls i l m n cb :
  Forall utf8_text ls -> ls !! i = Some l -> 0 <= m <= utf8_len l ->
  line_loop ls n (cb + line_start ls i + m) cb
  = (u ← str_encode_utf16le
           (bytes_decode_utf8_ignore (py_slice_to (flat_map utf8_encode_char l) m));
     Ok (Some (n + Z.of_nat i, len u / 2))).
Proof.
  intros Hv. revert i n cb.
  induction Hv as [|l0 rest Hl0 Hrest IH]; intros i n cb Hl Hm;
    [discriminate|].
  cbn [line_loop]. rewrite str_encode_utf8_ok, !bind_Ok by assumption.
  fold (utf8_len l0). destruct i as [|i].
  - simpl in Hl. injection Hl as ->. rewrite line_start_0.
    destruct (Z.leb_spec (cb + 0 + m) (cb + utf8_len l)); [|lia].
    replace (cb + 0 + m - cb) with m by lia.
    replace (n + Z.of_nat 0) with n by lia. reflexivity.
  - simpl in Hl. rewrite line_start_S.
    pose proof (line_start_nonneg rest i).
    destruct (Z.leb_spec (cb + (utf8_len l0 + 1 + line_start rest i) + m)
                (cb + utf8_len l0)); [lia|].
    replace (cb + (utf8_len l0 + 1 + line_start rest i) + m)
      with (cb + (utf8_len l0 + 1) + line_start rest i + m) by lia.
    rewrite (IH i (n + 1) (cb + (utf8_len l0 + 1)) Hl Hm).
    replace (n + 1 + Z.of_nat i) with (n + Z.of_nat (S i)) by lia.
    reflexivity.
Qed.

(** An offset of a line lies in one character of the line, or at its end. *)
Lemma prefix_before l m :
  0 <= m <= utf8_len l ->
  exists k, (k <= length l)%nat /\ utf8_len (take k l) <= m /\
    ((k < length l)%nat -> m < utf8_len (take (S k) l)) /\
    (k = length l -> m = utf8_len l).
Proof.
  revert m. induction l as [|c l IH]; intros m Hm.
  - exists 0%nat. rewrite utf8_len_nil in *. simpl.
    repeat split; try lia. rewrite utf8_len_nil. lia.
  - rewrite utf8_len_cons in Hm. pose proof (utf8_len_char c).
    destruct (Z.lt_ge_cases m (utf8_len [c])) as [Hlt|Hge].
    + exists 0%nat. cbn [take length]. rewrite utf8_len_nil.
      repeat split; try lia. intros _. rewrite take_0, app_nil_r || idtac.
      cbn [take]. exact Hlt.
    + destruct (IH (m - utf8_len [c]) ltac:(lia)) as (k & Hk & Hle & Hnext & Hend).
      exists (S k). cbn [take length].
      rewrite (utf8_len_cons c (take k l)).
      repeat split; try lia.
      * intros Hk'. rewrite (utf8_len_cons c (take (S k) l)).
        specialize (Hnext ltac:(lia)). lia.
      * intros Hk'. rewrite (utf8_len_cons c l).
        specialize (Hend ltac:(lia)). lia.
Qed.

(** An offset of the buffer is an offset of one of its lines. *)
Lemma offset_in_line ls b :
  ls <> [] -> 0 <= b <= utf8_len (join_nl ls) ->
  exists i l m, ls !! i = Some l /\ 0 <= m <= utf8_len l /\
    b = line_start ls i + m.
Proof.
  revert b. induction ls as [|l ls IH]; intros b Hne Hb; [congruence|].
  destruct ls as [|l' ls].
  - exists 0%nat, l, b. cbn [join_nl] in Hb. rewrite line_start_0.
    repeat split; try lia; reflexivity.
  - rewrite join_nl_cons, utf8_len_app, utf8_len_cons, utf8_len_newline in Hb.
    destruct (Z.le_gt_cases b (utf8_len l)) as [Hle|Hgt].
    + exists 0%nat, l, b. rewrite line_start_0.
      repeat split; try lia; reflexivity.
    + destruct (IH (b - utf8_len l - 1) ltac:(discriminate) ltac:(lia))
        as (i & li & m & Hli & Hm & Hbm).
      exists (S i), li, m. rewrite line_start_S.
      repeat split; try lia; exact Hli.
Qed.

End codec_truncation.

Section codec_reverse.
Import Codec.

Lemma line_end_le_total content i l :
  str_split_nl content !! i = Some l ->
  line_start (str_split_nl content) i + utf8_len l <= utf8_len content.
Proof.
  intros Hl. destruct (line_boundary_in_buffer _ i l (length l) Hl)
    as (n & Hn & Hlen).
  rewrite join_split, (take_ge l) in Hlen by lia. rewrite <- Hlen.
  apply utf8_len_take_le.
Qed.

(** The reverse conversion of an offset before the end of the buffer, given
    by its line and the offset within the line. *)
Lemma byte_offset_to_lsp_position_in_line content i l m :
  utf8_text content -> str_split_nl content !! i = Some l ->
  0 <= m <= utf8_len l ->
  line_start (str_split_nl content) i + m < utf8_len content ->
  byte_offset_to_lsp_position content (line_start (str_split_nl content) i + m)
  = (u ← str_encode_utf16le
           (bytes_decode_utf8_ignore (py_slice_to (flat_map utf8_encode_char l) m));
     Ok (Z.of_nat i, len u / 2)).
Proof.
  intros Hv Hl Hm Hlt. unfold byte_offset_to_lsp_position.
  rewrite str_encode_utf8_ok, bind_Ok by assumption. fold (utf8_len content).
  destruct (Z.leb_spec (utf8_len content)
              (line_start (str_split_nl content) i + m)); [lia|].
  pose proof (line_loop_at (str_split_nl content) i l m 0 0
                (utf8_text_split _ Hv) Hl Hm) as Hloop.
  rewrite Z.add_0_l in Hloop. rewrite Hloop.
  destruct (str_encode_utf16le _); reflexivity.
Qed.

Lemma byte_offset_to_lsp_position_inside content i l k c j :
  utf8_text content -> str_split_nl content !! i = Some l ->
  l !! k = Some c -> 0 <= j < utf8_len [c] ->
  byte_offset_to_lsp_position content
    (line_start (str_split_nl content) i + (utf8_len (take k l) + j))
  = Ok (Z.of_nat i, utf16_units (take k l)).
Proof.
  intros Hv Hl Hk Hj.
  assert (utf8_text l) as Hvl
    by (eapply Forall_lookup_1; [apply utf8_text_split|]; eassumption).
  assert (utf8_len (take (S k) l) = utf8_len (take k l) + utf8_len [c]) as HS
    by (rewrite (take_S_r l k c Hk), utf8_len_app; reflexivity).
  pose proof (utf8_len_take_le (S k) l).
  pose proof (utf8_len_nonneg (take k l)).
  pose proof (line_end_le_total content i l Hl).
  rewrite (byte_offset_to_lsp_position_in_line content i l
             (utf8_len (take k l) + j)) by (auto; lia).
  rewrite (decode_slice_inside l k c j Hvl Hk Hj).
  rewrite str_encode_utf16le_ok, bind_Ok by (now apply utf8_text_take).
  reflexivity.
Qed.

End codec_reverse.

(** X4. A negative line index is not refused: an index that Python's
    negative indexing still reaches takes the line counted from the end but
    no bytes for the lines before it, so a column at or past the end of that
    line gives the byte length of the line alone; an index before that
    raises [IndexError]. *)
Theorem lsp_position_negative_line (content : Codec.text) (line col : Z) :
  Codec.utf8_text content ->
  (line < - len (Codec.str_split_nl content) ->
   Codec.lsp_position_to_byte_offset content line col = Raise IndexError) /\
  (forall l,
     - len (Codec.str_split_nl content) <= line < 0 ->
     Codec.str_split_nl content
       !! Z.to_nat (len (Codec.str_split_nl content) + line) = Some l ->
     Codec.utf16_units l <= col ->
     Codec.lsp_position_to_byte_offset content line col
     = Ok (Codec.utf8_len l)).
Proof.
  intros Hv. pose proof (len_nonneg (Codec.str_split_nl content)) as Hlen.
  split.
  - intros Hline. unfold Codec.lsp_position_to_byte_offset.
    destruct (Z.leb_spec (len (Codec.str_split_nl content)) line); [lia|].
    rewrite seqZ_nil by lia. cbn [Codec.line_start_loop]. rewrite bind_Ok.
    unfold py_index. destruct (Z.ltb_spec line 0); [|lia].
    destruct (Z.ltb_spec (len (Codec.str_split_nl content) + line) 0); [|lia].
    reflexivity.
  - intros l Hline Hl Hcol. unfold Codec.lsp_position_to_byte_offset.
    destruct (Z.leb_spec (len (Codec.str_split_nl content)) line); [lia|].
    rewrite seqZ_nil by lia. cbn [Codec.line_start_loop]. rewrite bind_Ok.
    unfold py_index. destruct (Z.ltb_spec line 0); [|lia].
    destruct (Z.ltb_spec (len (Codec.str_split_nl content) + line) 0); [lia|].
    rewrite Hl, bind_Ok.
    assert (Codec.utf8_text l) as Hvl
      by (eapply Forall_lookup_1; [apply utf8_text_split|]; eassumption).
    rewrite column_loop_saturate, bind_Ok by (auto; lia). reflexivity.
Qed.

Lemma lsp_position_negative_line_witness :
  Codec.lsp_position_to_byte_offset [72; 105; 10; 0x1F642; 0xE9; 10; 33] (-4) 0
  = Raise IndexError.
Proof.
  apply (proj1 (lsp_position_negative_line
                  [72; 105; 10; 0x1F642; 0xE9; 10; 33] (-4) 0 eq_refl)).
  vm_compute. reflexivity.
Defined.

(** X5. An offset inside a multi-byte character is rounded down: for an
    offset that falls after the first byte of a character of a line,
    [byte_offset_to_lsp_position] returns that line and the UTF-16 column at
    which the character starts. *)
Theorem byte_offset_inside_character
    (content : Codec.text) (i k : nat) (l : Codec.text) (c j : Z) :
  Codec.utf8_text content ->
  Codec.str_split_nl content !! i = Some l ->
  l !! k = Some c ->
  0 <= j < Codec.utf8_len [c] ->
  Codec.byte_offset_to_lsp_position content
    (Codec.line_start (Codec.str_split_nl content) i
     + (Codec.utf8_len (take k l) + j))
  = Ok (Z.of_nat i, Codec.utf16_units (take k l)).
Proof. apply byte_offset_to_lsp_position_inside. Qed.

Lemma byte_offset_inside_character_witness :
  Codec.byte_offset_to_lsp_position [72; 105; 10; 0xE9; 0x1F642; 10; 33]
    (Codec.line_start
       (Codec.str_split_nl [72; 105; 10; 0xE9; 0x1F642; 10; 33]) 1
     + (Codec.utf8_len (take 1 [0xE9; 0x1F642]) + 2))
  = Ok (Z.of_nat 1, Codec.utf16_units (take 1 [0xE9; 0x1F642])).
Proof.
  apply (byte_offset_inside_character [72; 105; 10; 0xE9; 0x1F642; 10; 33]
           1 1 [0xE9; 0x1F642] 0x1F642 2); try reflexivity.
  vm_compute. split; [discriminate | reflexivity].
Defined.

(** X6. Offset to position and back, for any offset of the buffer: the
    result is the greatest character boundary that is not after the offset
    (the offset itself when it is a boundary). *)
Theorem offset_round_trip_rounds_down (content : Codec.text) (b : Z) :
  Codec.utf8_text content ->
  0 <= b <= Codec.utf8_len content ->
  exists line col b',
    Codec.byte_offset_to_lsp_position content b = Ok (line, col) /\
    Codec.lsp_position_to_byte_offset content line col = Ok b' /\
    Codec.char_boundary content b' /\
    b' <= b /\
    (forall b'', Codec.char_boundary content b'' -> b'' <= b -> b'' <= b').
Proof.
  intros Hv Hb.
  pose proof (str_split_nl_nonempty content) as Hne.
  pose proof (join_split content) as Hjoin.
  destruct (offset_in_line (Codec.str_split_nl content) b Hne)
    as (i & l & m & Hl & Hm & ->); [now rewrite Hjoin|].
  destruct (prefix_before l m Hm) as (k & Hk & Hle & Hnext & Hend).
  assert (Codec.utf8_text l) as Hvl
    by (eapply Forall_lookup_1; [apply utf8_text_split|]; eassumption).
  assert (Codec.byte_offset_to_lsp_position content
            (Codec.line_start (Codec.str_split_nl content) i + m)
          = Ok (Z.of_nat i, Codec.utf16_units (take k l))) as Hrev.
  { destruct (decide (k = length l)) as [Hklen|Hklen].
    - rewrite (Hend Hklen). rewrite <- (take_ge l k) at 1 by lia.
      now apply byte_offset_to_lsp_position_at.
    - destruct (lookup_lt_is_Some_2 l k) as [c Hc]; [lia|].
      specialize (Hnext ltac:(lia)).
      rewrite (take_S_r l k c Hc), utf8_len_app in Hnext.
      replace m with (Codec.utf8_len (take k l) + (m - Codec.utf8_len (take k l)))
        by lia.
      apply (byte_offset_to_lsp_position_inside content i l k c); auto. lia. }
  exists (Z.of_nat i), (Codec.utf16_units (take k l)),
    (Codec.line_start (Codec.str_split_nl content) i + Codec.utf8_len (take k l)).
  split; [exact Hrev|]. split.
  { rewrite (lsp_position_to_byte_offset_line content i l) by auto.
    pose proof (column_loop_prefix l k 0 0 Hvl) as Hcol.
    rewrite !Z.add_0_l in Hcol. rewrite Hcol, bind_Ok. reflexivity. }
  split; [now apply line_boundary_is_boundary|]. split; [lia|].
  intros b'' (n'' & Hn'' & ->) Hb''.
  destruct (boundary_in_line (Codec.str_split_nl content) n'' Hne)
    as (i2 & l2 & k2 & Hl2 & Hrep).
  rewrite Hjoin in Hrep. rewrite Hrep in *.
  pose proof (utf8_len_nonneg (take k2 l2)) as Hnn2.
  pose proof (utf8_len_take_le k2 l2) as Hle2.
  pose proof (utf8_len_nonneg (take k l)) as Hnn.
  destruct (Nat.lt_trichotomy i2 i) as [Hlt|[Heq|Hgt]].
  - pose proof (line_start_snoc _ _ _ Hl2) as Hs.
    pose proof (line_start_mono (Codec.str_split_nl content) (S i2) i ltac:(lia)).
    lia.
  - subst i2. unfold Codec.text in Hl, Hl2. rewrite Hl in Hl2.
    injection Hl2 as <-.
    destruct (Nat.le_gt_cases k2 k) as [Hk2|Hk2].
    + pose proof (utf8_len_take_mono k2 k l Hk2). lia.
    + pose proof (utf8_len_take_mono (S k) k2 l ltac:(lia)) as Hmono.
      destruct (decide (k = length l)) as [Hklen|Hklen].
      * rewrite (take_ge l k) by lia. lia.
      * specialize (Hnext ltac:(lia)). lia.
  - pose proof (line_start_snoc _ _ _ Hl) as Hs.
    pose proof (line_start_mono (Codec.str_split_nl content) (S i) i2 ltac:(lia)).
    lia.
Qed.

Lemma offset_round_trip_rounds_down_witness :
  exists line col b',
    Codec.byte_offset_to_lsp_position [72; 105; 10; 0xE9; 0x1F642; 10; 33] 7
    = Ok (line, col) /\
    Codec.lsp_position_to_byte_offset [72; 105; 10; 0xE9; 0x1F642; 10; 33]
      line col = Ok b' /\
    Codec.char_boundary [72; 105; 10; 0xE9; 0x1F642; 10; 33] b' /\
    b' <= 7 /\
    (forall b'', Codec.char_boundary [72; 105; 10; 0xE9; 0x1F642; 10; 33] b'' ->
                 b'' <= 7 -> b'' <= b').
Proof.
  apply (offset_round_trip_rounds_down [72; 105; 10; 0xE9; 0x1F642; 10; 33] 7).
  - reflexivity.
  - vm_compute. split; discriminate.
Defined.

(** * Further properties of the spatial index *)

Section index_more.

Lemma sort_foldr_sorted_id {A} (lt : A -> A -> bool) l :
  StronglySorted (not_after lt) l -> foldr (sort_insert lt) [] l = l.
Proof.
  induction 1 as [|x l Hl IH Hx]; [reflexivity|]. cbn [foldr]. rewrite IH.
  destruct l as [|y l]; [reflexivity|]. cbn [sort_insert].
  apply Forall_cons in Hx as [Hxy _]. unfold not_after in Hxy. now rewrite Hxy.
Qed.

Lemma finalize_sort_idempotent l :
  sort_by_key (fun x => (start_byte x, - depth x)) pair_lt
    (sort_by_key (fun x => (start_byte x, - depth x)) pair_lt l)
  = sort_by_key (fun x => (start_byte x, - depth x)) pair_lt l.
Proof.
  unfold sort_by_key at 1. apply sort_foldr_sorted_id.
  apply (sort_foldr_sorted
           (fun a b => pair_lt (start_byte a, - depth a) (start_byte b, - depth b))).
  - intros a b. apply pair_lt_asym.
  - unfold not_after. intros a b c. rewrite !pair_lt_false. simpl. lia.
Qed.

Lemma finalize_bucket' self f :
  bucket (finalize_index self) f
  = sort_by_key (fun x => (start_byte x, - depth x)) pair_lt (bucket self f).
Proof.
  unfold bucket. rewrite finalize_bucket.
  destruct (file_nodes self !! f); reflexivity.
Qed.

Lemma finalize_bucket_perm self f :
  bucket (finalize_index self) f ≡ₚ bucket self f.
Proof. rewrite finalize_bucket'. apply sort_by_key_perm. Qed.

Lemma filter_bool_perm {A} (f : A -> bool) l l' :
  l ≡ₚ l' -> List.filter f l ≡ₚ List.filter f l'.
Proof.
  induction 1 as [|x l l' H IH|x y l|l1 l2 l3 H1 IH1 H2 IH2]; simpl.
  - reflexivity.
  - destruct (f x); [now constructor | assumption].
  - destruct (f x), (f y); try reflexivity. apply Permutation_swap.
  - now transitivity (List.filter f l2).
Qed.

End index_more.

(** X7. [finalize_index] is idempotent: running it again leaves the index as
    it is. *)
Theorem finalize_index_idempotent (self : PositionIndex) :
  finalize_index (finalize_index self) = finalize_index self.
Proof.
  unfold finalize_index. cbn [file_nodes node_by_id file_id_to_path].
  f_equal. apply map_eq. intros f. rewrite !lookup_fmap.
  destruct (file_nodes self !! f) as [l|]; [|reflexivity].
  cbn. f_equal. apply finalize_sort_idempotent.
Qed.

(** X8. The node that [find_innermost_node] returns is an entry of the file
    that holds the offset and is at least as deep as every entry of the file
    that holds it; it returns none exactly when no entry of the file holds
    the offset (in particular for a file without entries). *)
Theorem find_innermost_node_deepest (self : PositionIndex) (fid off : Z) :
  (forall e, find_innermost_node self fid off = Some e ->
     e ∈ bucket self fid /\ start_byte e <= off < end_byte e /\
     forall e', e' ∈ bucket self fid -> start_byte e' <= off < end_byte e' ->
                depth e' <= depth e) /\
  (find_innermost_node self fid off = None <->
   forall e, e ∈ bucket self fid -> ~ (start_byte e <= off < end_byte e)).
Proof.
  pose proof (depth_sort_sorted
                (List.filter (contains_offset off) (bucket self fid))) as Hsorted.
  pose proof (sort_by_key_perm (fun x => - depth x) Z.ltb
                (List.filter (contains_offset off) (bucket self fid))) as Hperm.
  unfold find_innermost_node. rewrite find_nodes_at_position_bucket.
  fold (bucket self fid).
  assert (forall e, e ∈ sort_by_key (fun x => - depth x) Z.ltb
                      (List.filter (contains_offset off) (bucket self fid))
                    <-> e ∈ bucket self fid /\ start_byte e <= off < end_byte e)
    as Hin.
  { intros e. rewrite Hperm, list_elem_of_In, filter_In, contains_offset_spec.
    now rewrite <- list_elem_of_In. }
  destruct (sort_by_key _ _ _) as [|e0 rest].
  - split; [discriminate|]. split; [|reflexivity].
    intros _ e He Hoff. apply (elem_of_nil e), Hin. auto.
  - split.
    + intros e [= <-]. destruct (proj1 (Hin e0)) as [He Hoff]; [constructor|].
      split; [exact He|]. split; [exact Hoff|].
      intros e' He' Hoff'. apply StronglySorted_inv in Hsorted as [_ Hall].
      assert (e' ∈ e0 :: rest) as Hmem by (apply Hin; auto).
      apply elem_of_cons in Hmem as [->|Hmem]; [lia|].
      apply (proj1 (Forall_forall _ _) Hall e' Hmem).
    + split; [discriminate|]. intros Hnone. exfalso.
      destruct (proj1 (Hin e0)) as [He Hoff]; [constructor|].
      exact (Hnone e0 He Hoff).
Qed.

(** X9. [finalize_index] changes no answer: for every file and offset the
    nodes found after it are the nodes found before it, and the id map and
    the path table are untouched. *)
Theorem finalize_index_preserves_lookups (self : PositionIndex) (fid off : Z) :
  find_nodes_at_position (finalize_index self) fid off
    ≡ₚ find_nodes_at_position self fid off /\
  node_by_id (finalize_index self) = node_by_id self /\
  file_id_to_path (finalize_index self) = file_id_to_path self.
Proof.
  split; [|split; reflexivity].
  rewrite !find_nodes_at_position_bucket, !sort_by_key_perm.
  fold (bucket (finalize_index self) fid). fold (bucket self fid).
  apply filter_bool_perm, finalize_bucket_perm.
Qed.

(** * Further properties of the indexer *)

Section walk_more.

Lemma index_current_node_adds kvs d s s1 :
  index_current_node kvs d s = Ok s1 ->
  s1 = s \/ exists e, s1 = add_node s e /\ entry_describes kvs d e.
Proof.
  unfold index_current_node. intros H.
  destruct (contains "src" kvs && contains "id" kvs) eqn:Hc;
    [|injection H as <-; now left].
  apply andb_true_iff in Hc as [_ Hid]. unfold contains in Hid.
  destruct (assoc "id" kvs) as [id|] eqn:Eid; [|discriminate].
  destruct (assoc "src" kvs) as [[ |b|n|src|items|skvs]|] eqn:Esrc;
    try discriminate.
  apply bind_Ok_inv in H as (src_info & Hparse & H).
  destruct src_info as [[[st ln] nf]|]; [|injection H as <-; now left].
  apply bind_Ok_inv in H as (k & Hk & H). injection H as <-. right.
  eexists. split; [reflexivity|].
  exists src, st, ln, nf, id. cbn [node_id]. repeat split; assumption.
Qed.

Lemma added_by_below kvs d key value child e :
  (key, value) ∈ kvs -> recursed_child key value child ->
  added_by child (d + 1) e -> added_by (JDict kvs) d e.
Proof.
  intros Hin Hrec (ckvs & dd & Hvis & Hdesc). exists ckvs, dd.
  split; [|exact Hdesc]. eapply visited_below; eauto.
Qed.

Lemma walk_traced_deep node :
  walk_traced node /\
  (forall children, node = JList children -> Forall walk_traced children).
Proof.
  induction node as [ | b | n | s | items IH | kvs IH ] using json_deep_ind;
    try (split; [intros fid depth s0 s' H; injection H as <-; exists [];
                 split; [reflexivity | constructor]
                |intros children Hc; discriminate]).
  - split.
    + intros fid depth s0 s' H. injection H as <-. exists [].
      split; [reflexivity | constructor].
    + intros children [= <-]. eapply Forall_impl; [exact IH|].
      intros c [Hc _]. exact Hc.
  - split; [|intros children Hc; discriminate].
    intros fid depth s0 s' H. rewrite _index_ast_nodes_unfold in H.
    apply bind_Ok_inv in H as (s1 & H1 & H).
    assert (exists entries0, s1 = foldl add_node s0 entries0 /\
              Forall (added_by (JDict kvs) depth) entries0)
      as (entries0 & -> & Hall0).
    { apply index_current_node_adds in H1 as [->|(e & -> & Hdesc)].
      - exists []. split; [reflexivity | constructor].
      - exists [e]. split; [reflexivity|]. repeat constructor.
        exists kvs, depth. split; [constructor | exact Hdesc]. }
    assert (forall its,
              (forall kv, kv ∈ its -> kv ∈ kvs) ->
              forall s s',
                for_each
                  (fun kv self =>
                     index_child
                       (fun child self =>
                          _index_ast_nodes child fid (depth + 1) self)
                       kv.1 kv.2 self) its s = Ok s' ->
                exists entries, s' = foldl add_node s entries /\
                  Forall (added_by (JDict kvs) depth) entries) as Hloop.
    { induction its as [|[k v] its IHitems]; intros Hsub s s2 Hrun.
      - injection Hrun as <-. exists []. split; [reflexivity | constructor].
      - rewrite for_each_cons in Hrun.
        apply bind_Ok_inv in Hrun as (sa & Ha & Hrun). cbn [fst snd] in Ha.
        assert ((k, v) ∈ kvs) as Hkv by (apply Hsub; constructor).
        destruct (proj1 (Forall_forall _ _) IH (k, v) Hkv) as [Hv Hl].
        cbn [snd] in Hv, Hl.
        assert (exists entries, sa = foldl add_node s entries /\
                  Forall (added_by (JDict kvs) depth) entries)
          as (ea & -> & Halla).
        { unfold index_child in Ha.
          destruct (bool_decide (k ∈ child_list_keys)) eqn:Hk1.
          - destruct v as [ |b|n|sv|children|vkvs];
              try (injection Ha as <-; exists [];
                   split; [reflexivity | constructor]).
            specialize (Hl children eq_refl).
            assert (forall cs, (forall c, c ∈ cs -> c ∈ children) ->
                      forall s s',
                        for_each
                          (fun child self =>
                             _index_ast_nodes child fid (depth + 1) self) cs s
                        = Ok s' ->
                        exists entries, s' = foldl add_node s entries /\
                          Forall (added_by (JDict kvs) depth) entries) as Hcs.
            { induction cs as [|c cs IHcs]; intros Hcsub sx sy Hcrun.
              - injection Hcrun as <-. exists [].
                split; [reflexivity | constructor].
              - rewrite for_each_cons in Hcrun.
                apply bind_Ok_inv in Hcrun as (sm & Hm & Hcrun).
                assert (c ∈ children) as Hc by (apply Hcsub; constructor).
                destruct (proj1 (Forall_forall _ _) Hl c Hc _ _ _ _ Hm)
                  as (e1 & -> & Hall1).
                destruct (IHcs (fun x Hx => Hcsub x (list_elem_of_further _ _ _ Hx))
                            _ _ Hcrun) as (e2 & -> & Hall2).
                exists (e1 ++ e2). split; [now rewrite foldl_app|].
                apply Forall_app. split; [|exact Hall2].
                eapply Forall_impl; [exact Hall1|]. intros e He.
                eapply (added_by_below kvs depth k (JList children) c);
                  [exact Hkv | | exact He].
                unfold recursed_child. rewrite Hk1. eauto. }
            apply (Hcs children (fun c Hc => Hc) _ _ Ha).
          - destruct (bool_decide (k ∈ single_child_keys)) eqn:Hk2.
            + destruct v as [ |b|n|sv|vitems|vkvs];
                try (injection Ha as <-; exists [];
                     split; [reflexivity | constructor]).
              destruct (Hv _ _ _ _ Ha) as (e1 & -> & Hall1).
              exists e1. split; [reflexivity|].
              eapply Forall_impl; [exact Hall1|]. intros e He.
              eapply (added_by_below kvs depth k (JDict vkvs) (JDict vkvs));
                [exact Hkv | | exact He].
              unfold recursed_child. rewrite Hk1, Hk2. auto.
            + destruct v as [ |b|n|sv|vitems|vkvs];
                try (injection Ha as <-; exists [];
                     split; [reflexivity | constructor]).
              destruct (contains "nodeType" vkvs) eqn:Hnt;
                [|injection Ha as <-; exists [];
                  split; [reflexivity | constructor]].
              destruct (Hv _ _ _ _ Ha) as (e1 & -> & Hall1).
              exists e1. split; [reflexivity|].
              eapply Forall_impl; [exact Hall1|]. intros e He.
              eapply (added_by_below kvs depth k (JDict vkvs) (JDict vkvs));
                [exact Hkv | | exact He].
              unfold recursed_child. rewrite Hk1, Hk2. eauto. }
        destruct (IHitems (fun x Hx => Hsub x (list_elem_of_further _ _ _ Hx))
                    _ _ Hrun) as (eb & -> & Hallb).
        exists (ea ++ eb). split; [now rewrite foldl_app|].
        apply Forall_app. auto. }
    destruct (Hloop kvs (fun kv Hkv => Hkv) _ _ H) as (entries & -> & Hall).
    exists (entries0 ++ entries). split; [now rewrite foldl_app|].
    apply Forall_app. auto.
Qed.

Lemma _index_ast_nodes_traced node : walk_traced node.
Proof. apply walk_traced_deep. Qed.

End walk_more.

Section invariant_facts.

Lemma add_node_consistent s e :
  index_consistent s -> index_consistent (add_node s e).
Proof.
  intros [H1 H2]. split.
  - intros k x Hx. unfold add_node in Hx. cbn [node_by_id] in Hx.
    destruct (decide (node_id e = k)) as [<-|Hne].
    + rewrite lookup_insert_eq in Hx. injection Hx as <-.
      split; [reflexivity | apply add_node_elem].
    + rewrite lookup_insert_ne in Hx by assumption.
      destruct (H1 _ _ Hx) as [Hid Hin]. split; [exact Hid|].
      now apply add_node_le.
  - intros f x Hx.
    assert (is_Some (node_by_id s !! node_id x) ->
            is_Some (node_by_id (add_node s e) !! node_id x)) as Hkeep.
    { intros Hsome. unfold add_node. cbn [node_by_id].
      destruct (decide (node_id e = node_id x)) as [->|Hne].
      - rewrite lookup_insert_eq. eauto.
      - now rewrite lookup_insert_ne. }
    destruct (decide (f = file_id e)) as [->|Hne].
    + rewrite add_node_bucket' in Hx. apply elem_of_app in Hx as [Hx|Hx].
      * destruct (H2 _ _ Hx) as [Hf Hsome]. auto.
      * apply list_elem_of_singleton in Hx as ->. split; [reflexivity|].
        unfold add_node. cbn [node_by_id]. rewrite lookup_insert_eq. eauto.
    + rewrite add_node_bucket_other in Hx by assumption.
      destruct (H2 _ _ Hx) as [Hf Hsome]. auto.
Qed.

Lemma foldl_add_node_consistent entries s :
  index_consistent s -> index_consistent (foldl add_node s entries).
Proof.
  revert s. induction entries as [|e entries IH]; intros s Hs; [exact Hs|].
  cbn [foldl]. apply IH. now apply add_node_consistent.
Qed.

Lemma finalize_index_consistent s :
  index_consistent s -> index_consistent (finalize_index s).
Proof.
  intros [H1 H2]. split.
  - intros k x Hx. cbn [finalize_index node_by_id] in Hx.
    destruct (H1 _ _ Hx) as [Hid Hin]. split; [exact Hid|].
    now rewrite finalize_bucket_perm.
  - intros f x Hx. rewrite finalize_bucket_perm in Hx.
    destruct (H2 _ _ Hx) as [Hf Hsome]. split; [exact Hf | exact Hsome].
Qed.

Lemma empty_index_consistent : index_consistent empty_index.
Proof.
  split.
  - intros k e H. cbn in H. rewrite lookup_empty in H. discriminate.
  - intros f e H. unfold bucket in H. cbn in H. rewrite lookup_empty in H.
    cbn in H. now apply elem_of_nil in H.
Qed.

Lemma bucket_foldl_add_node entries s f e :
  e ∈ bucket (foldl add_node s entries) f ->
  e ∈ bucket s f \/ (e ∈ entries /\ file_id e = f).
Proof.
  revert s. induction entries as [|x entries IH]; intros s H; [now left|].
  cbn [foldl] in H. destruct (IH _ H) as [Hin|[Hin Hf]].
  - destruct (decide (f = file_id x)) as [->|Hne].
    + rewrite add_node_bucket' in Hin. apply elem_of_app in Hin as [Hin|Hin].
      * now left.
      * apply list_elem_of_singleton in Hin as ->. right.
        split; [constructor | reflexivity].
    + rewrite add_node_bucket_other in Hin by assumption. now left.
  - right. split; [now constructor | exact Hf].
Qed.

Lemma visited_depth node depth c d : visited node depth c d -> depth <= d.
Proof. induction 1; lia. Qed.

End invariant_facts.

(** X10. [add_node] touches one bucket and one id: the entry is appended to
    the bucket of its file and is what its id leads to; the buckets of the
    other files, the other ids and the path table stay as they were. *)
Theorem add_node_frame (self : PositionIndex) (e : AstNodeIndex) :
  bucket (add_node self e) (file_id e) = bucket self (file_id e) ++ [e] /\
  node_by_id (add_node self e) !! node_id e = Some e /\
  (forall f, f <> file_id e ->
     file_nodes (add_node self e) !! f = file_nodes self !! f) /\
  (forall k, k <> node_id e ->
     node_by_id (add_node self e) !! k = node_by_id self !! k) /\
  file_id_to_path (add_node self e) = file_id_to_path self.
Proof.
  split; [apply add_node_bucket'|]. split; [apply add_node_by_id|].
  split; [intros f Hf; now apply add_node_bucket_ne|].
  split; [|reflexivity].
  intros k Hk. unfold add_node. cbn [node_by_id].
  now rewrite lookup_insert_ne by congruence.
Qed.

(** X11. The walk keeps the two dictionaries of the index in agreement, and
    so does [finalize_index] after it: every id of [node_by_id] leads to an
    entry with that id that is in the bucket of its file, and every entry of
    a bucket belongs to that file and has its id registered.  The empty
    index is in that state. *)
Theorem _index_ast_nodes_consistent
    (node : json) (fid depth : Z) (self self' : PositionIndex) :
  index_consistent self ->
  _index_ast_nodes node fid depth self = Ok self' ->
  index_consistent self' /\ index_consistent (finalize_index self').
Proof.
  intros Hs Hrun.
  destruct (_index_ast_nodes_traced node _ _ _ _ Hrun) as (entries & -> & _).
  pose proof (foldl_add_node_consistent entries self Hs) as Hc.
  split; [exact Hc | now apply finalize_index_consistent].
Qed.

Lemma _index_ast_nodes_consistent_witness :
  index_consistent
    (add_node empty_index
       {| node_id := KInt 7; file_id := 6; start_byte := 10; end_byte := 15;
          node_type := JStr "ContractDefinition";
          node_data := JDict sample_contract; depth := 1 |}) /\
  index_consistent
    (finalize_index
       (add_node empty_index
          {| node_id := KInt 7; file_id := 6; start_byte := 10; end_byte := 15;
             node_type := JStr "ContractDefinition";
             node_data := JDict sample_contract; depth := 1 |})).
Proof.
  apply (_index_ast_nodes_consistent (JDict sample_unit) 6 0 empty_index).
  - apply empty_index_consistent.
  - vm_compute. reflexivity.
Defined.

(** X12. The walk adds nothing but entries of nodes it reaches: an entry
    found in a bucket after the walk was there before it, or is the entry of
    a node with an [id] and a well-formed [src] that the walk reached, in
    the bucket of the file that the [src] names, from [start] to
    [start + length], at the depth at which the node was reached, which is
    not above the depth the walk started at. *)
Theorem _index_ast_nodes_sound
    (node : json) (fid d0 : Z) (self self' : PositionIndex)
    (f : Z) (e : AstNodeIndex) :
  _index_ast_nodes node fid d0 self = Ok self' ->
  e ∈ bucket self' f ->
  e ∈ bucket self f \/
  (file_id e = f /\ d0 <= depth e /\ added_by node d0 e).
Proof.
  intros Hrun He.
  destruct (_index_ast_nodes_traced node _ _ _ _ Hrun) as (entries & -> & Hall).
  apply bucket_foldl_add_node in He as [He|[He Hf]]; [now left|right].
  split; [exact Hf|].
  pose proof (proj1 (Forall_forall _ _) Hall e He) as Hadded.
  split; [|exact Hadded].
  destruct Hadded as (kvs & d & Hvis & (src & st & ln & nf & id & _ & _ & _ & _ & ->)).
  cbn. now apply visited_depth in Hvis.
Qed.

Lemma _index_ast_nodes_sound_witness :
  {| node_id := KInt 7; file_id := 6; start_byte := 10; end_byte := 15;
     node_type := JStr "ContractDefinition";
     node_data := JDict sample_contract; depth := 1 |}
    ∈ bucket empty_index 6 \/
  (file_id
     {| node_id := KInt 7; file_id := 6; start_byte := 10; end_byte := 15;
        node_type := JStr "ContractDefinition";
        node_data := JDict sample_contract; depth := 1 |} = 6 /\
   0 <= depth
          {| node_id := KInt 7; file_id := 6; start_byte := 10; end_byte := 15;
             node_type := JStr "ContractDefinition";
             node_data := JDict sample_contract; depth := 1 |} /\
   added_by (JDict sample_unit) 0
     {| node_id := KInt 7; file_id := 6; start_byte := 10; end_byte := 15;
        node_type := JStr "ContractDefinition";
        node_data := JDict sample_contract; depth := 1 |}).
Proof.
  apply (_index_ast_nodes_sound (JDict sample_unit) 6 0 empty_index
           (add_node empty_index
              {| node_id := KInt 7; file_id := 6; start_byte := 10;
                 end_byte := 15; node_type := JStr "ContractDefinition";
                 node_data := JDict sample_contract; depth := 1 |})).
  - vm_compute. reflexivity.
  - vm_compute. constructor.
Defined.

(** * Further properties of [parse_src] *)

Lemma split_chars_length sep cs :
  length (split_chars sep cs)
  = S (length (List.filter (fun x => bool_decide (x = sep)) cs)).
Proof.
  induction cs as [|c cs IH]; [reflexivity|]. cbn [split_chars List.filter].
  destruct (bool_decide (c = sep)).
  - cbn [length]. now rewrite IH.
  - destruct (split_chars sep cs) as [|p ps]; [discriminate|].
    cbn [length] in *. exact IH.
Qed.

(** X13. [parse_src] yields none for every string that does not hold exactly
    two colons, and for every string one of whose colon-separated pieces is
    not accepted by [int] (an empty piece, for one). *)
Theorem parse_src_rejects (src : string) :
  (count_char ":" src <> 2%nat -> parse_src src = Ok None) /\
  (forall p, p ∈ str_split src ":" -> int_of_str p = Raise ValueError ->
             parse_src src = Ok None).
Proof.
  rewrite parse_src_unfold. split.
  - intros Hcount.
    assert (length (str_split src ":") <> 3%nat) as Hlen.
    { unfold str_split. rewrite length_map, split_chars_length.
      unfold count_char in Hcount. lia. }
    destruct (str_split src ":") as [|p0 [|p1 [|p2 [|p3 ps]]]];
      try reflexivity. simpl in Hlen. lia.
  - intros p Hp Hbad.
    destruct (str_split src ":") as [|p0 [|p1 [|p2 [|p3 ps]]]];
      try reflexivity.
    repeat (apply elem_of_cons in Hp as [->|Hp]);
      [| | |now apply elem_of_nil in Hp]; rewrite Hbad;
      repeat case_match; reflexivity.
Qed.

Lemma parse_src_rejects_witness : parse_src "12:3:4:5" = Ok None.
Proof.
  apply (proj1 (parse_src_rejects "12:3:4:5")). vm_compute. discriminate.
Defined.

(** * Further properties of the loader *)

Section loader_more.

Lemma for_each_Ok_elem {A S} (body : A -> S -> result S) l s s' a :
  for_each body l s = Ok s' -> a ∈ l -> exists s1 s2, body a s1 = Ok s2.
Proof.
  intros H Ha. apply list_elem_of_split in Ha as (l1 & l2 & ->).
  rewrite for_each_app in H. apply bind_Ok_inv in H as (s1 & _ & H).
  rewrite for_each_cons in H. apply bind_Ok_inv in H as (s2 & H2 & _). eauto.
Qed.

Lemma get_Ok_dict d k default v : get d k default = Ok v -> isinstance_dict d = true.
Proof. destruct d; try discriminate. reflexivity. Qed.

Lemma load_error_Ok_dict e acc acc' :
  load_error e acc = Ok acc' -> isinstance_dict e = true.
Proof.
  unfold load_error. intros H. apply bind_Ok_inv in H as (v & Hv & _).
  eapply get_Ok_dict, Hv.
Qed.

Lemma load_build_info_Ok_dict e acc acc' :
  load_build_info e acc = Ok acc' -> isinstance_dict e = true.
Proof.
  unfold load_build_info. intros H. apply bind_Ok_inv in H as (v & Hv & _).
  eapply get_Ok_dict, Hv.
Qed.

Lemma load_file_Ok_dict e acc acc' :
  load_file e acc = Ok acc' -> isinstance_dict e = true.
Proof.
  unfold load_file. intros H. apply bind_Ok_inv in H as (v & Hv & _).
  eapply get_Ok_dict, Hv.
Qed.

Lemma records_loop_dicts {B} (body : json -> B -> result B) v acc acc' :
  (forall e a a', body e a = Ok a' -> isinstance_dict e = true) ->
  (if truthy v then es ← iter v; for_each body es acc else Ok acc) = Ok acc' ->
  Forall (fun e => isinstance_dict e = true) (records v).
Proof.
  intros Hbody H.
  assert (exists l, (if truthy v then iter v else Ok []) = Ok l /\
                    for_each body l acc = Ok acc') as (l & Hl & Hrun).
  { destruct (truthy v); [|exists []; auto].
    apply bind_Ok_inv in H as (l & Hl & H). eauto. }
  apply records_truthy in Hl as ->. apply Forall_forall. intros e He.
  destruct (for_each_Ok_elem _ _ _ _ e Hrun He) as (s1 & s2 & Hb).
  eapply Hbody, Hb.
Qed.

End loader_more.

(** X14. An artifact that holds no sources, no errors and no build infos
    (the keys absent, or their values empty) leaves the Root as it is; an
    artifact whose top level is not an object makes the load raise
    [AttributeError]. *)
Theorem _initialize_nothing_to_load (self : Root) :
  (forall artifact,
     truthy (field artifact "sources") = false ->
     truthy (field artifact "errors") = false ->
     truthy (field artifact "build_infos") = false ->
     _initialize (JDict artifact) self = Ok self) /\
  (forall data, isinstance_dict data = false ->
                _initialize data self = Raise AttributeError).
Proof.
  split.
  - intros artifact Hs He Hb. unfold _initialize.
    rewrite !get_dict, !bind_Ok. cbv beta. rewrite Hs, He, Hb, !bind_Ok.
    destruct self; reflexivity.
  - intros data Hd. destruct data; try discriminate; reflexivity.
Qed.

Lemma _initialize_nothing_to_load_witness :
  _initialize (JDict [("errors", JList []); ("version", JInt 1)]) sample_loaded
  = Ok sample_loaded.
Proof.
  apply (proj1 (_initialize_nothing_to_load sample_loaded)); reflexivity.
Defined.

(** X15. A record that is not an object is not dropped, it makes the load
    fail: when [_initialize] returns, every element of the [errors] array,
    of the [build_infos] array and of each array of compiled files is an
    object. *)
Theorem _initialize_records_are_objects
    (artifact : list (string * json)) (self self' : Root) :
  _initialize (JDict artifact) self = Ok self' ->
  Forall (fun e => isinstance_dict e = true) (records (field artifact "errors")) /\
  Forall (fun e => isinstance_dict e = true)
    (records (field artifact "build_infos")) /\
  (forall filename files,
     (filename, files)
       ∈ match field artifact "sources" with JDict kvs => kvs | _ => [] end ->
     Forall (fun e => isinstance_dict e = true) (records files)).
Proof.
  unfold _initialize. rewrite !get_dict, !bind_Ok. cbv beta. intros H.
  apply bind_Ok_inv in H as (srcs & Hsrcs & H).
  apply bind_Ok_inv in H as (errs & Herrs & H).
  apply bind_Ok_inv in H as (infos & Hinfos & _).
  split; [eapply (records_loop_dicts load_error); eauto using load_error_Ok_dict|].
  split; [eapply (records_loop_dicts load_build_info);
          eauto using load_build_info_Ok_dict|].
  intros filename files Hin.
  destruct (field artifact "sources") as [ |b|n|s|l|kvs] eqn:Hf;
    try (now apply elem_of_nil in Hin).
  destruct (truthy (JDict kvs)) eqn:Ht.
  - cbn [Py.items] in Hsrcs. rewrite bind_Ok in Hsrcs.
    destruct (for_each_Ok_elem _ _ _ _ (filename, files) Hsrcs Hin)
      as (s1 & s2 & Hload).
    cbn [fst snd] in Hload. unfold load_source in Hload.
    apply bind_Ok_inv in Hload as (l & Hl & Hload).
    apply bind_Ok_inv in Hload as (source & Hsource & _).
    unfold records. rewrite Hl. apply Forall_forall. intros e He.
    destruct (for_each_Ok_elem _ _ _ _ e Hsource He) as (a1 & a2 & Hb).
    eapply load_file_Ok_dict, Hb.
  - destruct kvs; [now apply elem_of_nil in Hin | discriminate].
Qed.

Lemma _initialize_records_are_objects_witness :
  Forall (fun e => isinstance_dict e = true)
    (records (field sample_artifact "errors")) /\
  Forall (fun e => isinstance_dict e = true)
    (records (field sample_artifact "build_infos")) /\
  (forall filename files,
     (filename, files)
       ∈ match field sample_artifact "sources" with
         | JDict kvs => kvs
         | _ => []
         end ->
     Forall (fun e => isinstance_dict e = true) (records files)).
Proof.
  apply (_initialize_records_are_objects sample_artifact empty_root sample_loaded).
  vm_compute. reflexivity.
Defined.

(** * Further properties of the resolver *)

Section resolver_more.

Lemma match_uri_cons uri fid path table :
  match_uri uri ((fid, path) :: table)
  = if uri_matches uri path then Some fid else match_uri uri table.
Proof. reflexivity. Qed.

Lemma match_uri_None uri table :
  match_uri uri table = None <->
  Forall (fun kv => uri_matches uri kv.2 = false) table.
Proof.
  induction table as [|[f p] table IH].
  - split; [constructor | reflexivity].
  - rewrite match_uri_cons, Forall_cons. cbn [snd].
    destruct (uri_matches uri p).
    + split; [discriminate | intros [? _]; discriminate].
    + rewrite IH. tauto.
Qed.

Lemma match_uri_Some uri table fid :
  match_uri uri table = Some fid <->
  exists pre path post,
    table = pre ++ (fid, path) :: post /\
    uri_matches uri path = true /\
    Forall (fun kv => uri_matches uri kv.2 = false) pre.
Proof.
  induction table as [|[f p] table IH].
  - split; [discriminate|]. intros (pre & path & post & H & _).
    destruct pre; discriminate.
  - rewrite match_uri_cons. destruct (uri_matches uri p) eqn:Hp.
    + split.
      * intros [= ->]. exists [], p, table. repeat split; [exact Hp | constructor].
      * intros (pre & path & post & Ht & Hm & Hpre).
        destruct pre as [|[f' p'] pre].
        -- injection Ht as -> -> ->. reflexivity.
        -- injection Ht as -> -> ->. apply Forall_cons in Hpre as [Hbad _].
           cbn in Hbad. congruence.
    + rewrite IH. split.
      * intros (pre & path & post & -> & Hm & Hpre).
        exists ((f, p) :: pre), path, post.
        repeat split; [exact Hm | constructor; assumption].
      * intros (pre & path & post & Ht & Hm & Hpre).
        destruct pre as [|[f' p'] pre].
        -- injection Ht as -> -> ->. congruence.
        -- injection Ht as -> -> ->. apply Forall_cons in Hpre as [_ Hpre].
           exists pre, path, post. auto.
Qed.

End resolver_more.

(** X16. The uri is resolved to the file id of the first entry of the path
    table, in its order, whose path matches (the uri ends with the path, or
    the path ends with the uri without ["file://"]); later matching entries
    are never used, and the result is none exactly when no entry matches. *)
Theorem match_uri_first_match (uri : string) (table : list (Z * string)) :
  (forall fid,
     match_uri uri table = Some fid <->
     exists pre path post,
       table = pre ++ (fid, path) :: post /\
       uri_matches uri path = true /\
       Forall (fun kv => uri_matches uri kv.2 = false) pre) /\
  (match_uri uri table = None <->
   Forall (fun kv => uri_matches uri kv.2 = false) table).
Proof.
  split; [intros fid; apply match_uri_Some | apply match_uri_None].
Qed.

Section resolution_facts.

Lemma try_except_Ok_inv {A} (body : result A) handled fallback (a : A) :
  try_except body handled fallback = Ok a ->
  body = Ok a \/ (a = fallback /\ exists e, body = Raise e /\ e ∈ handled).
Proof.
  unfold try_except. destruct body as [x|e]; [intros [= <-]; now left|].
  case_bool_decide; [|discriminate]. intros [= <-]. right. eauto.
Qed.

(** A location comes from the path table, the file and the codec. *)
Lemma _node_to_location_Some fs self target uri line col :
  _node_to_location fs self target = Ok (Some (uri, line, col)) ->
  exists path content,
    (file_id target, path) ∈ file_id_to_path (position_index self) /\
    uri = "file://" +:+ path /\
    fs path = Ok content /\
    Codec.byte_offset_to_lsp_position content (start_byte target)
    = Ok (line, col).
Proof.
  unfold _node_to_location.
  destruct (list_find _ _) as [[i [f path]]|] eqn:Hfind; [|discriminate].
  apply list_find_Some in Hfind as (Hlook & Hf & _). cbn in Hf. subst f.
  intros H. apply try_except_Ok_inv in H as [H|[H _]]; [|discriminate].
  apply bind_Ok_inv in H as (content & Hfs & H).
  apply bind_Ok_inv in H as ([l c] & Hpos & H). injection H as <- <- <-.
  exists path, content. repeat split; try assumption.
  eapply list_elem_of_lookup_2, Hlook.
Qed.

(** What [get_declaration_location] returns is the location of a
    registered entry, or none. *)
Lemma get_declaration_location_cases fs self node r :
  get_declaration_location fs self node = Ok r ->
  r = None \/
  exists k target,
    node_by_id (position_index self) !! k = Some target /\
    _node_to_location fs self target = Ok r.
Proof.
  unfold get_declaration_location. intros H.
  apply bind_Ok_inv in H as (ref & _ & H).
  apply bind_Ok_inv in H as (referenced & Href & H).
  destruct referenced as [target|].
  - right. destruct (truthy ref); [|discriminate].
    apply bind_Ok_inv in Href as (k & _ & Href). injection Href as Href.
    eauto.
  - apply bind_Ok_inv in H as (desc & _ & H).
    apply bind_Ok_inv in H as (tid & _ & H).
    destruct tid as [ |b|n|s|l|kvs]; try discriminate.
    destruct (re_search_dollar_digits s); [|injection H as <-; now left].
    apply bind_Ok_inv in H as (target_id & _ & H).
    destruct (node_by_id (position_index self) !! KInt target_id) as [target|]
      eqn:Hreg; [|injection H as <-; now left].
    right. eauto.
Qed.

End resolution_facts.

(** X17. A location that [get_declaration_location] returns is the location
    of an entry registered in [node_by_id]: its uri is ["file://"] followed
    by a path that the table gives for the file of the entry, the file at
    that path was read, and line and column are the position of the entry's
    [start_byte] in it. *)
Theorem get_declaration_location_sound
    (fs : file_system) (self : Root) (node : AstNodeIndex)
    (uri : string) (line col : Z) :
  get_declaration_location fs self node = Ok (Some (uri, line, col)) ->
  exists k target path content,
    node_by_id (position_index self) !! k = Some target /\
    (file_id target, path) ∈ file_id_to_path (position_index self) /\
    uri = "file://" +:+ path /\
    fs path = Ok content /\
    Codec.byte_offset_to_lsp_position content (start_byte target)
    = Ok (line, col).
Proof.
  intros H. apply get_declaration_location_cases in H as [H|(k & target & Hk & H)];
    [discriminate|].
  apply _node_to_location_Some in H as (path & content & H1 & H2 & H3 & H4).
  exists k, target, path, content. auto.
Qed.

Lemma get_declaration_location_sound_witness :
  exists k target path content,
    node_by_id (position_index (sample_root [sample_entry 42 0 1])) !! k
      = Some target /\
    (file_id target, path)
      ∈ file_id_to_path (position_index (sample_root [sample_entry 42 0 1])) /\
    "file:///p/C.sol" = "file://" +:+ path /\
    sample_fs path = Ok content /\
    Codec.byte_offset_to_lsp_position content (start_byte target) = Ok (0, 0).
Proof.
  apply (get_declaration_location_sound sample_fs
           (sample_root [sample_entry 42 0 1])
           (sample_use [("referencedDeclaration", JInt 42)])).
  vm_compute. reflexivity.
Defined.

(** X18. [get_declaration_location] raises on ill-typed payloads instead of
    returning none: a [referencedDeclaration] that is a non-empty array or
    object raises [TypeError]; when the first stage finds nothing, a
    [typeDescriptions] that is not an object raises [AttributeError], and a
    [typeIdentifier] that is not a string (null, for one) raises
    [TypeError]. *)
Theorem get_declaration_location_raises
    (fs : file_system) (self : Root) (node : AstNodeIndex)
    (payload : list (string * json)) :
  node_data node = JDict payload ->
  (truthy (field payload "referencedDeclaration") = true ->
   hash_key (field payload "referencedDeclaration") = Raise TypeError ->
   get_declaration_location fs self node = Raise TypeError) /\
  (truthy (field payload "referencedDeclaration") = false ->
   (forall v, assoc "typeDescriptions" payload = Some v ->
              isinstance_dict v = false ->
              get_declaration_location fs self node = Raise AttributeError) /\
   (forall desc v,
      field payload "typeDescriptions" = JDict desc ->
      assoc "typeIdentifier" desc = Some v ->
      (forall s, v <> JStr s) ->
      get_declaration_location fs self node = Raise TypeError)).
Proof.
  intros Hdata. unfold get_declaration_location. rewrite Hdata.
  rewrite get_dict, bind_Ok. cbv beta. split.
  - intros Ht Hh. rewrite Ht, Hh. reflexivity.
  - intros Ht. rewrite Ht, bind_Ok. cbv beta iota. split.
    + intros v Hv Hd. cbn [get]. rewrite Hv, bind_Ok.
      destruct v; try discriminate; reflexivity.
    + intros desc v Hdesc Hv Hns. cbn [get].
      unfold field in Hdesc.
      destruct (assoc "typeDescriptions" payload) as [d|] eqn:Hd.
      * cbn in Hdesc. subst d. rewrite bind_Ok. cbn [get]. rewrite Hv, bind_Ok.
        destruct v; try reflexivity. now destruct (Hns s).
      * cbn in Hdesc. discriminate.
Qed.

Lemma get_declaration_location_raises_witness :
  get_declaration_location sample_fs (sample_root [])
    (sample_use [("typeDescriptions",
                  JDict [("typeIdentifier", JNull); ("typeString", JNull)])])
  = Raise TypeError.
Proof.
  refine (proj2 (proj2 (get_declaration_location_raises sample_fs (sample_root [])
            (sample_use [("typeDescriptions",
                          JDict [("typeIdentifier", JNull); ("typeString", JNull)])])
            _ eq_refl) eq_refl)
            [("typeIdentifier", JNull); ("typeString", JNull)] JNull
            eq_refl eq_refl _).
  intros s. discriminate.
Defined.

(** * The walk and its [file_id] argument *)

Section walk_file_id.

Lemma for_each_ext {A S} (body1 body2 : A -> S -> result S) l :
  Forall (fun a => forall s, body1 a s = body2 a s) l ->
  forall s, for_each body1 l s = for_each body2 l s.
Proof.
  induction 1 as [|a l Ha Hl IH]; intros s; [reflexivity|].
  rewrite !for_each_cons, Ha. destruct (body2 a s) as [s1|e]; [|reflexivity].
  rewrite !bind_Ok. apply IH.
Qed.

Lemma index_child_ext visit1 visit2 key value :
  (forall s, visit1 value s = visit2 value s) ->
  (forall children, value = JList children ->
     Forall (fun c => forall s, visit1 c s = visit2 c s) children) ->
  forall s, index_child visit1 key value s = index_child visit2 key value s.
Proof.
  intros Hv Hl s. unfold index_child.
  repeat case_match; try reflexivity; try apply Hv.
  apply for_each_ext. now apply Hl.
Qed.

Lemma walk_file_id_deep node :
  (forall f1 f2 d s, _index_ast_nodes node f1 d s = _index_ast_nodes node f2 d s) /\
  (forall children, node = JList children ->
     Forall (fun c => forall f1 f2 d s,
               _index_ast_nodes c f1 d s = _index_ast_nodes c f2 d s) children).
Proof.
  induction node as [ | b | n | s | its IH | kvs IH ] using json_deep_ind;
    try (split; [reflexivity | intros children Hc; discriminate]).
  - split; [reflexivity|].
    intros children [= <-]. eapply Forall_impl; [exact IH|].
    intros c [Hc _]. exact Hc.
  - split; [|intros children Hc; discriminate].
    intros f1 f2 d s0. rewrite !_index_ast_nodes_unfold.
    destruct (index_current_node kvs d s0) as [s1|e]; [|reflexivity].
    rewrite !bind_Ok. apply for_each_ext.
    eapply Forall_impl; [exact IH|]. intros [k v] [Hv Hl]. cbn [fst snd].
    apply index_child_ext.
    + intros sa. apply Hv.
    + intros children Hc. eapply Forall_impl; [apply (Hl _ Hc)|].
      intros c Hcw sa. apply Hcw.
Qed.

End walk_file_id.

(** X19. The walk never uses its [file_id] argument: started with any two
    file ids it gives the same index or raises the same exception.  Entries
    are filed under the file id of their own [src], not under the id of the
    source file that is being walked. *)
Theorem _index_ast_nodes_ignores_file_id
    (node : json) (file_id1 file_id2 depth : Z) (self : PositionIndex) :
  _index_ast_nodes node file_id1 depth self
  = _index_ast_nodes node file_id2 depth self.
Proof. apply walk_file_id_deep. Qed.

(** * From a declaration to its location and back *)

Section there_and_back.

(** Offset to position and back, at a character boundary. *)
Lemma boundary_round_trip content b :
  Codec.utf8_text content -> Codec.char_boundary content b ->
  exists line col,
    Codec.byte_offset_to_lsp_position content b = Ok (line, col) /\
    Codec.lsp_position_to_byte_offset content line col = Ok b.
Proof.
  intros Hv (n & Hn & ->).
  pose proof (str_split_nl_nonempty content) as Hne.
  destruct (boundary_in_line (Codec.str_split_nl content) n Hne)
    as (i & l & k & Hl & Hrep).
  rewrite join_split in Hrep. rewrite Hrep.
  assert (Codec.utf8_text l) as Hvl
    by (eapply Forall_lookup_1; [apply utf8_text_split|]; eassumption).
  exists (Z.of_nat i), (Codec.utf16_units (take k l)). split.
  - now apply byte_offset_to_lsp_position_at.
  - rewrite (lsp_position_to_byte_offset_line content i l) by auto.
    pose proof (column_loop_prefix l k 0 0 Hvl) as Hcol.
    rewrite !Z.add_0_l in Hcol. rewrite Hcol, bind_Ok. reflexivity.
Qed.

(** An entry that holds the offset is found, or a deeper one is. *)
Lemma find_innermost_node_holds self fid off e :
  e ∈ bucket self fid -> start_byte e <= off < end_byte e ->
  exists n, find_innermost_node self fid off = Some n /\
    n ∈ bucket self fid /\ start_byte n <= off < end_byte n /\
    depth e <= depth n.
Proof.
  intros He Hoff.
  pose proof (depth_sort_sorted
                (List.filter (contains_offset off) (bucket self fid))) as Hsorted.
  pose proof (sort_by_key_perm (fun x => - depth x) Z.ltb
                (List.filter (contains_offset off) (bucket self fid))) as Hperm.
  unfold find_innermost_node. rewrite find_nodes_at_position_bucket.
  fold (bucket self fid).
  assert (forall x, x ∈ sort_by_key (fun x => - depth x) Z.ltb
                      (List.filter (contains_offset off) (bucket self fid))
                    <-> x ∈ bucket self fid /\ start_byte x <= off < end_byte x)
    as Hin.
  { intros x. rewrite Hperm, list_elem_of_In, filter_In, contains_offset_spec.
    now rewrite <- list_elem_of_In. }
  destruct (sort_by_key _ _ _) as [|e0 rest].
  - exfalso. apply (elem_of_nil e), Hin. auto.
  - exists e0. split; [reflexivity|].
    destruct (proj1 (Hin e0)) as [He0 Hoff0]; [constructor|].
    split; [exact He0|]. split; [exact Hoff0|].
    apply StronglySorted_inv in Hsorted as [_ Hall].
    assert (e ∈ e0 :: rest) as Hmem by (apply Hin; auto).
    apply elem_of_cons in Hmem as [->|Hmem]; [lia|].
    apply (proj1 (Forall_forall _ _) Hall e Hmem).
Qed.

End there_and_back.

(** X20. Going to a declaration and looking up the position reached finds
    the declaration again: when [_node_to_location] gives a location for an
    indexed entry that is not empty and starts at a character boundary of
    its file, and the uri of that location resolves to the file of the
    entry, [find_node_at_position] at that location returns an entry of the
    same file that holds the start of the entry and is at least as deep. *)
Theorem find_node_at_location_of_node
    (fs : file_system) (self : Root) (target : AstNodeIndex)
    (uri : string) (line col : Z) :
  (forall path content, fs path = Ok content -> Codec.utf8_text content) ->
  target ∈ bucket (position_index self) (file_id target) ->
  start_byte target < end_byte target ->
  (forall path content,
     (file_id target, path) ∈ file_id_to_path (position_index self) ->
     fs path = Ok content ->
     Codec.char_boundary content (start_byte target)) ->
  _node_to_location fs self target = Ok (Some (uri, line, col)) ->
  match_uri uri (file_id_to_path (position_index self)) = Some (file_id target) ->
  exists found,
    find_node_at_position fs self uri line col = Ok (Some found) /\
    found ∈ bucket (position_index self) (file_id target) /\
    start_byte found <= start_byte target < end_byte found /\
    depth target <= depth found.
Proof.
  intros Hfs Hin Hspan Hbound Hloc Huri.
  unfold _node_to_location in Hloc. unfold find_node_at_position, dict_lookup.
  rewrite Huri.
  destruct (list_find _ _) as [[i [f path]]|] eqn:Hfind; [|discriminate].
  pose proof Hfind as Hfind'.
  apply list_find_Some in Hfind' as (Hlook & Hf & _). cbn in Hf. subst f.
  apply try_except_Ok_inv in Hloc as [Hloc|[Hloc _]]; [|discriminate].
  apply bind_Ok_inv in Hloc as (content & Hread & Hloc).
  apply bind_Ok_inv in Hloc as ([l c] & Hpos & Hloc).
  injection Hloc as _ <- <-. cbn [fst snd] in *.
  assert (Codec.char_boundary content (start_byte target)) as Hb.
  { eapply Hbound; [|exact Hread]. eapply list_elem_of_lookup_2, Hlook. }
  destruct (boundary_round_trip content (start_byte target)
              (Hfs _ _ Hread) Hb) as (l' & c' & Hpos' & Hback).
  rewrite Hpos in Hpos'. injection Hpos' as <- <-.
  destruct (find_innermost_node_holds (position_index self) (file_id target)
              (start_byte target) target Hin ltac:(lia))
    as (found & Hfound & Hmem & Hholds & Hdepth).
  exists found. split; [|auto].
  cbn [snd]. rewrite bind_Ok, Hread, bind_Ok, Hback, bind_Ok, Hfound.
  reflexivity.
Qed.

Lemma find_node_at_location_of_node_witness :
  exists found,
    find_node_at_position sample_fs (sample_root [sample_entry 42 0 1])
      "file:///p/C.sol" 0 0 = Ok (Some found) /\
    found ∈ bucket (position_index (sample_root [sample_entry 42 0 1]))
              (file_id (sample_entry 42 0 1)) /\
    start_byte found <= start_byte (sample_entry 42 0 1) < end_byte found /\
    depth (sample_entry 42 0 1) <= depth found.
Proof.
  apply (find_node_at_location_of_node sample_fs
           (sample_root [sample_entry 42 0 1]) (sample_entry 42 0 1)
           "file:///p/C.sol" 0 0).
  - intros path content. unfold sample_fs. case_bool_decide; [|discriminate].
    intros [= <-]. reflexivity.
  - vm_compute. constructor.
  - simpl. lia.
  - intros path content _. unfold sample_fs. case_bool_decide; [|discriminate].
    intros [= <-]. exists 0%nat. split; [simpl; lia | reflexivity].
  - vm_compute. reflexivity.
  - vm_compute. reflexivity.
Defined.

(** * The type identifier pattern *)

Section pattern_facts.

Lemma chars_app s1 s2 : chars (s1 +:+ s2) = chars s1 ++ chars s2.
Proof.
  unfold chars. induction s1 as [|c s1 IH]; [reflexivity|].
  change (String c s1 +:+ s2) with (String c (s1 +:+ s2)).
  cbn. f_equal. exact IH.
Qed.

Lemma of_chars_chars s : of_chars (chars s) = s.
Proof. apply string_of_list_ascii_of_string. Qed.

Lemma chars_of_chars cs : chars (of_chars cs) = cs.
Proof. apply list_ascii_of_string_of_list_ascii. Qed.

Lemma take_digits_run g rest :
  Forall (fun c => is_digit c = true) g -> no_digit_ahead rest ->
  take_digits (g ++ rest) = g.
Proof.
  intros Hg Hrest. induction Hg as [|c g Hc Hg IH].
  - destruct rest as [|d rest]; [reflexivity|]. cbn.
    now rewrite (Hrest d rest eq_refl).
  - cbn. rewrite Hc. f_equal. exact IH.
Qed.

Lemma take_digits_split cs :
  exists rest, cs = take_digits cs ++ rest /\
    Forall (fun c => is_digit c = true) (take_digits cs) /\ no_digit_ahead rest.
Proof.
  induction cs as [|c cs (rest & Hcs & Hall & Hrest)].
  - exists []. repeat split; [constructor | intros d cs' H; discriminate].
  - cbn [take_digits]. destruct (is_digit c) eqn:Hc.
    + exists rest. repeat split; [cbn; f_equal; exact Hcs | now constructor | exact Hrest].
    + exists (c :: cs). repeat split; [constructor|].
      intros d cs' [= <- <-]. exact Hc.
Qed.

Lemma no_marker_tail c cs : no_marker (c :: cs) -> no_marker cs.
Proof. intros H p1 d p2 ->. apply (H (c :: p1) d p2 eq_refl). Qed.

Lemma search_dollar_digits_None cs :
  search_dollar_digits cs = None <-> no_marker cs.
Proof.
  induction cs as [|c cs IH].
  - split; [|reflexivity]. intros _ p1 d p2 H. destruct p1; discriminate.
  - cbn [search_dollar_digits].
    destruct (bool_decide (c = "$"%char)
              && match cs with d :: _ => is_digit d | [] => false end) eqn:Htest.
    + split; [discriminate|]. intros Hno. exfalso.
      apply andb_true_iff in Htest as [Hc Hd]. apply bool_decide_eq_true in Hc.
      destruct cs as [|d cs]; [discriminate|]. subst c.
      rewrite (Hno [] d cs eq_refl) in Hd. discriminate.
    + rewrite IH. split; [|apply no_marker_tail].
      intros Hno p1 d p2 H. destruct p1 as [|x p1].
      * injection H as -> ->. rewrite bool_decide_eq_true_2 in Htest by reflexivity.
        exact Htest.
      * injection H as -> ->. apply (Hno p1 d p2 eq_refl).
Qed.

Lemma search_dollar_digits_Some cs g :
  search_dollar_digits cs = Some g <->
  exists pre rest,
    cs = pre ++ "$"%char :: g ++ rest /\ no_marker pre /\ g <> [] /\
    Forall (fun c => is_digit c = true) g /\ no_digit_ahead rest.
Proof.
  induction cs as [|c cs IH].
  - split; [discriminate|]. intros (pre & rest & H & _). destruct pre; discriminate.
  - cbn [search_dollar_digits].
    destruct (bool_decide (c = "$"%char)
              && match cs with d :: _ => is_digit d | [] => false end) eqn:Htest.
    + apply andb_true_iff in Htest as [Hc Hd]. apply bool_decide_eq_true in Hc.
      subst c. split.
      * intros [= <-]. destruct (take_digits_split cs) as (rest & Hcs & Hall & Hrest).
        exists [], rest. repeat split; try assumption.
        -- cbn. f_equal. exact Hcs.
        -- intros p1 d p2 H. destruct p1; discriminate.
        -- destruct cs as [|d cs]; [discriminate|]. cbn. rewrite Hd. discriminate.
      * intros (pre & rest & Hcs & Hno & Hne & Hall & Hrest).
        destruct pre as [|p pre].
        -- injection Hcs as ->. f_equal. now apply take_digits_run.
        -- exfalso. injection Hcs as <- ->. destruct pre as [|d pre].
           ++ cbn in Hd. discriminate.
           ++ cbn in Hd. rewrite (Hno [] d pre eq_refl) in Hd. discriminate.
    + rewrite IH. split.
      * intros (pre & rest & -> & Hno & Hne & Hall & Hrest).
        exists (c :: pre), rest. repeat split; try assumption.
        intros p1 d p2 H. destruct p1 as [|x p1].
        -- injection H as -> H. rewrite bool_decide_eq_true_2 in Htest by reflexivity.
           destruct pre as [|d' pre]; [discriminate|]. injection H as -> ->.
           exact Htest.
        -- injection H as -> ->. apply (Hno p1 d p2 eq_refl).
      * intros (pre & rest & Hcs & Hno & Hne & Hall & Hrest).
        destruct pre as [|p pre].
        -- exfalso. injection Hcs as -> ->.
           rewrite bool_decide_eq_true_2 in Htest by reflexivity.
           destruct Hall as [|d g Hd Hall]; [congruence|].
           cbn in Htest. congruence.
        -- injection Hcs as -> ->. exists pre, rest.
           repeat split; try assumption. eapply no_marker_tail, Hno.
Qed.

End pattern_facts.

(** X21. The pattern of the fallback takes the first marker: the group that
    [re.search(r"\$(\d+)", s)] gives is the longest run of digits after the
    first dollar sign of [s] that is followed by a digit; dollar signs
    before it (followed by something else) and markers after it are not
    used; there is no match exactly when no dollar sign of [s] is followed
    by a digit. *)
Theorem re_search_dollar_digits_first (s : string) :
  (forall g, re_search_dollar_digits s = Some g <->
     exists pre rest,
       s = pre +:+ "$" +:+ g +:+ rest /\ no_marker (chars pre) /\ g <> "" /\
       Forall (fun c => is_digit c = true) (chars g) /\
       no_digit_ahead (chars rest)) /\
  (re_search_dollar_digits s = None <-> no_marker (chars s)).
Proof.
  unfold re_search_dollar_digits. split.
  - intros g. split.
    + destruct (search_dollar_digits (chars s)) as [g'|] eqn:Hs; [|discriminate].
      intros [= <-].
      apply search_dollar_digits_Some in Hs
        as (pre & rest & Hcs & Hno & Hne & Hall & Hrest).
      exists (of_chars pre), (of_chars rest). rewrite !chars_of_chars.
      repeat split; try assumption.
      * rewrite <- (of_chars_chars s), <- (of_chars_chars (_ +:+ _)).
        f_equal. rewrite !chars_app, !chars_of_chars. exact Hcs.
      * intros H. apply Hne. now rewrite <- (chars_of_chars g'), H.
    + intros (pre & rest & -> & Hno & Hne & Hall & Hrest).
      rewrite !chars_app.
      rewrite (proj2 (search_dollar_digits_Some
                        (chars pre ++ chars "$" ++ chars g ++ chars rest) (chars g))).
      * cbn. now rewrite of_chars_chars.
      * exists (chars pre), (chars rest). repeat split; try assumption.
        intros H. apply Hne. now rewrite <- (of_chars_chars g), H.
  - destruct (search_dollar_digits (chars s)) as [g|] eqn:Hs.
    + split; [discriminate|]. intros Hno.
      apply search_dollar_digits_None in Hno. congruence.
    + split; [|reflexivity]. intros _. now apply search_dollar_digits_None.
Qed.

(** * Building the index from the sources *)

Section build_facts.

Lemma for_each_inv {A S} (P : S -> Prop) (body : A -> S -> result S) l :
  (forall a s s', a ∈ l -> body a s = Ok s' -> P s -> P s') ->
  forall s s', for_each body l s = Ok s' -> P s -> P s'.
Proof.
  induction l as [|a l IH]; intros Hbody s s' H Hs.
  - now injection H as <-.
  - rewrite for_each_cons in H. apply bind_Ok_inv in H as (s1 & H1 & H).
    eapply IH; [|exact H|].
    + intros b sa sb Hb. apply Hbody. now constructor.
    + eapply Hbody; [constructor | exact H1 | exact Hs].
Qed.

Lemma dict_set_elem {K V} `{EqDecision K} (k : K) (v : V) d kv :
  kv ∈ dict_set k v d -> kv = (k, v) \/ kv ∈ d.
Proof.
  induction d as [|[k' v'] d IH]; cbn [dict_set].
  - intros Hin. apply list_elem_of_singleton in Hin. now left.
  - case_bool_decide.
    + intros Hin. apply elem_of_cons in Hin as [->|Hin]; [now left|].
      right. now constructor.
    + intros Hin. apply elem_of_cons in Hin as [->|Hin].
      * right. constructor.
      * destruct (IH Hin) as [->|Hd]; [now left|]. right. now constructor.
Qed.

Lemma load_file_loaded file_ source source' :
  load_file file_ source = Ok source' ->
  Forall loaded_file source -> Forall loaded_file source'.
Proof.
  unfold load_file. intros H Hall.
  apply bind_Ok_inv in H as (version & _ & H).
  apply bind_Ok_inv in H as (build & _ & H).
  apply bind_Ok_inv in H as (prof & _ & H).
  apply bind_Ok_inv in H as (s & _ & H).
  destruct (truthy s) eqn:Hs; [|now injection H as <-].
  apply bind_Ok_inv in H as (i & _ & H).
  apply bind_Ok_inv in H as (a & _ & H). injection H as <-.
  apply Forall_app. split; [exact Hall|]. constructor; [|constructor].
  destruct (truthy version && truthy build && truthy prof); [|exact I].
  cbn. destruct (isinstance_int i && truthy a) eqn:Hia; [|exact Hs].
  now apply andb_true_iff in Hia.
Qed.

Lemma load_source_loaded filename files sources sources' :
  load_source filename files sources = Ok sources' ->
  sources_loaded sources -> sources_loaded sources'.
Proof.
  unfold load_source. intros H Hall.
  apply bind_Ok_inv in H as (l & _ & H).
  apply bind_Ok_inv in H as (source & Hsource & H). injection H as <-.
  intros name fs Hin. apply dict_set_elem in Hin as [[= -> ->]|Hin].
  - eapply (for_each_inv (Forall loaded_file)); [|exact Hsource|constructor].
    intros a s s' _. apply load_file_loaded.
  - eapply Hall, Hin.
Qed.

Lemma _initialize_loaded data self self' :
  _initialize data self = Ok self' ->
  sources_loaded (sources self) -> sources_loaded (sources self').
Proof.
  unfold _initialize. intros H Hall.
  apply bind_Ok_inv in H as (_sources & _ & H).
  apply bind_Ok_inv in H as (_errors & _ & H).
  apply bind_Ok_inv in H as (_infos & _ & H).
  apply bind_Ok_inv in H as (srcs & Hsrcs & H).
  apply bind_Ok_inv in H as (errs & _ & H).
  apply bind_Ok_inv in H as (infos & _ & H). injection H as <-.
  cbn [sources]. destruct (truthy _sources); [|now injection Hsrcs as <-].
  apply bind_Ok_inv in Hsrcs as (kvs & _ & Hsrcs).
  eapply (for_each_inv sources_loaded); [|exact Hsrcs|exact Hall].
  intros kv s s' _. apply load_source_loaded.
Qed.

(** The loop over the sources returns only when no kept file holds an
    unparsed [source_file]. *)
Lemma index_sources_Ok_parsed srcs idx idx' f :
  index_sources srcs idx = Ok idx' -> kept_file srcs f ->
  match source_file f with
  | Parsed _ => True
  | Unparsed s => truthy s = false
  end.
Proof.
  unfold index_sources. intros H (name & files & Hin & Hf).
  apply bind_Ok_inv in H as (s & Hloop & _).
  destruct (for_each_Ok_elem _ _ _ _ _ Hloop Hin) as (s1 & s2 & Hfiles).
  cbn [snd] in Hfiles.
  destruct (for_each_Ok_elem _ _ _ _ _ Hfiles Hf) as (s3 & s4 & Hfile).
  cbn [index_file] in Hfile. destruct (source_file f) as [sf|j]; [exact I|].
  destruct (truthy j); [discriminate | reflexivity].
Qed.

(** The entries that the loop over the sources adds. *)
Lemma index_sources_traced srcs :
  forall idx idx',
    for_each (fun kv self => for_each index_file kv.2 self) srcs idx = Ok idx' ->
    exists entries, idx' = foldl add_node idx entries /\
      Forall (fun e => exists f s, kept_file srcs f /\
                source_file f = Parsed s /\ added_by (ast s) 0 e) entries.
Proof.
  assert (forall files : list (option File), forall idx idx',
            for_each index_file files idx = Ok idx' ->
            exists entries, idx' = foldl add_node idx entries /\
              Forall (fun e => exists f s, Some f ∈ files /\
                        source_file f = Parsed s /\ added_by (ast s) 0 e) entries)
    as Hfiles.
  { induction files as [|o files IH]; intros idx idx' H.
    - injection H as <-. exists []. split; [reflexivity | constructor].
    - rewrite for_each_cons in H. apply bind_Ok_inv in H as (s1 & H1 & H).
      destruct (IH _ _ H) as (e2 & -> & Hall2).
      assert (exists e1, s1 = foldl add_node idx e1 /\
                Forall (fun e => exists f s, Some f ∈ o :: files /\
                          source_file f = Parsed s /\ added_by (ast s) 0 e) e1)
        as (e1 & -> & Hall1).
      { destruct o as [f|]; cbn [index_file] in H1;
          [|injection H1 as <-; exists []; split; [reflexivity | constructor]].
        destruct (source_file f) as [sf|j] eqn:Hsf.
        - destruct (_index_ast_nodes_traced _ _ _ _ _ H1) as (e1 & -> & Hall1).
          exists e1. split; [reflexivity|].
          eapply Forall_impl; [exact Hall1|]. intros e He.
          exists f, sf. split; [constructor | auto].
        - destruct (truthy j); [discriminate|]. injection H1 as <-.
          exists []. split; [reflexivity | constructor]. }
      exists (e1 ++ e2). split; [now rewrite foldl_app|].
      apply Forall_app. split; [exact Hall1|].
      eapply Forall_impl; [exact Hall2|].
      intros e (f & s & Hf & Hrest). exists f, s. split; [now constructor | exact Hrest]. }
  induction srcs as [|[name files] srcs IH]; intros idx idx' H.
  - injection H as <-. exists []. split; [reflexivity | constructor].
  - rewrite for_each_cons in H. apply bind_Ok_inv in H as (s1 & H1 & H).
    cbn [snd] in H1.
    destruct (Hfiles _ _ _ H1) as (e1 & -> & Hall1).
    destruct (IH _ _ H) as (e2 & -> & Hall2).
    exists (e1 ++ e2). split; [now rewrite foldl_app|].
    apply Forall_app. split.
    + eapply Forall_impl; [exact Hall1|]. intros e (f & s & Hf & Hrest).
      exists f, s. split; [|exact Hrest]. exists name, files.
      split; [constructor | exact Hf].
    + eapply Forall_impl; [exact Hall2|].
      intros e (f & s & (n & fs & Hin & Hf) & Hrest). exists f, s.
      split; [|exact Hrest]. exists n, fs. split; [now constructor | exact Hf].
Qed.

End build_facts.

(** X22. A Root is built only from parsed files: when the artifact was
    loaded into an empty Root and the loop of [_build_position_index] over
    the sources returns, every compiled file that was kept holds a
    [SourceFile] with an integer [id] and a non-empty [ast].  A complete
    record whose [source_file] has another [id] or an empty [ast] is kept
    unparsed by the loader and makes that loop raise. *)
Theorem index_sources_parsed_only
    (data : json) (root : Root) (idx idx' : PositionIndex) (f : File) :
  _initialize data empty_root = Ok root ->
  index_sources (sources root) idx = Ok idx' ->
  kept_file (sources root) f ->
  exists s, source_file f = Parsed s /\
    isinstance_int (id s) = true /\ truthy (ast s) = true.
Proof.
  intros Hload Hbuild Hkept.
  pose proof (index_sources_Ok_parsed _ _ _ _ Hbuild Hkept) as Hparsed.
  assert (sources_loaded (sources root)) as Hloaded.
  { eapply _initialize_loaded; [exact Hload|].
    intros name files Hin. now apply elem_of_nil in Hin. }
  destruct Hkept as (name & files & Hin & Hf).
  pose proof (proj1 (Forall_forall _ _) (Hloaded _ _ Hin) _ Hf) as Hok.
  cbn [loaded_file] in Hok. destruct (source_file f) as [s|j].
  - exists s. split; [reflexivity | exact Hok].
  - congruence.
Qed.

Lemma index_sources_parsed_only_witness :
  exists s,
    source_file
      {| source_file :=
           Parsed {| id := JInt 6; ast := JDict [("nodeType", JStr "SourceUnit")] |};
         verison := JStr "0.8.30"; build_id := JStr "b1";
         profile := JStr "default" |} = Parsed s /\
    isinstance_int (id s) = true /\ truthy (ast s) = true.
Proof.
  apply (index_sources_parsed_only (JDict sample_artifact) sample_loaded
           empty_index (finalize_index empty_index)).
  - vm_compute. reflexivity.
  - vm_compute. reflexivity.
  - exists "C.sol", (snd (default ("", []) (head (sources sample_loaded)))).
    split; vm_compute; constructor.
Defined.

(** X23. The index that the loop over the sources builds from a consistent
    index (the empty one, for a new Root) is consistent, every bucket of it
    is ordered by start, and at equal start by decreasing depth, and every
    entry of it was there before or is the entry of a node reached from the
    [ast] of a kept source file, at its nesting depth below that [ast]. *)
Theorem index_sources_built
    (srcs : list (string * list (option File))) (idx idx' : PositionIndex) :
  index_consistent idx ->
  index_sources srcs idx = Ok idx' ->
  index_consistent idx' /\
  (forall fid, StronglySorted start_then_depth (bucket idx' fid)) /\
  (forall fid e, e ∈ bucket idx' fid ->
     e ∈ bucket idx fid \/
     (file_id e = fid /\ 0 <= depth e /\
      exists f s, kept_file srcs f /\ source_file f = Parsed s /\
                  added_by (ast s) 0 e)).
Proof.
  intros Hidx H. unfold index_sources in H.
  apply bind_Ok_inv in H as (s1 & Hloop & H). injection H as <-.
  destruct (index_sources_traced _ _ _ Hloop) as (entries & -> & Hall).
  split; [apply finalize_index_consistent, foldl_add_node_consistent, Hidx|].
  split.
  - intros fid. rewrite finalize_bucket'. apply finalize_sort_sorted.
  - intros fid e He. rewrite finalize_bucket_perm in He.
    apply bucket_foldl_add_node in He as [He|[He Hf]]; [now left|right].
    split; [exact Hf|].
    pose proof (proj1 (Forall_forall _ _) Hall e He) as (f & s & Hkept & Hsf & Hadded).
    split; [|eauto].
    destruct Hadded
      as (kvs & d & Hvis & (src & st & ln & nf & i & _ & _ & _ & _ & ->)).
    cbn. now apply visited_depth in Hvis.
Qed.

(** The index of the example: the sources loop reaches four nodes, and
    [finalize_index] reorders their entries. *)
Example index_sources_sample :
  index_sources sample_sources empty_index = Ok sample_built /\
  bucket sample_built 6
  = [sample_unit_entry; sample_function_entry; sample_variable_entry;
     sample_contract_entry] /\
  node_by_id sample_built !! KInt 8 = Some sample_variable_entry.
Proof. vm_compute. repeat split; reflexivity. Qed.

Lemma index_sources_built_witness :
  index_consistent sample_built /\
  (forall fid, StronglySorted start_then_depth (bucket sample_built fid)) /\
  (forall fid e, e ∈ bucket sample_built fid ->
     e ∈ bucket empty_index fid \/
     (file_id e = fid /\ 0 <= depth e /\
      exists f s, kept_file sample_sources f /\
                  source_file f = Parsed s /\ added_by (ast s) 0 e)).
Proof.
  apply (index_sources_built sample_sources empty_index sample_built).
  - apply empty_index_consistent.
  - vm_compute. reflexivity.
Defined.

(** * The path table *)

Section path_table_facts.

Lemma dict_lookup_nil {K V} `{EqDecision K} (k : K) :
  dict_lookup ([] : list (K * V)) k = Raise KeyError.
Proof. reflexivity. Qed.

Lemma dict_lookup_cons {K V} `{EqDecision K} (k k' : K) (v : V) d :
  dict_lookup ((k', v) :: d) k
  = if bool_decide (k' = k) then Ok v else dict_lookup d k.
Proof.
  unfold dict_lookup. cbn [list_find fst]. case_bool_decide as Hk.
  - rewrite decide_True by exact Hk. reflexivity.
  - rewrite decide_False by exact Hk.
    destruct (list_find _ d) as [[i kv]|]; reflexivity.
Qed.

Lemma dict_lookup_set {K V} `{EqDecision K} (k k' : K) (v : V) d :
  dict_lookup (dict_set k v d) k'
  = if bool_decide (k = k') then Ok v else dict_lookup d k'.
Proof.
  induction d as [|[k0 v0] d IH]; cbn [dict_set].
  - rewrite dict_lookup_cons, dict_lookup_nil. reflexivity.
  - destruct (decide (k0 = k)) as [->|Hk0].
    + rewrite bool_decide_eq_true_2 by reflexivity.
      rewrite !dict_lookup_cons. now case_bool_decide.
    + rewrite bool_decide_eq_false_2 by exact Hk0.
      rewrite !dict_lookup_cons, IH.
      repeat case_bool_decide; congruence.
Qed.

Lemma path_table_entry_lookup kv table table' fid :
  path_table_entry kv table = Ok table' ->
  dict_lookup table' fid
  = if names_file fid kv then Ok kv.2 else dict_lookup table fid.
Proof.
  unfold path_table_entry, names_file.
  destruct (int_of_key kv.1) as [n|e].
  - rewrite bind_Ok. cbn [try_except]. intros [= <-]. rewrite dict_lookup_set.
    destruct (Z.eqb_spec n fid); case_bool_decide; congruence.
  - cbn [mbind result_bind try_except]. case_bool_decide; [|discriminate].
    now intros [= <-].
Qed.

Lemma path_entries_lookup pairs table table' fid :
  for_each path_table_entry pairs table = Ok table' ->
  dict_lookup table' fid
  = match last (List.filter (names_file fid) pairs) with
    | Some kv => Ok kv.2
    | None => dict_lookup table fid
    end.
Proof.
  revert table. induction pairs as [|kv pairs IH]; intros table H.
  - now injection H as <-.
  - rewrite for_each_cons in H. apply bind_Ok_inv in H as (t1 & H1 & H).
    rewrite (IH _ H), (path_table_entry_lookup _ _ _ fid H1).
    cbn [List.filter]. destruct (names_file fid kv); [|reflexivity].
    clear IH. destruct (List.filter (names_file fid) pairs) as [|x xs];
      [reflexivity|].
    change (last (kv :: x :: xs)) with (last (x :: xs)).
    destruct (last (x :: xs)) eqn:Hl; [reflexivity|].
    apply last_None in Hl. discriminate.
Qed.

Lemma for_each_concat {A B S} (body : B -> S -> result S) (g : A -> list B) l s :
  for_each (fun a s => for_each body (g a) s) l s
  = for_each body (concat (map g l)) s.
Proof.
  revert s. induction l as [|a l IH]; intros s; [reflexivity|].
  cbn [map concat]. rewrite for_each_cons, for_each_app.
  destruct (for_each body (g a) s) as [s1|e]; [|reflexivity].
  rewrite !bind_Ok. apply IH.
Qed.

End path_table_facts.

(** X24. In the path table the last build info wins: after the loop of
    [_build_position_index] over the build infos, a file id leads to the
    path of the last pair, in the order of the build infos and of their
    source maps, whose key [int] reads as that id; keys that [int] rejects
    are skipped, and an id that no pair names is as it was before. *)
Theorem path_table_last_wins
    (build_infos : list BuildInfo) (table table' : list (Z * json))
    (file_id : Z) :
  path_table build_infos table = Ok table' ->
  dict_lookup table' file_id
  = match last (List.filter (names_file file_id)
                  (concat (map source_id_to_path build_infos))) with
    | Some kv => Ok kv.2
    | None => dict_lookup table file_id
    end.
Proof.
  unfold path_table. rewrite for_each_concat. apply path_entries_lookup.
Qed.

Lemma path_table_last_wins_witness :
  dict_lookup [(6, JStr "/q/C.sol")] 6
  = match last (List.filter (names_file 6)
                  (concat (map source_id_to_path
                     [{| info_id := JStr "b1";
                         source_id_to_path :=
                           [(KStr "6", JStr "/p/C.sol"); (KStr "x", JStr "/p/D.sol")];
                         language := JStr "Solidity" |};
                      {| info_id := JStr "b2";
                         source_id_to_path := [(KStr " 06", JStr "/q/C.sol")];
                         language := JStr "Solidity" |}]))) with
    | Some kv => Ok kv.2
    | None => dict_lookup [] 6
    end.
Proof.
  apply (path_table_last_wins
           [{| info_id := JStr "b1";
               source_id_to_path :=
                 [(KStr "6", JStr "/p/C.sol"); (KStr "x", JStr "/p/D.sol")];
               language := JStr "Solidity" |};
            {| info_id := JStr "b2";
               source_id_to_path := [(KStr " 06", JStr "/q/C.sol")];
               language := JStr "Solidity" |}] [] [(6, JStr "/q/C.sol")] 6).
  vm_compute. reflexivity.
Defined.

(** * Offsets outside the buffer *)

(** X25. Offsets outside the buffer are not refused.  An offset at or past
    the byte length of the buffer gives the end of the last line.  A
    negative offset counts back from the end of the first line: it gives
    what the offset [max 0 (n + b)] gives, [n] being the byte length of the
    first line. *)
Theorem byte_offset_out_of_range (content : Codec.text) (b : Z) :
  Codec.utf8_text content ->
  (Codec.utf8_len content <= b ->
   exists l, last (Codec.str_split_nl content) = Some l /\
     Codec.byte_offset_to_lsp_position content b
     = Ok (len (Codec.str_split_nl content) - 1, Codec.utf16_units l)) /\
  (b < 0 ->
   exists l, head (Codec.str_split_nl content) = Some l /\
     Codec.byte_offset_to_lsp_position content b
     = Codec.byte_offset_to_lsp_position content
         (Z.max 0 (Codec.utf8_len l + b))).
Proof.
  intros Hv.
  pose proof (str_split_nl_nonempty content) as Hne.
  pose proof (utf8_text_split content Hv) as Hlines.
  split.
  - intros Hb. destruct (last (Codec.str_split_nl content)) as [l|] eqn:Hlast;
      [|apply last_None in Hlast; congruence].
    exists l. split; [reflexivity|].
    unfold Codec.byte_offset_to_lsp_position.
    rewrite str_encode_utf8_ok, bind_Ok by assumption.
    fold (Codec.utf8_len content).
    destruct (Z.leb_spec (Codec.utf8_len content) b); [|lia].
    rewrite bool_decide_eq_false_2 by assumption.
    rewrite (py_index_last _ _ Hlast), bind_Ok.
    rewrite str_encode_utf16le_ok, bind_Ok; [reflexivity|].
    rewrite last_lookup in Hlast. eapply Forall_lookup_1; eassumption.
  - intros Hb. destruct (Codec.str_split_nl content) as [|l rest] eqn:Hsplit;
      [congruence|].
    exists l. split; [reflexivity|].
    assert (Codec.str_split_nl content !! 0%nat = Some l) as Hl
      by now rewrite Hsplit.
    assert (Codec.utf8_text l) as Hvl by now apply Forall_cons in Hlines as [? _].
    pose proof (utf8_len_nonneg l) as Hnn.
    pose proof (utf8_len_nonneg content) as Hnc.
    pose proof (line_end_le_total content 0 l Hl) as Hle.
    rewrite Hsplit, line_start_0 in Hle.
    assert (Codec.byte_offset_to_lsp_position content b
            = (u ← Codec.str_encode_utf16le
                     (Codec.bytes_decode_utf8_ignore
                        (py_slice_to (flat_map Codec.utf8_encode_char l)
                           (Z.max 0 (Codec.utf8_len l + b))));
               Ok (0, len u / 2))) as ->.
    { unfold Codec.byte_offset_to_lsp_position.
      rewrite str_encode_utf8_ok, bind_Ok by assumption.
      fold (Codec.utf8_len content).
      destruct (Z.leb_spec (Codec.utf8_len content) b); [lia|].
      rewrite Hsplit. cbn [Codec.line_loop].
      rewrite str_encode_utf8_ok, !bind_Ok by assumption.
      fold (Codec.utf8_len l).
      destruct (Z.leb_spec b (0 + Codec.utf8_len l)); [|lia].
      replace (py_slice_to (flat_map Codec.utf8_encode_char l) (b - 0))
        with (py_slice_to (flat_map Codec.utf8_encode_char l)
                (Z.max 0 (Codec.utf8_len l + b))).
      - destruct (Codec.str_encode_utf16le _); reflexivity.
      - unfold py_slice_to.
        destruct (Z.leb_spec 0 (Z.max 0 (Codec.utf8_len l + b))); [|lia].
        destruct (Z.leb_spec 0 (b - 0)); [lia|].
        f_equal. unfold Codec.utf8_len. lia. }
    destruct (Z.lt_ge_cases (Z.max 0 (Codec.utf8_len l + b))
                (Codec.utf8_len content)) as [Hlt|Hge].
    + pose proof (byte_offset_to_lsp_position_in_line content 0 l
                    (Z.max 0 (Codec.utf8_len l + b)) Hv Hl) as Hin.
      rewrite Hsplit, line_start_0, !Z.add_0_l in Hin.
      rewrite Hin by lia. reflexivity.
    + assert (content = []) as -> by (apply utf8_len_zero; lia).
      cbn in Hsplit. injection Hsplit as <- <-.
      change (Codec.utf8_len []) with 0. rewrite Z.max_l by lia. reflexivity.
Qed.

Lemma byte_offset_out_of_range_witness :
  exists l, head (Codec.str_split_nl [0xE9; 33; 10; 72; 105]) = Some l /\
    Codec.byte_offset_to_lsp_position [0xE9; 33; 10; 72; 105] (-1)
    = Codec.byte_offset_to_lsp_position [0xE9; 33; 10; 72; 105]
        (Z.max 0 (Codec.utf8_len l + -1)).
Proof.
  apply (proj2 (byte_offset_out_of_range [0xE9; 33; 10; 72; 105] (-1) eq_refl)).
  lia.
Defined.

(** * Diagnostics that stop the load *)

Section diagnostic_facts.

Lemma load_source_location_outcome loc :
  (truthy loc = true -> isinstance_dict loc = false ->
   load_source_location loc = Raise AttributeError) /\
  (truthy loc = false \/ isinstance_dict loc = true ->
   exists o, load_source_location loc = Ok o).
Proof.
  unfold load_source_location. split.
  - intros Ht Hd. rewrite Ht. destruct loc; try discriminate; reflexivity.
  - intros [Ht|Hd].
    + rewrite Ht. eauto.
    + destruct loc as [ | | | | |lkvs]; try discriminate.
      destruct (truthy (JDict lkvs)); [|eauto].
      rewrite !get_dict, !bind_Ok. destruct (_ && _); eauto.
Qed.

Lemma parse_kind_outcome {A} (warning error : A) x :
  (str_or_none x = false -> parse_kind warning error x = Raise AttributeError) /\
  (str_or_none x = true -> exists o, parse_kind warning error x = Ok o).
Proof.
  split; intros Hx; destruct x; try discriminate; try reflexivity; cbn [parse_kind].
  - eauto.
  - repeat case_bool_decide; eauto.
Qed.

End diagnostic_facts.

(** X26. A diagnostic is dropped only when it is well typed: a record of
    [errors] whose [sourceLocation] is a true value that is not an object,
    or whose [type] or [severity] is neither a string nor null, makes the
    load raise [AttributeError]; every other record is read without an
    exception. *)
Theorem load_error_outcome (kvs : list (string * json)) (acc : list Errors) :
  ((truthy (field kvs "sourceLocation") = true /\
    isinstance_dict (field kvs "sourceLocation") = false) \/
   str_or_none (field kvs "type") = false \/
   str_or_none (field kvs "severity") = false ->
   load_error (JDict kvs) acc = Raise AttributeError) /\
  ((truthy (field kvs "sourceLocation") = false \/
    isinstance_dict (field kvs "sourceLocation") = true) ->
   str_or_none (field kvs "type") = true ->
   str_or_none (field kvs "severity") = true ->
   exists acc', load_error (JDict kvs) acc = Ok acc').
Proof.
  unfold load_error. rewrite !get_dict, !bind_Ok. cbv beta.
  destruct (load_source_location_outcome (field kvs "sourceLocation"))
    as [Hloc_bad Hloc_ok].
  destruct (parse_kind_outcome ErrorType_WARNING ErrorType_ERROR (field kvs "type"))
    as [Hty_bad Hty_ok].
  destruct (parse_kind_outcome Severity_WARNING Severity_ERROR
              (field kvs "severity")) as [Hsev_bad Hsev_ok].
  split.
  - intros Hbad.
    destruct (truthy (field kvs "sourceLocation")) eqn:Ht;
      destruct (isinstance_dict (field kvs "sourceLocation")) eqn:Hd;
      try (rewrite (Hloc_bad eq_refl eq_refl); reflexivity).
    all: destruct Hloc_ok as [o ->]; [auto|]; rewrite bind_Ok.
    all: destruct (str_or_none (field kvs "type")) eqn:Hty;
      [|rewrite (Hty_bad eq_refl); reflexivity].
    all: destruct (Hty_ok eq_refl) as [t ->]; rewrite bind_Ok.
    all: destruct (str_or_none (field kvs "severity")) eqn:Hsev;
      [|rewrite (Hsev_bad eq_refl); reflexivity].
    all: exfalso; destruct Hbad as [[? ?]|[?|?]]; discriminate.
  - intros Hloc Hty Hsev.
    destruct (Hloc_ok Hloc) as [o ->]. destruct (Hty_ok Hty) as [t ->].
    destruct (Hsev_ok Hsev) as [sv ->]. rewrite !bind_Ok.
    destruct o, t; try (eexists; reflexivity).
    destruct sv; [|eexists; reflexivity].
    destruct (_ && _); eexists; reflexivity.
Qed.

Lemma load_error_outcome_witness :
  load_error
    (JDict [("sourceLocation",
             JDict [("file", JStr "C.sol"); ("start", JInt 0); ("end", JInt 9)]);
            ("type", JStr "Warning"); ("errorCode", JStr "2072");
            ("severity", JInt 1); ("message", JStr "Unused variable.")]) []
  = Raise AttributeError.
Proof.
  apply (proj1 (load_error_outcome
                  [("sourceLocation",
                    JDict [("file", JStr "C.sol"); ("start", JInt 0);
                           ("end", JInt 9)]);
                   ("type", JStr "Warning"); ("errorCode", JStr "2072");
                   ("severity", JInt 1); ("message", JStr "Unused variable.")] [])).
  right. right. reflexivity.
Defined.

(** * Every reached node can be looked up *)

(** X27. The walk misses no node: when it returns, every node it reached
    that has an [id] and a well-formed [src] is found, after
    [finalize_index], by [find_nodes_at_position] in the file that its
    [src] names at every byte offset of its span, with the depth at which
    it was reached. *)
Theorem _index_ast_nodes_complete
    (node : json) (fid d0 : Z) (self self' : PositionIndex)
    (ckvs : list (string * json)) (d : Z) (id : json) (src : string)
    (start length f off : Z) :
  _index_ast_nodes node fid d0 self = Ok self' ->
  visited node d0 (JDict ckvs) d ->
  assoc "id" ckvs = Some id ->
  assoc "src" ckvs = Some (JStr src) ->
  parse_src src = Ok (Some (start, length, f)) ->
  start <= off < start + length ->
  exists e,
    e ∈ find_nodes_at_position (finalize_index self') f off /\
    hash_key id = Ok (node_id e) /\ file_id e = f /\
    start_byte e = start /\ end_byte e = start + length /\
    node_data e = JDict ckvs /\ depth e = d.
Proof.
  intros Hrun Hvis Hid Hsrc Hparse Hoff.
  destruct (visited_indexed _ _ _ _ Hvis ckvs id src start length f fid self self'
              eq_refl Hid Hsrc Hparse Hrun) as (k & Hk & Hin).
  exists {| node_id := k; file_id := f; start_byte := start;
            end_byte := start + length;
            node_type := default (JStr "Unknown") (assoc "nodeType" ckvs);
            node_data := JDict ckvs; depth := d |}.
  split; [|repeat split; exact Hk].
  rewrite find_nodes_at_position_bucket, sort_by_key_perm.
  fold (bucket (finalize_index self') f).
  rewrite list_elem_of_In, filter_In, contains_offset_spec, <- list_elem_of_In.
  split; [|exact Hoff]. rewrite finalize_bucket_perm. exact Hin.
Qed.

Lemma _index_ast_nodes_complete_witness :
  exists e,
    e ∈ find_nodes_at_position
          (finalize_index
             (add_node empty_index
                {| node_id := KInt 7; file_id := 6; start_byte := 10;
                   end_byte := 15; node_type := JStr "ContractDefinition";
                   node_data := JDict sample_contract; depth := 1 |})) 6 12 /\
    hash_key (JInt 7) = Ok (node_id e) /\ file_id e = 6 /\
    start_byte e = 10 /\ end_byte e = 10 + 5 /\
    node_data e = JDict sample_contract /\ depth e = 1.
Proof.
  apply (_index_ast_nodes_complete (JDict sample_unit) 6 0 empty_index
           (add_node empty_index
              {| node_id := KInt 7; file_id := 6; start_byte := 10;
                 end_byte := 15; node_type := JStr "ContractDefinition";
                 node_data := JDict sample_contract; depth := 1 |})
           sample_contract 1 (JInt 7) "10:5:6" 10 5 6 12).
  - vm_compute. reflexivity.
  - eapply (visited_below (JDict sample_unit) 0 sample_unit "nodes"
              (JList [JDict sample_contract]) (JDict sample_contract)).
    + reflexivity.
    + vm_compute. repeat constructor.
    + vm_compute. eexists. split; [reflexivity | constructor].
    + constructor.
  - reflexivity.
  - reflexivity.
  - vm_compute. reflexivity.
  - lia.
Defined.

(** * Positions and offsets keep their order *)

Section order_facts.
Import Codec.

Lemma column_loop_mono l c c' u b :
  utf8_text l -> c <= c' ->
  exists r r',
    column_loop l c u b = Ok r /\ column_loop l c' u b = Ok r' /\
    b <= r /\ r <= r' /\ r' <= b + utf8_len l.
Proof.
  revert u b. induction l as [|ch rest IH]; intros u b Hv Hc.
  - exists b, b. rewrite utf8_len_nil. cbn. repeat split; lia.
  - pose proof Hv as Hv'. apply utf8_text_cons in Hv' as [Hch Hrest].
    destruct (Z.le_gt_cases c u) as [Hle|Hgt].
    + destruct (column_loop_least (ch :: rest) c' u b Hv) as (k & Hk & Hrun).
      exists b, (b + utf8_len (take k (ch :: rest))).
      pose proof (utf8_len_nonneg (take k (ch :: rest))).
      pose proof (utf8_len_take_le k (ch :: rest)).
      repeat split; try lia; [|exact Hrun].
      cbn [column_loop]. destruct (Z.leb_spec c u); [reflexivity | lia].
    + rewrite !column_loop_char by (auto; lia).
      destruct (IH (u + utf16_units [ch]) (b + utf8_len [ch]) Hrest Hc)
        as (r & r' & Hr & Hr' & H1 & H2 & H3).
      exists r, r'. rewrite (utf8_len_cons ch rest).
      pose proof (utf8_len_char ch). repeat split; try assumption; lia.
Qed.

(** The offset of a position of a line lies in that line. *)
Lemma offset_within_line content i l col :
  utf8_text content -> str_split_nl content !! i = Some l ->
  exists r,
    lsp_position_to_byte_offset content (Z.of_nat i) col = Ok r /\
    line_start (str_split_nl content) i <= r
    <= line_start (str_split_nl content) i + utf8_len l.
Proof.
  intros Hv Hl.
  assert (utf8_text l) as Hvl
    by (eapply Forall_lookup_1; [apply utf8_text_split|]; eassumption).
  rewrite (lsp_position_to_byte_offset_line content i l) by auto.
  destruct (column_loop_mono l col col 0 0 Hvl ltac:(lia))
    as (r & r' & Hr & _ & H1 & H2 & H3).
  rewrite Hr, bind_Ok. eexists. split; [reflexivity|].
  destruct (column_loop_least l col 0 0 Hvl) as (k & Hk & Hrun).
  rewrite Hrun in Hr. injection Hr as <-.
  pose proof (utf8_len_nonneg (take k l)). pose proof (utf8_len_take_le k l). lia.
Qed.

End order_facts.

(** X28. [lsp_position_to_byte_offset] keeps the order of positions: for two
    positions on lines that are not negative, the first on an earlier line
    than the second or on the same line at a column that is not greater,
    both offsets are returned and the first is not greater than the second.
    The start of a range is never mapped after its end. *)
Theorem lsp_position_to_byte_offset_monotone
    (content : Codec.text) (line1 col1 line2 col2 : Z) :
  Codec.utf8_text content ->
  0 <= line1 ->
  line1 < line2 \/ (line1 = line2 /\ col1 <= col2) ->
  exists b1 b2,
    Codec.lsp_position_to_byte_offset content line1 col1 = Ok b1 /\
    Codec.lsp_position_to_byte_offset content line2 col2 = Ok b2 /\
    b1 <= b2.
Proof.
  intros Hv H1 Horder.
  assert (forall line col, len (Codec.str_split_nl content) <= line ->
            Codec.lsp_position_to_byte_offset content line col
            = Ok (Codec.utf8_len content)) as Hpast.
  { intros line col Hline. unfold Codec.lsp_position_to_byte_offset.
    destruct (Z.leb_spec (len (Codec.str_split_nl content)) line); [|lia].
    now rewrite str_encode_utf8_ok, bind_Ok by assumption. }
  assert (forall line col, 0 <= line < len (Codec.str_split_nl content) ->
            exists l r,
              Codec.str_split_nl content !! Z.to_nat line = Some l /\
              Codec.lsp_position_to_byte_offset content line col = Ok r /\
              Codec.line_start (Codec.str_split_nl content) (Z.to_nat line) <= r
              <= Codec.line_start (Codec.str_split_nl content) (Z.to_nat line)
                 + Codec.utf8_len l) as Hin.
  { intros line col Hline.
    destruct (lookup_lt_is_Some_2 (Codec.str_split_nl content) (Z.to_nat line))
      as [l Hl]; [unfold len in Hline; lia|].
    destruct (offset_within_line content (Z.to_nat line) l col Hv Hl)
      as (r & Hr & Hrange).
    rewrite Z2Nat.id in Hr by lia. eauto. }
  destruct (Z.le_gt_cases (len (Codec.str_split_nl content)) line2) as [Hge2|Hlt2].
  - rewrite (Hpast line2 col2 Hge2).
    destruct (Z.le_gt_cases (len (Codec.str_split_nl content)) line1) as [Hge1|Hlt1].
    + rewrite (Hpast line1 col1 Hge1). eexists _, _. repeat split. lia.
    + destruct (Hin line1 col1 ltac:(lia)) as (l & r & Hl & Hr & Hrange).
      rewrite Hr. eexists _, _. repeat split.
      pose proof (line_end_le_total content _ l Hl). lia.
  - destruct Horder as [Hlt|[-> Hcol]].
    + destruct (Hin line1 col1 ltac:(lia)) as (l1 & r1 & Hl1 & Hr1 & Hrange1).
      destruct (Hin line2 col2 ltac:(lia)) as (l2 & r2 & Hl2 & Hr2 & Hrange2).
      rewrite Hr1, Hr2. eexists _, _. repeat split.
      pose proof (line_start_snoc _ _ _ Hl1) as Hnext.
      pose proof (line_start_mono (Codec.str_split_nl content)
                    (S (Z.to_nat line1)) (Z.to_nat line2) ltac:(lia)).
      lia.
    + destruct (lookup_lt_is_Some_2 (Codec.str_split_nl content) (Z.to_nat line2))
        as [l Hl]; [unfold len in Hlt2; lia|].
      assert (Codec.utf8_text l) as Hvl
        by (eapply Forall_lookup_1; [apply utf8_text_split|]; eassumption).
      rewrite <- (Z2Nat.id line2) by lia.
      rewrite !(lsp_position_to_byte_offset_line content _ l) by auto.
      destruct (column_loop_mono l col1 col2 0 0 Hvl Hcol)
        as (r & r' & Hr & Hr' & _ & Hle & _).
      rewrite Hr, Hr', !bind_Ok. eexists _, _. repeat split. lia.
Qed.

Lemma lsp_position_to_byte_offset_monotone_witness :
  exists b1 b2,
    Codec.lsp_position_to_byte_offset [72; 105; 10; 0x1F642; 0xE9; 10; 33] 1 3
    = Ok b1 /\
    Codec.lsp_position_to_byte_offset [72; 105; 10; 0x1F642; 0xE9; 10; 33] 2 0
    = Ok b2 /\
    b1 <= b2.
Proof.
  apply (lsp_position_to_byte_offset_monotone
           [72; 105; 10; 0x1F642; 0xE9; 10; 33] 1 3 2 0).
  - reflexivity.
  - lia.
  - left. lia.
Defined.

Section reverse_order_facts.
Import Codec.

(** The position of an offset of the buffer: its line, and the characters
    of the line that end at or before it. *)
Lemma byte_offset_position content b :
  utf8_text content -> 0 <= b <= utf8_len content ->
  exists i l m k,
    str_split_nl content !! i = Some l /\
    b = line_start (str_split_nl content) i + m /\ 0 <= m <= utf8_len l /\
    (k <= length l)%nat /\ utf8_len (take k l) <= m /\
    ((k < length l)%nat -> m < utf8_len (take (S k) l)) /\
    byte_offset_to_lsp_position content b
    = Ok (Z.of_nat i, utf16_units (take k l)).
Proof.
  intros Hv Hb.
  pose proof (str_split_nl_nonempty content) as Hne.
  destruct (offset_in_line (str_split_nl content) b Hne)
    as (i & l & m & Hl & Hm & ->); [now rewrite join_split|].
  destruct (prefix_before l m Hm) as (k & Hk & Hle & Hnext & Hend).
  exists i, l, m, k. repeat split; try assumption; try lia.
  destruct (decide (k = length l)) as [Hklen|Hklen].
  - rewrite (Hend Hklen). rewrite <- (take_ge l k) at 1 by lia.
    now apply byte_offset_to_lsp_position_at.
  - destruct (lookup_lt_is_Some_2 l k) as [c Hc]; [lia|].
    specialize (Hnext ltac:(lia)).
    rewrite (take_S_r l k c Hc), utf8_len_app in Hnext.
    replace m with (utf8_len (take k l) + (m - utf8_len (take k l))) by lia.
    apply (byte_offset_to_lsp_position_inside content i l k c); auto. lia.
Qed.

Lemma byte_offset_past_end content b :
  utf8_text content -> utf8_len content <= b ->
  byte_offset_to_lsp_position content b
  = byte_offset_to_lsp_position content (utf8_len content).
Proof.
  intros Hv Hb. unfold byte_offset_to_lsp_position.
  rewrite str_encode_utf8_ok, !bind_Ok by assumption.
  fold (utf8_len content).
  destruct (Z.leb_spec (utf8_len content) b); [|lia].
  destruct (Z.leb_spec (utf8_len content) (utf8_len content)); [|lia].
  reflexivity.
Qed.

Lemma byte_offset_order content b1 b2 :
  utf8_text content -> 0 <= b1 <= b2 -> b2 <= utf8_len content ->
  exists line1 col1 line2 col2,
    byte_offset_to_lsp_position content b1 = Ok (line1, col1) /\
    byte_offset_to_lsp_position content b2 = Ok (line2, col2) /\
    (line1 < line2 \/ (line1 = line2 /\ col1 <= col2)).
Proof.
  intros Hv Hb1 Hb2.
  destruct (byte_offset_position content b1 Hv ltac:(lia))
    as (i1 & l1 & m1 & k1 & Hl1 & Hrep1 & Hm1 & Hk1 & Hle1 & Hnext1 & Hpos1).
  destruct (byte_offset_position content b2 Hv ltac:(lia))
    as (i2 & l2 & m2 & k2 & Hl2 & Hrep2 & Hm2 & Hk2 & Hle2 & Hnext2 & Hpos2).
  exists (Z.of_nat i1), (utf16_units (take k1 l1)),
    (Z.of_nat i2), (utf16_units (take k2 l2)).
  split; [exact Hpos1|]. split; [exact Hpos2|].
  destruct (Nat.lt_trichotomy i1 i2) as [Hlt|[Heq|Hgt]].
  - left. lia.
  - right. split; [lia|]. subst i2. unfold text in Hl1, Hl2.
    rewrite Hl1 in Hl2. injection Hl2 as <-.
    apply utf16_units_take_mono.
    destruct (Nat.le_gt_cases k1 k2) as [Hk|Hk]; [exact Hk|exfalso].
    pose proof (utf8_len_take_mono (S k2) k1 l1 ltac:(lia)).
    specialize (Hnext2 ltac:(lia)). lia.
  - exfalso. pose proof (line_start_snoc _ _ _ Hl2) as Hnext.
    pose proof (line_start_mono (str_split_nl content) (S i2) i1 ltac:(lia)).
    lia.
Qed.

End reverse_order_facts.

(** X29. [byte_offset_to_lsp_position] keeps the order of offsets that are
    not negative: of two such offsets the smaller one gets the earlier
    line, or the same line and a column that is not greater, also when one
    of them or both lie inside a character or past the end of the
    buffer. *)
Theorem byte_offset_to_lsp_position_monotone
    (content : Codec.text) (b1 b2 : Z) :
  Codec.utf8_text content ->
  0 <= b1 <= b2 ->
  exists line1 col1 line2 col2,
    Codec.byte_offset_to_lsp_position content b1 = Ok (line1, col1) /\
    Codec.byte_offset_to_lsp_position content b2 = Ok (line2, col2) /\
    (line1 < line2 \/ (line1 = line2 /\ col1 <= col2)).
Proof.
  intros Hv Hb. pose proof (utf8_len_nonneg content) as Hnn.
  destruct (Z.le_gt_cases b2 (Codec.utf8_len content)) as [H2|H2].
  - apply byte_offset_order; auto.
  - rewrite (byte_offset_past_end content b2) by (auto; lia).
    destruct (Z.le_gt_cases b1 (Codec.utf8_len content)) as [H1|H1].
    + apply byte_offset_order; auto; lia.
    + rewrite (byte_offset_past_end content b1) by (auto; lia).
      apply byte_offset_order; auto; lia.
Qed.

Lemma byte_offset_to_lsp_position_monotone_witness :
  exists line1 col1 line2 col2,
    Codec.byte_offset_to_lsp_position [72; 105; 10; 0xE9; 0x1F642; 10; 33] 6
    = Ok (line1, col1) /\
    Codec.byte_offset_to_lsp_position [72; 105; 10; 0xE9; 0x1F642; 10; 33] 40
    = Ok (line2, col2) /\
    (line1 < line2 \/ (line1 = line2 /\ col1 <= col2)).
Proof.
  apply (byte_offset_to_lsp_position_monotone
           [72; 105; 10; 0xE9; 0x1F642; 10; 33] 6 40).
  - reflexivity.
  - lia.
Defined.

(** * Nodes that stop the walk *)

Section walk_errors.

(** When the walk returns, so did each of its recursive calls. *)
Lemma visited_run node depth c d :
  visited node depth c d ->
  forall fid s s', _index_ast_nodes node fid depth s = Ok s' ->
    exists sa sb, _index_ast_nodes c fid d sa = Ok sb.
Proof.
  induction 1 as [node depth | node depth kvs key value child c d Hnode Hkv Hrec Hvis IH];
    intros fid s s' Hrun; [eauto|].
  subst node. rewrite _index_ast_nodes_unfold in Hrun.
  apply bind_Ok_inv in Hrun as (s1 & H1 & Hrun).
  destruct (for_each_Ok_elem _ _ _ _ _ Hrun Hkv) as (s2 & s3 & H3).
  cbn [fst snd] in H3.
  assert (exists sa sb, _index_ast_nodes child fid (depth + 1) sa = Ok sb)
    as (sa & sb & Hchild).
  { unfold recursed_child in Hrec. unfold index_child in H3.
    destruct (bool_decide (key ∈ child_list_keys)).
    - destruct Hrec as (children & -> & Hin).
      apply (for_each_Ok_elem _ _ _ _ _ H3 Hin).
    - destruct (bool_decide (key ∈ single_child_keys)).
      + destruct Hrec as [-> Hdict]. destruct child; try discriminate. eauto.
      + destruct Hrec as (-> & vkvs & -> & Hnt). rewrite Hnt in H3. eauto. }
  eapply IH, Hchild.
Qed.

End walk_errors.

(** X30. An ill-typed node is not skipped, it stops the walk: when the walk
    returns, every node it reached that has both [id] and [src] has a
    string for [src], and, unless [parse_src] rejects that string, an [id]
    that can be a dict key (not an array or an object). *)
Theorem _index_ast_nodes_well_typed
    (node : json) (fid d0 : Z) (self self' : PositionIndex)
    (ckvs : list (string * json)) (d : Z) (id v : json) :
  _index_ast_nodes node fid d0 self = Ok self' ->
  visited node d0 (JDict ckvs) d ->
  assoc "id" ckvs = Some id ->
  assoc "src" ckvs = Some v ->
  exists src, v = JStr src /\
    (parse_src src = Ok None \/ exists k, hash_key id = Ok k).
Proof.
  intros Hrun Hvis Hid Hsrc.
  destruct (visited_run _ _ _ _ Hvis _ _ _ Hrun) as (sa & sb & Hc).
  rewrite _index_ast_nodes_unfold in Hc.
  apply bind_Ok_inv in Hc as (s1 & H1 & _).
  unfold index_current_node in H1.
  rewrite (assoc_contains _ _ _ Hid), (assoc_contains _ _ _ Hsrc) in H1.
  cbn [andb] in H1. rewrite Hsrc, Hid in H1.
  apply bind_Ok_inv in H1 as (src_info & Hparse & H1).
  destruct v as [ |b|n|src|its|vkvs]; try discriminate.
  exists src. split; [reflexivity|].
  destruct src_info as [[[st ln] nf]|]; [|now left].
  apply bind_Ok_inv in H1 as (k & Hk & _). right. eauto.
Qed.

Lemma _index_ast_nodes_well_typed_witness :
  exists src, JStr "10:5:6" = JStr src /\
    (parse_src src = Ok None \/ exists k, hash_key (JInt 7) = Ok k).
Proof.
  apply (_index_ast_nodes_well_typed (JDict sample_unit) 6 0 empty_index
           (add_node empty_index
              {| node_id := KInt 7; file_id := 6; start_byte := 10;
                 end_byte := 15; node_type := JStr "ContractDefinition";
                 node_data := JDict sample_contract; depth := 1 |})
           sample_contract 1 (JInt 7) (JStr "10:5:6")).
  - vm_compute. reflexivity.
  - eapply (visited_below (JDict sample_unit) 0 sample_unit "nodes"
              (JList [JDict sample_contract]) (JDict sample_contract)).
    + reflexivity.
    + vm_compute. repeat constructor.
    + vm_compute. eexists. split; [reflexivity | constructor].
    + constructor.
  - reflexivity.
  - reflexivity.
Defined.
